(** * opfs-kit: a Node-style [fs] interface over the Origin Private File System

    A shallow embedding of the TypeScript sources
    - [src/utils/fs-utils.ts]  (root initialisation and path resolution),
    - [src/fs.ts]              (readFile, writeFile, exists, unlink, mkdir, readdir, constants),
    - the two [Buffer] implementations (the object-style one with a patched
      [toString], and the class-style one extending [Uint8Array]),
    together with the platform functions they call (String.prototype.split,
    TextEncoder, TextDecoder, atob, btoa, and the directory/file handles of the
    File System standard), followed by the properties proved about them.

    Conventions.
    - A JavaScript string is the list of its UTF-16 code units, each a [Z].
    - A byte sequence (Uint8Array, ArrayBuffer, file contents) is a list of
      [Z], each in [0, 256).
    - Directory and file handles are represented by the chain of names that
      leads to them from the root: the backend has no other addressing.
    - Asynchronous functions are state-passing computations over [world];
      an [await] is a bind.  The interleaving of several asynchronous calls
      is modelled separately for [initialize] (module [InitRace]).
    - A call takes no more arguments than the engine allows; the bound
      differs between engines and is a parameter ([max_arguments]). *)

From Stdlib Require Import ZArith Lia List String Ascii Bool.
From stdpp Require Import base option list gmap.

Local Open Scope Z_scope.

(** ** JavaScript strings *)

Abbreviation jsstring := (list Z) (only parsing).
Abbreviation bytes := (list Z) (only parsing).

Module Js.

(** An ASCII literal as a JavaScript string. *)
Definition lit (s : string) : jsstring :=
  map (fun a => Z.of_N (N_of_ascii a)) (list_ascii_of_string s).

Definition slash : Z := 47.

(** [s.split('/')]: the substrings between occurrences of the separator;
    never the empty array. *)
Fixpoint split (sep : Z) (s : jsstring) : list jsstring :=
  match s with
  | [] => [[]]
  | c :: rest =>
      if Z.eqb c sep then [] :: split sep rest
      else match split sep rest with
           | p :: ps => (c :: p) :: ps
           | [] => [[c]]
           end
  end.

(** [parts.join('/')]. *)
Fixpoint join (sep : Z) (parts : list jsstring) : jsstring :=
  match parts with
  | [] => []
  | [p] => p
  | p :: ps => p ++ sep :: join sep ps
  end.

(** [parts.pop()]: the last element (undefined on the empty array) and the
    array without it. *)
Definition pop (parts : list jsstring) : option jsstring * list jsstring :=
  (last parts, removelast parts).

(** Truthiness of a string: non-empty. *)
Definition truthy (s : jsstring) : bool :=
  match s with [] => false | _ => true end.

(** [x || ''] on a possibly undefined string. *)
Definition or_empty (x : option jsstring) : jsstring :=
  match x with
  | Some s => if truthy s then s else []
  | None => []
  end.

(** [parts.filter((part) => part.length > 0)]. *)
Definition non_empty_parts (parts : list jsstring) : list jsstring :=
  List.filter truthy parts.

(** *** UTF-16 *)

Definition is_code_unit (u : Z) : bool := (0 <=? u) && (u <=? 0xFFFF).
Definition is_high_surrogate (u : Z) : bool := (0xD800 <=? u) && (u <=? 0xDBFF).
Definition is_low_surrogate (u : Z) : bool := (0xDC00 <=? u) && (u <=? 0xDFFF).

(** A scalar value: a code point that is not a surrogate. *)
Definition is_scalar (cp : Z) : bool :=
  (0 <=? cp) && (cp <=? 0x10FFFF) && negb ((0xD800 <=? cp) && (cp <=? 0xDFFF)).

(** [String.prototype.isWellFormed]: every code unit is in range and no
    surrogate is unpaired. *)
Fixpoint well_formed (s : jsstring) : bool :=
  match s with
  | [] => true
  | c :: rest =>
      if is_high_surrogate c then
        match rest with
        | d :: rest' => is_low_surrogate d && well_formed rest'
        | [] => false
        end
      else is_code_unit c && negb (is_low_surrogate c) && well_formed rest
  end.

(** Conversion of a string to scalar values (the USVString conversion of
    Web IDL): a surrogate pair is one code point, an unpaired surrogate is
    replaced by U+FFFD. *)
Fixpoint to_scalars (s : jsstring) : list Z :=
  match s with
  | [] => []
  | c :: rest =>
      if is_high_surrogate c then
        match rest with
        | d :: rest' =>
            if is_low_surrogate d
            then (c - 0xD800) * 0x400 + (d - 0xDC00) + 0x10000 :: to_scalars rest'
            else 0xFFFD :: to_scalars rest
        | [] => [0xFFFD]
        end
      else if is_low_surrogate c then 0xFFFD :: to_scalars rest
      else c :: to_scalars rest
  end.

(** The code units of one code point (CodePointToUTF16CodeUnits). *)
Definition code_units (cp : Z) : jsstring :=
  if cp <=? 0xFFFF then [cp]
  else [ (cp - 0x10000) `div` 0x400 + 0xD800 ; (cp - 0x10000) `mod` 0x400 + 0xDC00 ].

Definition of_scalars (cps : list Z) : jsstring :=
  concat (map code_units cps).

End Js.

(** ** The UTF-8 encoder and decoder of the Encoding standard *)

Module Utf8.

(** Continuation bytes of the encoder: while [count > 0], the byte
    [0x80 | ((cp >> (6 * (count - 1))) & 0x3F)]. *)
Fixpoint trail (cp : Z) (count : nat) : bytes :=
  match count with
  | O => []
  | S k => Z.lor 0x80 (Z.land (cp ≫ (6 * Z.of_nat k)) 0x3F) :: trail cp k
  end.

(** The bytes of one code point. *)
Definition encode_cp (cp : Z) : bytes :=
  if cp <=? 0x7F then [cp]
  else
    let '(count, offset) :=
      if cp <=? 0x7FF then (1%nat, 0xC0)
      else if cp <=? 0xFFFF then (2%nat, 0xE0)
      else (3%nat, 0xF0) in
    (cp ≫ (6 * Z.of_nat count)) + offset :: trail cp count.

Definition encode (cps : list Z) : bytes := concat (map encode_cp cps).

(** The decoder's state. *)
Record state := State {
  code_point : Z;
  bytes_seen : Z;
  bytes_needed : Z;
  lower_boundary : Z;
  upper_boundary : Z
}.

Definition init : state := State 0 0 0 0x80 0xBF.

Definition between (lo hi b : Z) : bool := (lo <=? b) && (b <=? hi).

(** The handler on a byte read while no sequence is open: the new state and
    the code points emitted (U+FFFD for an error, the decoder being in
    replacement mode). *)
Definition lead (b : Z) : state * list Z :=
  if between 0x00 0x7F b then (init, [b])
  else if between 0xC2 0xDF b then
    (State (Z.land b 0x1F) 0 1 0x80 0xBF, [])
  else if between 0xE0 0xEF b then
    (State (Z.land b 0xF) 0 2
       (if b =? 0xE0 then 0xA0 else 0x80)
       (if b =? 0xED then 0x9F else 0xBF), [])
  else if between 0xF0 0xF4 b then
    (State (Z.land b 0x7) 0 3
       (if b =? 0xF0 then 0x90 else 0x80)
       (if b =? 0xF4 then 0x8F else 0xBF), [])
  else (init, [0xFFFD]).

(** The handler on one byte.  A byte outside the boundaries of an open
    sequence is an error, the state is reset and the byte is put back, so it
    is read again as a lead byte. *)
Definition handler (st : state) (b : Z) : state * list Z :=
  if bytes_needed st =? 0 then lead b
  else if negb (between (lower_boundary st) (upper_boundary st) b) then
    let '(st', out) := lead b in (st', 0xFFFD :: out)
  else
    let cp := Z.lor (code_point st ≪ 6) (Z.land b 0x3F) in
    if bytes_seen st + 1 =? bytes_needed st then (init, [cp])
    else (State cp (bytes_seen st + 1) (bytes_needed st) 0x80 0xBF, []).

(** Running the decoder to the end of the input; an open sequence at the end
    is an error. *)
Fixpoint decode_from (st : state) (input : bytes) : list Z :=
  match input with
  | [] => if bytes_needed st =? 0 then [] else [0xFFFD]
  | b :: rest =>
      let '(st', out) := handler st b in out ++ decode_from st' rest
  end.

Definition decode (input : bytes) : list Z := decode_from init input.

End Utf8.

(** ** TextEncoder and TextDecoder *)

Module Text.

(** [new TextEncoder().encode(s)]. *)
Definition TextEncoder_encode (s : jsstring) : bytes :=
  Utf8.encode (Js.to_scalars s).

(** Removal of a leading U+FEFF from the decoder's output: the decoder is
    created with [ignoreBOM] false. *)
Definition strip_bom (cps : list Z) : list Z :=
  match cps with
  | c :: rest => if c =? 0xFEFF then rest else cps
  | [] => []
  end.

(** [new TextDecoder().decode(input)]: UTF-8, not fatal, BOM not ignored. *)
Definition TextDecoder_decode (input : bytes) : jsstring :=
  Js.of_scalars (strip_bom (Utf8.decode input)).

End Text.

(** ** Errors and results *)

Inductive error_name :=
  | Error | TypeError | RangeError
  | InvalidCharacterError | NotFoundError | TypeMismatchError
  | InvalidModificationError | SecurityError.

(** A thrown value: every value thrown in this program is an [Error] object
    (a DOMException inherits from it), with its [message]. *)
Record js_error := JsError { err_name : error_name; err_message : jsstring }.

Inductive result (A : Type) :=
  | Ok (a : A)
  | Throw (e : js_error).
Arguments Ok {A} a.
Arguments Throw {A} e.

(** ** Base64: [btoa] and [atob] *)

Module Base64.

Definition alphabet : jsstring :=
  Js.lit "ABCDEFGHIJKLMNOPQRSTUVWXYZabcdefghijklmnopqrstuvwxyz0123456789+/".

Definition pad : Z := 61.

Definition char_of (sextet : Z) : Z := nth (Z.to_nat sextet) alphabet 0.

Fixpoint index_from (i : Z) (c : Z) (l : jsstring) : option Z :=
  match l with
  | [] => None
  | x :: l' => if x =? c then Some i else index_from (i + 1) c l'
  end.

Definition sextet_of (c : Z) : option Z := index_from 0 c alphabet.

(** Base64 encoding of a byte sequence, with padding. *)
Fixpoint encode (input : bytes) : jsstring :=
  match input with
  | [] => []
  | [a] =>
      [char_of (a ≫ 2); char_of (Z.land a 3 ≪ 4); pad; pad]
  | [a; b] =>
      [char_of (a ≫ 2); char_of (Z.lor (Z.land a 3 ≪ 4) (b ≫ 4));
       char_of (Z.land b 15 ≪ 2); pad]
  | a :: b :: c :: rest =>
      char_of (a ≫ 2) :: char_of (Z.lor (Z.land a 3 ≪ 4) (b ≫ 4))
      :: char_of (Z.lor (Z.land b 15 ≪ 2) (c ≫ 6)) :: char_of (Z.land c 63)
      :: encode rest
  end.

(** [btoa(data)]: fails on a code unit above U+00FF. *)
Definition btoa (data : jsstring) : result jsstring :=
  if forallb (fun c => (0 <=? c) && (c <=? 0xFF)) data
  then Ok (encode data)
  else Throw (JsError InvalidCharacterError
                (Js.lit "The string to be encoded contains characters outside of the Latin1 range.")).

Definition is_ascii_whitespace (c : Z) : bool :=
  (c =? 9) || (c =? 10) || (c =? 12) || (c =? 13) || (c =? 32).

(** Removal of one or two trailing [=] when the length is a multiple of 4. *)
Definition strip_padding (data : jsstring) : jsstring :=
  if (Z.of_nat (length data) `mod` 4 =? 0) then
    match rev data with
    | a :: b :: rest =>
        if a =? pad then (if b =? pad then rev rest else rev (b :: rest))
        else data
    | _ => data
    end
  else data.

Fixpoint sextets (data : jsstring) : option (list Z) :=
  match data with
  | [] => Some []
  | c :: rest =>
      match sextet_of c, sextets rest with
      | Some v, Some vs => Some (v :: vs)
      | _, _ => None
      end
  end.

(** The bytes of a run of sextets: three bytes for every four sextets; a
    rest of two sextets gives one byte, of three sextets two bytes. *)
Fixpoint bytes_of_sextets (l : list Z) : bytes :=
  match l with
  | a :: b :: c :: d :: rest =>
      let n := Z.lor (Z.lor (Z.lor (a ≪ 18) (b ≪ 12)) (c ≪ 6)) d in
      Z.land (n ≫ 16) 255 :: Z.land (n ≫ 8) 255 :: Z.land n 255
      :: bytes_of_sextets rest
  | [a; b; c] =>
      let n := Z.lor (Z.lor (a ≪ 12) (b ≪ 6)) c ≫ 2 in
      [Z.land (n ≫ 8) 255; Z.land n 255]
  | [a; b] => [Z.land (Z.lor (a ≪ 6) b ≫ 4) 255]
  | _ => []
  end.

(** The forgiving-base64 decode of the Infra standard. *)
Definition decode (data : jsstring) : option bytes :=
  let data := List.filter (fun c => negb (is_ascii_whitespace c)) data in
  let data := strip_padding data in
  if (Z.of_nat (length data) `mod` 4 =? 1) then None
  else option_map bytes_of_sextets (sextets data).

(** [atob(data)]: the decoded bytes as a string of code units below 256. *)
Definition atob (data : jsstring) : result jsstring :=
  match decode data with
  | Some bs => Ok bs
  | None => Throw (JsError InvalidCharacterError
                     (Js.lit "The string to be decoded is not correctly encoded."))
  end.

End Base64.

(** ** The object-style Buffer: a [Uint8Array] with its own [toString] *)

Module Buffer.

(** A Buffer is a [Uint8Array] over a whole [ArrayBuffer] of its own;
    [toString] is the same closure on every construction path. *)
Record t := Make { contents : bytes }.

(** What [Buffer.from] accepts. *)
Inductive source :=
  | FromString (s : jsstring)
  | FromArrayBuffer (b : bytes)
  | FromUint8Array (b : bytes)
  | FromArrayLike (l : list Z).

(** Storing a number in a [Uint8Array]: modulo 256. *)
Definition to_uint8 (n : Z) : Z := n `mod` 256.

Definition from (data : source) (encoding : option jsstring) : result t :=
  match data with
  | FromString s =>
      if decide (encoding = Some (Js.lit "base64")) then
        match Base64.atob s with
        | Ok binaryString => Ok (Make (map to_uint8 binaryString))
        | Throw e => Throw e
        end
      else Ok (Make (Text.TextEncoder_encode s))
  | FromArrayBuffer b => Ok (Make b)
  | FromUint8Array b => Ok (Make b)
  | FromArrayLike l => Ok (Make (map to_uint8 l))
  end.

Definition alloc (size : nat) : t := Make (repeat 0 size).

(** The error of a call with more arguments than the engine takes; the
    message is the one of V8. *)
Definition too_many_arguments : js_error :=
  JsError RangeError (Js.lit "Maximum call stack size exceeded").

(** [f(...args)]: every element of [args] becomes one argument of the call.
    The language sets no bound on their number; every engine has one, and
    beyond it the call throws a RangeError.  [max_arguments] is the bound of
    the engine the code runs on. *)
Definition spread {A} (max_arguments : Z) (args : list A) : result (list A) :=
  if Z.of_nat (length args) <=? max_arguments then Ok args
  else Throw too_many_arguments.

(** [toString(encoding = 'utf8')]; under ['base64'] it is
    [btoa(String.fromCharCode(...new Uint8Array(this.buffer)))]. *)
Definition toString (max_arguments : Z) (buffer : t) (encoding : option jsstring)
    : result jsstring :=
  let encoding := match encoding with Some e => e | None => Js.lit "utf8" end in
  if decide (encoding = Js.lit "base64") then
    match spread max_arguments (contents buffer) with
    | Ok codes => Base64.btoa codes
    | Throw e => Throw e
    end
  else Ok (Text.TextDecoder_decode (contents buffer)).

End Buffer.

(** ** The [TextDecoder] constructor: labels of the Encoding standard *)

Module Label.

Inductive encoding :=
  | UTF_8
  | Legacy (name : string).

Local Open Scope string_scope.

(** The labels of each encoding.  The [replacement] encoding has labels too,
    but the constructor refuses it. *)
Definition table : list (encoding * list string) :=
  [ (UTF_8, ["unicode-1-1-utf-8"; "unicode11utf8"; "unicode20utf8"; "utf-8"; "utf8";
             "x-unicode20utf8"]);
    (Legacy "IBM866", ["866"; "cp866"; "csibm866"; "ibm866"]);
    (Legacy "ISO-8859-2", ["csisolatin2"; "iso-8859-2"; "iso-ir-101"; "iso8859-2";
             "iso88592"; "iso_8859-2"; "iso_8859-2:1987"; "l2"; "latin2"]);
    (Legacy "ISO-8859-3", ["csisolatin3"; "iso-8859-3"; "iso-ir-109"; "iso8859-3";
             "iso88593"; "iso_8859-3"; "iso_8859-3:1988"; "l3"; "latin3"]);
    (Legacy "ISO-8859-4", ["csisolatin4"; "iso-8859-4"; "iso-ir-110"; "iso8859-4";
             "iso88594"; "iso_8859-4"; "iso_8859-4:1988"; "l4"; "latin4"]);
    (Legacy "ISO-8859-5", ["csisolatincyrillic"; "cyrillic"; "iso-8859-5"; "iso-ir-144";
             "iso8859-5"; "iso88595"; "iso_8859-5"; "iso_8859-5:1988"]);
    (Legacy "ISO-8859-6", ["arabic"; "asmo-708"; "csiso88596e"; "csiso88596i";
             "csisolatinarabic"; "ecma-114"; "iso-8859-6"; "iso-8859-6-e";
             "iso-8859-6-i"; "iso-ir-127"; "iso8859-6"; "iso88596"; "iso_8859-6";
             "iso_8859-6:1987"]);
    (Legacy "ISO-8859-7", ["csisolatingreek"; "ecma-118"; "elot_928"; "greek"; "greek8";
             "iso-8859-7"; "iso-ir-126"; "iso8859-7"; "iso88597"; "iso_8859-7";
             "iso_8859-7:1987"; "sun_eu_greek"]);
    (Legacy "ISO-8859-8", ["csiso88598e"; "csisolatinhebrew"; "hebrew"; "iso-8859-8";
             "iso-8859-8-e"; "iso-ir-138"; "iso8859-8"; "iso88598"; "iso_8859-8";
             "iso_8859-8:1988"; "visual"]);
    (Legacy "ISO-8859-8-I", ["csiso88598i"; "iso-8859-8-i"; "logical"]);
    (Legacy "ISO-8859-10", ["csisolatin6"; "iso-8859-10"; "iso-ir-157"; "iso8859-10";
             "iso885910"; "l6"; "latin6"]);
    (Legacy "ISO-8859-13", ["iso-8859-13"; "iso8859-13"; "iso885913"]);
    (Legacy "ISO-8859-14", ["iso-8859-14"; "iso8859-14"; "iso885914"]);
    (Legacy "ISO-8859-15", ["csisolatin9"; "iso-8859-15"; "iso8859-15"; "iso885915";
             "iso_8859-15"; "l9"]);
    (Legacy "ISO-8859-16", ["iso-8859-16"]);
    (Legacy "KOI8-R", ["cskoi8r"; "koi"; "koi8"; "koi8-r"; "koi8_r"]);
    (Legacy "KOI8-U", ["koi8-ru"; "koi8-u"]);
    (Legacy "macintosh", ["csmacintosh"; "mac"; "macintosh"; "x-mac-roman"]);
    (Legacy "windows-874", ["dos-874"; "iso-8859-11"; "iso8859-11"; "iso885911";
             "tis-620"; "windows-874"]);
    (Legacy "windows-1250", ["cp1250"; "windows-1250"; "x-cp1250"]);
    (Legacy "windows-1251", ["cp1251"; "windows-1251"; "x-cp1251"]);
    (Legacy "windows-1252", ["ansi_x3.4-1968"; "ascii"; "cp1252"; "cp819"; "csisolatin1";
             "ibm819"; "iso-8859-1"; "iso-ir-100"; "iso8859-1"; "iso88591";
             "iso_8859-1"; "iso_8859-1:1987"; "l1"; "latin1"; "us-ascii";
             "windows-1252"; "x-cp1252"]);
    (Legacy "windows-1253", ["cp1253"; "windows-1253"; "x-cp1253"]);
    (Legacy "windows-1254", ["cp1254"; "csisolatin5"; "iso-8859-9"; "iso-ir-148";
             "iso8859-9"; "iso88599"; "iso_8859-9"; "iso_8859-9:1989"; "l5"; "latin5";
             "windows-1254"; "x-cp1254"]);
    (Legacy "windows-1255", ["cp1255"; "windows-1255"; "x-cp1255"]);
    (Legacy "windows-1256", ["cp1256"; "windows-1256"; "x-cp1256"]);
    (Legacy "windows-1257", ["cp1257"; "windows-1257"; "x-cp1257"]);
    (Legacy "windows-1258", ["cp1258"; "windows-1258"; "x-cp1258"]);
    (Legacy "x-mac-cyrillic", ["x-mac-cyrillic"; "x-mac-ukrainian"]);
    (Legacy "GBK", ["chinese"; "csgb2312"; "csiso58gb231280"; "gb2312"; "gb_2312";
             "gb_2312-80"; "gbk"; "iso-ir-58"; "x-gbk"]);
    (Legacy "gb18030", ["gb18030"]);
    (Legacy "Big5", ["big5"; "big5-hkscs"; "cn-big5"; "csbig5"; "x-x-big5"]);
    (Legacy "EUC-JP", ["cseucpkdfmtjapanese"; "euc-jp"; "x-euc-jp"]);
    (Legacy "ISO-2022-JP", ["csiso2022jp"; "iso-2022-jp"]);
    (Legacy "Shift_JIS", ["csshiftjis"; "ms932"; "ms_kanji"; "shift-jis"; "shift_jis";
             "sjis"; "windows-31j"; "x-sjis"]);
    (Legacy "EUC-KR", ["cseuckr"; "csksc56011987"; "euc-kr"; "iso-ir-149"; "korean";
             "ks_c_5601-1987"; "ks_c_5601-1989"; "ksc5601"; "ksc_5601"; "windows-949"]);
    (Legacy "replacement", ["csiso2022kr"; "hz-gb-2312"; "iso-2022-cn"; "iso-2022-cn-ext";
             "iso-2022-kr"; "replacement"]);
    (Legacy "UTF-16BE", ["unicodefffe"; "utf-16be"]);
    (Legacy "UTF-16LE", ["csunicode"; "iso-10646-ucs-2"; "ucs-2"; "unicode"; "unicodefeff";
             "utf-16"; "utf-16le"]);
    (Legacy "x-user-defined", ["x-user-defined"]) ].

Local Close Scope string_scope.

Definition ascii_lowercase (c : Z) : Z :=
  if (0x41 <=? c) && (c <=? 0x5A) then c + 0x20 else c.

Fixpoint strip_leading (s : jsstring) : jsstring :=
  match s with
  | c :: rest => if Base64.is_ascii_whitespace c then strip_leading rest else s
  | [] => []
  end.

Definition strip (s : jsstring) : jsstring :=
  rev (strip_leading (rev (strip_leading s))).

Definition has_label (label : jsstring) (row : encoding * list string) : bool :=
  existsb (fun l => bool_decide (Js.lit l = label)) (snd row).

(** Getting an encoding from a label: surrounding ASCII whitespace is
    removed and the match is ASCII case-insensitive. *)
Definition get_an_encoding (label : jsstring) : option encoding :=
  let label := map ascii_lowercase (strip label) in
  option_map fst (List.find (has_label label) table).

(** [new TextDecoder(label)]: a RangeError when the label names no encoding
    or names [replacement]. *)
Definition TextDecoder_new (label : jsstring) : result encoding :=
  match get_an_encoding label with
  | Some (Legacy "replacement") | None =>
      Throw (JsError RangeError
         (Js.lit "Failed to construct 'TextDecoder': The encoding label provided ('"
          ++ label ++ Js.lit "') is invalid."))
  | Some enc => Ok enc
  end.

End Label.

(** ** The class-style Buffer: [class Buffer extends Uint8Array] *)

Module BufferClass.

Section WithLegacyDecoders.

(** The decoders of the legacy encodings are not described here. *)
Variable legacy_decode : string -> bytes -> jsstring.

Record t := Make { contents : bytes }.

Inductive source :=
  | FromString (s : jsstring)
  | FromArrayBuffer (b : bytes)
  | FromArrayLike (l : list Z).

(** [Buffer.from(data, encoding)]: the encoding is not looked at. *)
Definition from (data : source) (encoding : option jsstring) : t :=
  match data with
  | FromString s => Make (Text.TextEncoder_encode s)
  | FromArrayBuffer b => Make b
  | FromArrayLike l => Make (map Buffer.to_uint8 l)
  end.

Definition alloc (size : nat) : t := Make (repeat 0 size).

(** [toString(encoding)]: [new TextDecoder(encoding || 'utf-8').decode(this)]. *)
Definition toString (buffer : t) (encoding : option jsstring) : result jsstring :=
  let label :=
    match encoding with
    | Some e => if Js.truthy e then e else Js.lit "utf-8"
    | None => Js.lit "utf-8"
    end in
  match Label.TextDecoder_new label with
  | Ok Label.UTF_8 => Ok (Text.TextDecoder_decode (contents buffer))
  | Ok (Label.Legacy name) => Ok (legacy_decode name (contents buffer))
  | Throw e => Throw e
  end.

(** [Buffer.concat(list)]: a buffer of the total length, each input copied
    at its offset. *)
Definition concat (list : list t) : t :=
  Make (List.concat (map contents list)).

End WithLegacyDecoders.

End BufferClass.

(** ** The world: the browser environment, the origin's private file system,
       and the module state of [fs-utils.ts] *)

Abbreviation name := (list Z) (only parsing).

(** A handle is the chain of names from the root; the root is [[]]. *)
Abbreviation handle := (list (list Z)) (only parsing).

Inductive entry :=
  | File (data : bytes)
  | Directory.

Record world := World {
  has_navigator : bool;                 (* 'navigator' in globalThis *)
  has_storage : bool;                   (* 'storage' in navigator *)
  has_getDirectory : bool;              (* 'getDirectory' in navigator.storage *)
  getDirectory_error : option js_error; (* navigator.storage.getDirectory() rejects *)
  max_arguments : Z;                    (* the most arguments the engine lets a call take *)
  entries : gmap (list (list Z)) entry; (* what lies below the root *)
  rootDirectory : option handle         (* let rootDirectory = null *)
}.

Definition set_entries (f : gmap (list (list Z)) entry -> gmap (list (list Z)) entry)
    (w : world) : world :=
  World (has_navigator w) (has_storage w) (has_getDirectory w)
        (getDirectory_error w) (max_arguments w) (f (entries w)) (rootDirectory w).

Definition set_rootDirectory (r : option handle) (w : world) : world :=
  World (has_navigator w) (has_storage w) (has_getDirectory w)
        (getDirectory_error w) (max_arguments w) (entries w) r.

(** ** Asynchronous computations: state and exceptions *)

Definition M (A : Type) : Type := world -> result A * world.

Definition ret {A} (a : A) : M A := fun w => (Ok a, w).

Definition throw {A} (e : js_error) : M A := fun w => (Throw e, w).

Definition bind {A B} (m : M A) (k : A -> M B) : M B :=
  fun w =>
    match m w with
    | (Ok a, w') => k a w'
    | (Throw e, w') => (Throw e, w')
    end.

(** [try { body } catch (error) { handler }]. *)
Definition try_catch {A} (body : M A) (handler : js_error -> M A) : M A :=
  fun w =>
    match body w with
    | (Ok a, w') => (Ok a, w')
    | (Throw e, w') => handler e w'
    end.

Definition lift {A} (r : result A) : M A := fun w => (r, w).

Definition read {A} (f : world -> A) : M A := fun w => (Ok (f w), w).

Definition update (f : world -> world) : M unit := fun w => (Ok tt, f w).

Declare Scope js_scope.
Delimit Scope js_scope with js.
Notation "x <- m ;; k" := (bind m (fun x => k))
  (at level 100, m at next level, right associativity) : js_scope.
Notation "m ;; k" := (bind m (fun _ => k))
  (at level 100, right associativity) : js_scope.

Local Open Scope js_scope.

(** ** The backend: handles of the File System standard *)

Module Opfs.

(** A valid file name: not empty, not [.] or [..], without a slash. *)
Definition valid_file_name (n : name) : bool :=
  Js.truthy n
  && negb (bool_decide (n = Js.lit "."))
  && negb (bool_decide (n = Js.lit ".."))
  && forallb (fun c => negb (c =? Js.slash)) n.

(** The messages are those of one implementation; nothing depends on them. *)
Definition not_allowed : js_error :=
  JsError TypeError (Js.lit "Name is not allowed.").
Definition not_found : js_error :=
  JsError NotFoundError
    (Js.lit "A requested file or directory could not be found at the time an operation was processed.").
Definition type_mismatch : js_error :=
  JsError TypeMismatchError
    (Js.lit "The path supplied exists, but was not an entry of requested type.").
Definition invalid_modification : js_error :=
  JsError InvalidModificationError
    (Js.lit "The object can not be modified in this way.").

(** The directory a handle stands for is still there. *)
Definition is_directory (w : world) (h : handle) : bool :=
  match h with
  | [] => true
  | _ => match entries w !! h with Some Directory => true | _ => false end
  end.

(** [navigator.storage.getDirectory()]. *)
Definition getDirectory : M handle :=
  fun w =>
    match getDirectory_error w with
    | Some e => (Throw e, w)
    | None => (Ok [], w)
    end.

(** [directory.getDirectoryHandle(name, { create })]. *)
Definition getDirectoryHandle (directory : handle) (n : name) (create : bool) : M handle :=
  fun w =>
    if negb (valid_file_name n) then (Throw not_allowed, w)
    else if negb (is_directory w directory) then (Throw not_found, w)
    else
      match entries w !! (directory ++ [n]) with
      | Some Directory => (Ok (directory ++ [n]), w)
      | Some (File _) => (Throw type_mismatch, w)
      | None =>
          if create
          then (Ok (directory ++ [n]), set_entries (insert (directory ++ [n]) Directory) w)
          else (Throw not_found, w)
      end.

(** [directory.getFileHandle(name, { create })]. *)
Definition getFileHandle (directory : handle) (n : name) (create : bool) : M handle :=
  fun w =>
    if negb (valid_file_name n) then (Throw not_allowed, w)
    else if negb (is_directory w directory) then (Throw not_found, w)
    else
      match entries w !! (directory ++ [n]) with
      | Some (File _) => (Ok (directory ++ [n]), w)
      | Some Directory => (Throw type_mismatch, w)
      | None =>
          if create
          then (Ok (directory ++ [n]), set_entries (insert (directory ++ [n]) (File [])) w)
          else (Throw not_found, w)
      end.

(** The name under which [k] is a child of [h], if it is one. *)
Fixpoint child_of (h k : handle) : option name :=
  match h, k with
  | [], [n] => Some n
  | x :: h', y :: k' => if decide (x = y) then child_of h' k' else None
  | _, _ => None
  end.

(** The names of the children of a directory, in the backend's order. *)
Definition children (w : world) (h : handle) : list name :=
  omap (fun kv => child_of h (fst kv)) (map_to_list (entries w)).

(** [for await (const entry of directory.values()) entries.push(entry.name)]. *)
Definition values (directory : handle) : M (list name) :=
  fun w =>
    if negb (is_directory w directory) then (Throw not_found, w)
    else (Ok (children w directory), w).

(** [directory.removeEntry(name)], not recursive. *)
Definition removeEntry (directory : handle) (n : name) : M unit :=
  fun w =>
    if negb (valid_file_name n) then (Throw not_allowed, w)
    else if negb (is_directory w directory) then (Throw not_found, w)
    else
      match entries w !! (directory ++ [n]) with
      | None => (Throw not_found, w)
      | Some (File _) => (Ok tt, set_entries (delete (directory ++ [n])) w)
      | Some Directory =>
          match children w (directory ++ [n]) with
          | [] => (Ok tt, set_entries (delete (directory ++ [n])) w)
          | _ => (Throw invalid_modification, w)
          end
      end.

(** [fileHandle.getFile()]: the contents at this moment. *)
Definition getFile (fileHandle : handle) : M bytes :=
  fun w =>
    match entries w !! fileHandle with
    | Some (File data) => (Ok data, w)
    | _ => (Throw not_found, w)
    end.

(** [file.text()]: the contents decoded as UTF-8. *)
Definition text (file : bytes) : M jsstring :=
  ret (Text.TextDecoder_decode file).

(** [file.arrayBuffer()]. *)
Definition arrayBuffer (file : bytes) : M bytes := ret file.

(** A writable stream: the file it will replace and what was written so
    far.  The file changes when the stream is closed. *)
Record writable := Writable { target : handle; written : bytes }.

(** [fileHandle.createWritable()]: the stream starts empty. *)
Definition createWritable (fileHandle : handle) : M writable :=
  fun w =>
    match entries w !! fileHandle with
    | Some (File _) => (Ok (Writable fileHandle []), w)
    | _ => (Throw not_found, w)
    end.

(** What can be written: a string (encoded as UTF-8) or bytes. *)
Inductive chunk :=
  | Chars (s : jsstring)
  | Bytes (b : bytes).

(** [writable.write(data)]. *)
Definition write (stream : writable) (data : chunk) : M writable :=
  ret (Writable (target stream)
         (written stream ++
            match data with
            | Chars s => Text.TextEncoder_encode s
            | Bytes b => b
            end)).

(** [writable.close()]. *)
Definition close (stream : writable) : M unit :=
  update (set_entries (insert (target stream) (File (written stream)))).

End Opfs.

(** ** [src/utils/fs-utils.ts] *)

Module FsUtils.

Definition isOPFSSupported (w : world) : bool :=
  has_navigator w && has_storage w && has_getDirectory w.

Definition initialize : M unit :=
  supported <- read isOPFSSupported ;;
  if negb supported
  then throw (JsError Error (Js.lit "OPFS is not supported in this browser"))
  else
    root <- read rootDirectory ;;
    match root with
    | None =>
        h <- Opfs.getDirectory ;;
        update (set_rootDirectory (Some h))
    | Some _ => ret tt
    end.

(** [if (!rootDirectory) await initialize(); if (!rootDirectory) throw ...]:
    the root, once there. *)
Definition ensure_root : M handle :=
  root <- read rootDirectory ;;
  (match root with None => initialize | Some _ => ret tt end) ;;
  root <- read rootDirectory ;;
  match root with
  | None => throw (JsError Error (Js.lit "Failed to initialize OPFS root directory"))
  | Some r => ret r
  end.

(** [for (const part of parts) currentDirectory =
      await currentDirectory.getDirectoryHandle(part, { create })]. *)
Fixpoint walk (create : bool) (currentDirectory : handle) (parts : list name) : M handle :=
  match parts with
  | [] => ret currentDirectory
  | part :: rest =>
      d <- Opfs.getDirectoryHandle currentDirectory part create ;;
      walk create d rest
  end.

Definition getDirectoryByPath (path : jsstring) (create : bool) : M handle :=
  root <- ensure_root ;;
  let parts := Js.non_empty_parts (Js.split Js.slash path) in
  walk create root parts.

Definition getDirectoryAndFileName (path : jsstring) : M (handle * name) :=
  root <- ensure_root ;;
  let parts := Js.split Js.slash path in
  let '(popped, parts) := Js.pop parts in
  let fileName := Js.or_empty popped in
  let directoryPath := Js.join Js.slash parts in
  directory <- (if Js.truthy directoryPath
                then getDirectoryByPath directoryPath true
                else ret root) ;;
  ret (directory, fileName).

End FsUtils.

(** ** [src/fs.ts] *)

Module Fs.

(** The values that are passed to callbacks and that promises settle with. *)
Inductive value :=
  | VUndefined
  | VNull
  | VBoolean (b : bool)
  | VString (s : jsstring)
  | VBuffer (b : Buffer.t)
  | VStrings (l : list jsstring)
  | VError (e : js_error).

(** A callback is known by its identity only; it is assumed not to throw. *)
Definition fn := nat.

(** One invocation of a callback, with the arguments it was given. *)
Record call := Call { callee : fn; arguments : list value }.

(** The [i]-th parameter as the callback sees it: [undefined] when the
    invocation passed fewer arguments. *)
Definition arg (i : nat) (c : call) : value := nth i (arguments c) VUndefined.

Inductive promise :=
  | Resolved (v : value)
  | Rejected (e : js_error).

(** What one call of a public function does besides changing the world: the
    value it returns ([None] for [undefined]) and the callbacks invoked once
    its asynchronous task has run. *)
Record outcome := Outcome { returned : option promise; calls : list call }.

Definition settle {A} (to_value : A -> value) (r : result A) : promise :=
  match r with
  | Ok a => Resolved (to_value a)
  | Throw e => Rejected e
  end.

(** [promise.then(on_ok).catch(on_error)]. *)
Definition then_catch {A} (r : result A)
    (on_ok : A -> list call) (on_error : js_error -> list call) : list call :=
  match r with
  | Ok a => on_ok a
  | Throw e => on_error e
  end.

(** [new Error(`${prefix}${error instanceof Error ? error.message : String(error)}`)]. *)
Definition wrap (prefix : string) (error : js_error) : js_error :=
  JsError Error (Js.lit prefix ++ err_message error).

Definition utf8 : jsstring := Js.lit "utf8".
Definition base64 : jsstring := Js.lit "base64".

(** *** readFile *)

Record ReadFileOptions := {
  read_encoding : option jsstring;
  read_flag : option jsstring
}.

(** The second parameter of [readFile]. *)
Inductive read_arg :=
  | ReadFunction (f : fn)
  | ReadString (s : jsstring)
  | ReadObject (o : ReadFileOptions)
  | ReadAbsent.

Definition normalize_read (options : read_arg) (callback : option fn)
    : jsstring * option fn :=
  match options with
  | ReadFunction f => (utf8, Some f)
  | ReadString s => (s, callback)
  | ReadObject o =>
      (match read_encoding o with
       | Some e => if Js.truthy e then e else utf8
       | None => utf8
       end, callback)
  | ReadAbsent => (utf8, callback)
  end.

Definition readFileAsync (path encoding : jsstring) : M value :=
  try_catch
    (resolved <- FsUtils.getDirectoryAndFileName path ;;
     let '(directory, fileName) := resolved in
     fileHandle <- Opfs.getFileHandle directory fileName false ;;
     file <- Opfs.getFile fileHandle ;;
     if bool_decide (encoding = utf8) || bool_decide (encoding = Js.lit "utf-8") then
       t <- Opfs.text file ;; ret (VString t)
     else if bool_decide (encoding = base64) then
       buffer <- Opfs.arrayBuffer file ;;
       b <- lift (Buffer.from (Buffer.FromArrayBuffer buffer) None) ;;
       limit <- read max_arguments ;;
       t <- lift (Buffer.toString limit b (Some base64)) ;;
       ret (VString t)
     else
       buffer <- Opfs.arrayBuffer file ;;
       b <- lift (Buffer.from (Buffer.FromArrayBuffer buffer) None) ;;
       ret (VBuffer b))
    (fun error => throw (wrap "Error reading file: " error)).

Definition readFile (path : jsstring) (options : read_arg)
    (callback : option fn) : world -> outcome * world :=
  let '(encoding, cb) := normalize_read options callback in
  fun w =>
    let '(r, w') := readFileAsync path encoding w in
    match cb with
    | Some cb =>
        (Outcome None
           (then_catch r
              (fun data => [Call cb [VNull; data]])
              (fun err => [Call cb [VError err; VString []]])), w')
    | None => (Outcome (Some (settle id r)) [], w')
    end.

Definition readFileSync (path : jsstring) (options : read_arg) : result value :=
  Throw (JsError Error (Js.lit
    "readFileSync is not supported in browser environment. Use readFile() instead.")).

(** *** writeFile *)

Record WriteFileOptions := {
  write_encoding : option jsstring;
  write_flag : option jsstring;
  write_mode : option Z
}.

Inductive write_arg :=
  | WriteFunction (f : fn)
  | WriteString (s : jsstring)
  | WriteObject (o : WriteFileOptions)
  | WriteAbsent.

(** The data of [writeFile]: a string, or a Buffer or Uint8Array. *)
Inductive write_data :=
  | DataString (s : jsstring)
  | DataBytes (b : bytes).

Definition normalize_write (options : write_arg) (callback : option fn)
    : jsstring * option fn :=
  match options with
  | WriteFunction f => (utf8, Some f)
  | WriteString s => (s, callback)
  | WriteObject o =>
      (match write_encoding o with
       | Some e => if Js.truthy e then e else utf8
       | None => utf8
       end, callback)
  | WriteAbsent => (utf8, callback)
  end.

Definition writeFileAsync (path : jsstring) (data : write_data) (encoding : jsstring)
    : M unit :=
  try_catch
    (resolved <- FsUtils.getDirectoryAndFileName path ;;
     let '(directory, fileName) := resolved in
     fileHandle <- Opfs.getFileHandle directory fileName true ;;
     writable <- Opfs.createWritable fileHandle ;;
     writable <-
       match data with
       | DataString s =>
           if bool_decide (encoding = base64) then
             buffer <- lift (Buffer.from (Buffer.FromString s) (Some base64)) ;;
             Opfs.write writable (Opfs.Bytes (Buffer.contents buffer))
           else Opfs.write writable (Opfs.Chars s)
       | DataBytes b => Opfs.write writable (Opfs.Bytes b)
       end ;;
     Opfs.close writable)
    (fun error => throw (wrap "Error writing file: " error)).

Definition writeFile (path : jsstring) (data : write_data) (options : write_arg)
    (callback : option fn) : world -> outcome * world :=
  let '(encoding, cb) := normalize_write options callback in
  fun w =>
    let '(r, w') := writeFileAsync path data encoding w in
    match cb with
    | Some cb =>
        (Outcome None
           (then_catch r
              (fun _ => [Call cb [VNull]])
              (fun err => [Call cb [VError err]])), w')
    | None => (Outcome (Some (settle (fun _ => VUndefined) r)) [], w')
    end.

Definition writeFileSync (path : jsstring) (data : write_data) (options : write_arg)
    : result value :=
  Throw (JsError Error (Js.lit
    "writeFileSync is not supported in browser environment. Use writeFile() instead.")).

(** *** exists *)

Definition existsSync (path : jsstring) : result bool :=
  Throw (JsError Error (Js.lit
    "existsSync is not supported in browser environment. Use exists() instead.")).

Definition checkExists (path : jsstring) : M bool :=
  try_catch
    (resolved <- FsUtils.getDirectoryAndFileName path ;;
     let '(directory, fileName) := resolved in
     Opfs.getFileHandle directory fileName false ;;
     ret true)
    (fun error => ret false).

(** [exists(path, callback)]: [checkExists().then((exists) => callback(exists))]. *)
Definition exists_ (path : jsstring) (callback : option fn)
    : world -> outcome * world :=
  fun w =>
    let '(r, w') := checkExists path w in
    match callback with
    | Some callback =>
        (Outcome None
           (then_catch r (fun e => [Call callback [VBoolean e]]) (fun _ => [])), w')
    | None => (Outcome (Some (settle VBoolean r)) [], w')
    end.

(** *** unlink *)

Definition unlinkFile (path : jsstring) : M unit :=
  try_catch
    (resolved <- FsUtils.getDirectoryAndFileName path ;;
     let '(directory, fileName) := resolved in
     Opfs.removeEntry directory fileName)
    (fun error => throw (wrap "Error deleting file: " error)).

Definition unlink (path : jsstring) (callback : option fn)
    : world -> outcome * world :=
  fun w =>
    let '(r, w') := unlinkFile path w in
    match callback with
    | Some callback =>
        (Outcome None
           (then_catch r
              (fun _ => [Call callback [VNull]])
              (fun err => [Call callback [VError err]])), w')
    | None => (Outcome (Some (settle (fun _ => VUndefined) r)) [], w')
    end.

(** *** mkdir *)

Record MkdirOptions := {
  recursive : option bool;
  mkdir_mode : option Z
}.

Inductive mkdir_arg :=
  | MkdirFunction (f : fn)
  | MkdirObject (o : MkdirOptions)
  | MkdirAbsent.

(** [opts] after normalisation: only [recursive] matters to a reader, and
    no code reads it. *)
Definition normalize_mkdir (options : mkdir_arg) (callback : option fn)
    : bool * option fn :=
  match options with
  | MkdirFunction f => (false, Some f)
  | MkdirObject o =>
      (match recursive o with Some r => r | None => false end, callback)
  | MkdirAbsent => (false, callback)
  end.

Definition createDir (path : jsstring) : M unit :=
  try_catch
    (FsUtils.getDirectoryByPath path true ;; ret tt)
    (fun error => throw (wrap "Error creating directory: " error)).

Definition mkdir (path : jsstring) (options : mkdir_arg) (callback : option fn)
    : world -> outcome * world :=
  let '(opts_recursive, cb) := normalize_mkdir options callback in
  fun w =>
    let '(r, w') := createDir path w in
    match cb with
    | Some cb =>
        (Outcome None
           (then_catch r
              (fun _ => [Call cb [VNull]])
              (fun err => [Call cb [VError err]])), w')
    | None => (Outcome (Some (settle (fun _ => VUndefined) r)) [], w')
    end.

(** *** readdir *)

Record ReaddirOptions := {
  readdir_encoding : option jsstring;
  withFileTypes : option bool
}.

Inductive readdir_arg :=
  | ReaddirFunction (f : fn)
  | ReaddirObject (o : ReaddirOptions)
  | ReaddirAbsent.

Definition normalize_readdir (options : readdir_arg) (callback : option fn)
    : option fn :=
  match options with
  | ReaddirFunction f => Some f
  | _ => callback
  end.

Definition readDirectory (path : jsstring) : M (list jsstring) :=
  try_catch
    (directory <- FsUtils.getDirectoryByPath path false ;;
     Opfs.values directory)
    (fun error => throw (wrap "Error reading directory: " error)).

Definition readdir (path : jsstring) (options : readdir_arg)
    (callback : option fn) : world -> outcome * world :=
  let cb := normalize_readdir options callback in
  fun w =>
    let '(r, w') := readDirectory path w in
    match cb with
    | Some cb =>
        (Outcome None
           (then_catch r
              (fun files => [Call cb [VNull; VStrings files]])
              (fun err => [Call cb [VError err; VStrings []]])), w')
    | None => (Outcome (Some (settle VStrings r)) [], w')
    end.

(** *** constants *)

Local Open Scope string_scope.

(** [export const constants = { F_OK: 0, R_OK: 4, W_OK: 2, X_OK: 1 }]. *)
Definition constants : list (string * Z) :=
  [("F_OK", 0); ("R_OK", 4); ("W_OK", 2); ("X_OK", 1)].

Local Close Scope string_scope.

(** [constants.key]: [None] stands for [undefined]. *)
Definition constant (key : string) : option Z :=
  option_map snd (List.find (fun kv => String.eqb (fst kv) key) constants).

End Fs.

(** ** Several calls of [initialize] in flight

    JavaScript runs one task at a time and a task gives way only at an
    [await].  [initialize] has one: [await navigator.storage.getDirectory()].
    A call is therefore two atomic steps: from its start to the [await]
    (the support check, the test [!rootDirectory] and the request), and from
    the resolution of its request to its end (the assignment). *)

Module InitRace.

(** Where a call of [initialize] is.  A handle object is known by the number
    of the request that returned it: each [getDirectory()] returns a new
    object. *)
Inductive pc :=
  | Start
  | Waiting (h : nat)
  | Done
  | Failed.

Record state := State {
  supported : bool;          (* isOPFSSupported() *)
  root : option nat;         (* rootDirectory *)
  requests : nat;            (* calls of navigator.storage.getDirectory() so far *)
  assignments : list nat;    (* the handles assigned to rootDirectory, in order *)
  tasks : list pc
}.

Definition with_task (i : nat) (p : pc) (s : state) : state :=
  State (supported s) (root s) (requests s) (assignments s) (<[i := p]> (tasks s)).

(** One atomic step of call [i]; a finished or unknown call does nothing. *)
Definition step (i : nat) (s : state) : state :=
  match tasks s !! i with
  | Some Start =>
      if negb (supported s) then with_task i Failed s
      else
        match root s with
        | None =>
            State (supported s) None (S (requests s)) (assignments s)
                  (<[i := Waiting (requests s)]> (tasks s))
        | Some _ => with_task i Done s
        end
  | Some (Waiting h) =>
      State (supported s) (Some h) (requests s) (assignments s ++ [h])
            (<[i := Done]> (tasks s))
  | _ => s
  end.

(** A schedule names the call that takes each step. *)
Definition run (schedule : list nat) (s : state) : state :=
  fold_left (fun s i => step i s) schedule s.

(** [n] calls started while the root is null. *)
Definition initial (n : nat) : state := State true None 0 [] (repeat Start n).

Definition waiting (p : pc) : bool :=
  match p with Waiting _ => true | _ => false end.

End InitRace.

(** * Vocabulary of the properties *)

(** The non-empty segments of a path. *)
Definition segments (path : jsstring) : list name :=
  Js.non_empty_parts (Js.split Js.slash path).

(** The text after the last slash, as [getDirectoryAndFileName] takes it. *)
Definition leaf (path : jsstring) : name :=
  Js.or_empty (fst (Js.pop (Js.split Js.slash path))).

(** The text before the last slash. *)
Definition directoryPath (path : jsstring) : jsstring :=
  Js.join Js.slash (snd (Js.pop (Js.split Js.slash path))).

(** A directory is found by following the segments from the root. *)
Definition directory_at (w : world) (segs : list name) : Prop :=
  segs = [] \/ entries w !! segs = Some Directory.

(** No file stands where a directory of the path has to be. *)
Definition no_file_on (w : world) (segs : list name) : Prop :=
  forall pre data, pre `prefix_of` segs -> entries w !! pre <> Some (File data).

(** A world in which the backend answers. *)
Definition available (w : world) : Prop :=
  (FsUtils.isOPFSSupported w = true /\ getDirectory_error w = None /\ rootDirectory w = None)
  \/ rootDirectory w = Some [].

(** A fresh origin: the backend is there, nothing was stored, nothing was
    resolved yet; the engine takes 65536 arguments. *)
Definition fresh : world := World true true true None 65536 ∅ None.

(** A part without a slash. *)
Definition no_slash (p : jsstring) : Prop := Forall (fun c => c <> Js.slash) p.

(** The error of [initialize] where the backend is missing. *)
Definition not_supported : js_error :=
  JsError Error (Js.lit "OPFS is not supported in this browser").

(** The leaf lookup of [exists]: the path resolves and the parent has a
    file under the leaf name. *)
Definition leaf_lookup_succeeds (w : world) (path : jsstring) : Prop :=
  exists d n w1 fh w2,
    FsUtils.getDirectoryAndFileName path w = (Ok (d, n), w1)
    /\ Opfs.getFileHandle d n false w1 = (Ok fh, w2).

(** Every segment of the path is a name the backend accepts. *)
Definition valid_segments (path : jsstring) : Prop :=
  Forall (fun n => Opfs.valid_file_name n = true) (segments path).

(** What a successful call without a result gives: the promise resolves with
    [undefined], or the callback gets [null]. *)
Definition finished (callback : option Fs.fn) : Fs.outcome :=
  match callback with
  | Some cb => Fs.Outcome None [Fs.Call cb [Fs.VNull]]
  | None => Fs.Outcome (Some (Fs.Resolved Fs.VUndefined)) []
  end.

(** Counting the calls in a given position. *)
Definition starting (p : InitRace.pc) : bool :=
  match p with InitRace.Start => true | _ => false end.

Definition count (P : InitRace.pc -> bool) (l : list InitRace.pc) : nat :=
  length (List.filter P l).

Definition flag (b : bool) : nat := if b then 1%nat else 0%nat.

(** What holds after any schedule: each request was made by a call of its
    own that has left [Start], each assignment comes from a request that
    resolved, and the root is the last handle assigned. *)
Definition race_invariant (s : InitRace.state) : Prop :=
  InitRace.requests s
    = (length (InitRace.assignments s) + count InitRace.waiting (InitRace.tasks s))%nat
  /\ (InitRace.requests s + count starting (InitRace.tasks s) <= length (InitRace.tasks s))%nat
  /\ InitRace.root s = last (InitRace.assignments s).

(** The Node convention for one completion callback: called once, with
    [(null, result)] when the task succeeded and with [(error, fallback)]
    when it failed. *)
Definition node_convention (cb : Fs.fn) (fallback : Fs.value)
    (ended : Fs.promise) (calls : list Fs.call) : Prop :=
  exists c, calls = [c] /\ Fs.callee c = cb /\
    match ended with
    | Fs.Resolved v => Fs.arg 0 c = Fs.VNull /\ Fs.arg 1 c = v
    | Fs.Rejected e => Fs.arg 0 c = Fs.VError e /\ Fs.arg 1 c = fallback
    end.

(** A call made with a completion callback: it returns [undefined], runs the
    task, and reports its end to the callback by the Node convention. *)
Definition reports {A} (task : M A) (to_value : A -> Fs.value) (fallback : Fs.value)
    (cb : Fs.fn) (w : world) (result : Fs.outcome * world) : Prop :=
  Fs.returned (fst result) = None
  /\ snd result = snd (task w)
  /\ node_convention cb fallback (Fs.settle to_value (fst (task w))) (Fs.calls (fst result)).

(** Writing a string as UTF-8 into a Buffer and reading it back:
    [Buffer.from(s, 'utf8').toString('utf8')], on an engine that takes
    [max_arguments] arguments. *)
Definition round_trip (max_arguments : Z) (s : jsstring) : result jsstring :=
  match Buffer.from (Buffer.FromString s) (Some (Js.lit "utf8")) with
  | Ok b => Buffer.toString max_arguments b (Some (Js.lit "utf8"))
  | Throw e => Throw e
  end.

(** The bytes [writeFile] sends to the stream: a string is decoded from
    Base64 when the encoding says so and is otherwise written as UTF-8;
    bytes are written as they are. *)
Definition payload (data : Fs.write_data) (encoding : jsstring) : result bytes :=
  match data with
  | Fs.DataString s =>
      if bool_decide (encoding = Fs.base64) then
        match Buffer.from (Buffer.FromString s) (Some Fs.base64) with
        | Ok b => Ok (Buffer.contents b)
        | Throw e => Throw e
        end
      else Ok (Text.TextEncoder_encode s)
  | Fs.DataBytes b => Ok b
  end.

(** An origin where [/a] is a directory. *)
Definition with_directory : world :=
  World true true true None 65536 {[ [Js.lit "a"] := Directory ]} None.

(** Some text outside ASCII: "H", U+65E5 and U+1F680 as a surrogate pair. *)
Definition sample_text : jsstring := [0x48; 0x65E5; 0xD83D; 0xDE80].

(** Two calls: the second started after the first one finished. *)
Definition resolved_once : InitRace.state :=
  InitRace.State true (Some 0%nat) 1 [0%nat] [InitRace.Done; InitRace.Start].

(** * Vocabulary of the further properties *)

(** The directory at the end of [segs] is reachable without creating
    anything: the root is known, the segments are valid names and each leads
    to a directory. *)
Definition reachable (w : world) (segs : list name) : Prop :=
  rootDirectory w = Some []
  /\ Forall (fun n => Opfs.valid_file_name n = true) segs
  /\ (forall pre, pre <> [] -> pre `prefix_of` segs -> entries w !! pre = Some Directory).

(** The parent of the path is resolved already. *)
Definition parent_resolved (w : world) (path : jsstring) : Prop :=
  reachable w (segments (directoryPath path)).

(** A file can be written at the path: the backend is available, the
    segments are valid names and the path has a leaf, no file stands where a
    directory has to be and no directory where the file has to be. *)
Definition can_write (w : world) (path : jsstring) : Prop :=
  available w /\ valid_segments path /\ Js.truthy (leaf path) = true
  /\ no_file_on w (segments (directoryPath path))
  /\ entries w !! segments path <> Some Directory.

(** The world after a call. *)
Definition after (call : world -> Fs.outcome * world) (w : world) : world :=
  snd (call w).

(** What a call without callback gives when its task succeeds. *)
Definition resolves (v : Fs.value) : Fs.outcome :=
  Fs.Outcome (Some (Fs.Resolved v)) [].

(** What a call without callback gives when its task fails. *)
Definition rejects (e : js_error) : Fs.outcome :=
  Fs.Outcome (Some (Fs.Rejected e)) [].

(** A byte. *)
Definition is_byte (b : Z) : Prop := 0 <= b < 256.

(** The sextets [Base64.encode] turns bytes into, before they become
    characters. *)
Fixpoint sextets_of_bytes (input : bytes) : list Z :=
  match input with
  | [] => []
  | [a] => [a ≫ 2; Z.land a 3 ≪ 4]
  | [a; b] => [a ≫ 2; Z.lor (Z.land a 3 ≪ 4) (b ≫ 4); Z.land b 15 ≪ 2]
  | a :: b :: c :: rest =>
      a ≫ 2 :: Z.lor (Z.land a 3 ≪ 4) (b ≫ 4)
      :: Z.lor (Z.land b 15 ≪ 2) (c ≫ 6) :: Z.land c 63
      :: sextets_of_bytes rest
  end.

(** The check behind the facts about the 64 characters of the alphabet:
    none is [=] or white space, and each is found at its own index. *)
Definition alphabet_check (v : Z) : bool :=
  negb (Base64.char_of v =? Base64.pad)
  && negb (Base64.is_ascii_whitespace (Base64.char_of v))
  && match Base64.sextet_of (Base64.char_of v) with
     | Some u => u =? v
     | None => false
     end.

(** ** [Buffer.concat] of the class-style Buffer, statement by statement *)

Module TypedArray.

(** [target.set(source, offset)]: the source is copied over the target from
    [offset] on; a RangeError when it does not fit. *)
Definition set (target source : bytes) (offset : nat) : result bytes :=
  if (offset + length source <=? length target)%nat
  then Ok (take offset target ++ source ++ drop (offset + length source) target)
  else Throw (JsError RangeError (Js.lit "offset is out of bounds")).

End TypedArray.

Module BufferConcat.

(** [list.reduce((acc, buf) => acc + buf.length, 0)]. *)
Definition totalLength (list : list BufferClass.t) : nat :=
  fold_left (fun acc buf => (acc + length (BufferClass.contents buf))%nat) list 0%nat.

(** [for (const buf of list) { result.set(buf, offset); offset += buf.length }]. *)
Fixpoint copy (target : bytes) (offset : nat) (list : list BufferClass.t) : result bytes :=
  match list with
  | [] => Ok target
  | buf :: rest =>
      match TypedArray.set target (BufferClass.contents buf) offset with
      | Ok target' => copy target' (offset + length (BufferClass.contents buf)) rest
      | Throw e => Throw e
      end
  end.

Definition concat (list : list BufferClass.t) : result BufferClass.t :=
  match copy (BufferClass.contents (BufferClass.alloc (totalLength list))) 0 list with
  | Ok target => Ok (BufferClass.Make target)
  | Throw e => Throw e
  end.

End BufferConcat.

(** The root cannot be resolved, and [e] is the error of [initialize]. *)
Definition initialization_fails (w : world) (e : js_error) : Prop :=
  rootDirectory w = None
  /\ ((FsUtils.isOPFSSupported w = false /\ e = not_supported)
      \/ (FsUtils.isOPFSSupported w = true /\ getDirectory_error w = Some e)).

(** The files and the resolved root of [w] in the environment of [env]:
    what [env] has of [navigator.storage] and what its [getDirectory()]
    answers.  The engine stays the one of [w]. *)
Definition in_environment (env w : world) : world :=
  World (has_navigator env) (has_storage env) (has_getDirectory env)
        (getDirectory_error env) (max_arguments w) (entries w) (rootDirectory w).

(** A computation that, once the root is resolved, does not look at the
    environment and keeps the root. *)
Definition environment_blind {A} (m : M A) : Prop :=
  forall env w, rootDirectory w <> None ->
    m (in_environment env w) = (fst (m w), in_environment env (snd (m w)))
    /\ rootDirectory (snd (m w)) <> None.

(** A computation that leaves the engine as it is. *)
Definition keeps_engine {A} (m : M A) : Prop :=
  forall w, max_arguments (snd (m w)) = max_arguments w.

(** A call of a public function does the same in [w] and in [w] moved to the
    environment of [env], and leaves the root resolved. *)
Definition unaffected_by (env w : world) (call : world -> Fs.outcome * world) : Prop :=
  call (in_environment env w) = (fst (call w), in_environment env (snd (call w)))
  /\ rootDirectory (snd (call w)) <> None.

(** The calls of [initialize] made one after the other: each runs its two
    steps before the next starts. *)
Definition one_after_the_other (first n : nat) : list nat :=
  flat_map (fun i => [i; i]) (seq first n).

(** An origin with a resolved root where [/a] is a directory that holds the
    file [b.txt] with the bytes of "hi". *)
Definition with_file : world :=
  World true true true None 65536
    {[ [Js.lit "a"] := Directory;
       [Js.lit "a"; Js.lit "b.txt"] := File [0x68; 0x69] ]}
    (Some []).

(** A browser without [navigator.storage]. *)
Definition no_backend : world := World true false false None 65536 ∅ None.

(** * Properties *)

(** ** Bit operations as arithmetic *)

Lemma land_shiftl_low (q r k : Z) : 0 <= k -> 0 <= r < 2 ^ k -> Z.land (q ≪ k) r = 0.
Proof.
  intros Hk Hr. apply Z.bits_inj'. intros n Hn.
  rewrite Z.land_spec, Z.bits_0.
  destruct (Z.lt_ge_cases n k) as [Hlt|Hge].
  - rewrite Z.shiftl_spec_low by lia. reflexivity.
  - rewrite <- (Z.mod_small r (2 ^ k)) by lia.
    rewrite Z.mod_pow2_bits_high by lia. apply andb_false_r.
Qed.

Lemma lor_shiftl_low (q r k : Z) : 0 <= k -> 0 <= r < 2 ^ k -> Z.lor (q ≪ k) r = q * 2 ^ k + r.
Proof.
  intros Hk Hr. rewrite <- Z.lxor_lor by (apply land_shiftl_low; lia).
  rewrite <- Z.add_nocarry_lxor by (apply land_shiftl_low; lia).
  rewrite Z.shiftl_mul_pow2 by lia. reflexivity.
Qed.

Lemma lor_128 (r : Z) : 0 <= r < 64 -> Z.lor 0x80 r = 128 + r.
Proof.
  intros Hr. change 0x80 with (2 ≪ 6). rewrite (lor_shiftl_low 2 r 6) by lia. reflexivity.
Qed.

Lemma land_63 a : Z.land a 0x3F = a `mod` 64.
Proof. change 0x3F with (Z.ones 6). rewrite Z.land_ones by lia. reflexivity. Qed.
Lemma land_31 a : Z.land a 0x1F = a `mod` 32.
Proof. change 0x1F with (Z.ones 5). rewrite Z.land_ones by lia. reflexivity. Qed.
Lemma land_15 a : Z.land a 0xF = a `mod` 16.
Proof. change 0xF with (Z.ones 4). rewrite Z.land_ones by lia. reflexivity. Qed.
Lemma land_7 a : Z.land a 0x7 = a `mod` 8.
Proof. change 0x7 with (Z.ones 3). rewrite Z.land_ones by lia. reflexivity. Qed.

(** Goals about quotients and remainders by constants. *)
Ltac arith := Z.to_euclidean_division_equations; lia.

Lemma trail_byte (x : Z) : Z.lor 0x80 (Z.land x 0x3F) = 128 + x `mod` 64.
Proof. rewrite land_63. apply lor_128. arith. Qed.

Lemma continue_cp (q b : Z) : 128 <= b <= 191 -> Z.lor (q ≪ 6) (Z.land b 0x3F) = q * 64 + (b - 128).
Proof.
  intros Hb. rewrite land_63. rewrite (lor_shiftl_low q _ 6) by arith.
  change (2 ^ 6) with 64. arith.
Qed.

(** ** The decoder reads back what the encoder wrote *)

(** Decide the comparisons of the goal from the hypotheses. *)
Ltac decide_tests :=
  repeat match goal with
  | |- context [Z.leb ?a ?b] => destruct (Z.leb_spec a b); try lia
  | |- context [Z.eqb ?a ?b] => destruct (Z.eqb_spec a b); try lia
  end; simpl.

Lemma lead_1 b : 0 <= b <= 0x7F -> Utf8.lead b = (Utf8.init, [b]).
Proof. intros. unfold Utf8.lead, Utf8.between. decide_tests. reflexivity. Qed.

Lemma lead_2 b : 0xC2 <= b <= 0xDF ->
  Utf8.lead b = (Utf8.State (b `mod` 32) 0 1 0x80 0xBF, []).
Proof. intros. unfold Utf8.lead, Utf8.between. decide_tests. rewrite land_31. reflexivity. Qed.

Lemma lead_3 b : 0xE0 <= b <= 0xEF ->
  Utf8.lead b = (Utf8.State (b `mod` 16) 0 2
                   (if b =? 0xE0 then 0xA0 else 0x80)
                   (if b =? 0xED then 0x9F else 0xBF), []).
Proof. intros. unfold Utf8.lead, Utf8.between. rewrite land_15.
  destruct (Z.leb_spec 0 b); try lia. destruct (Z.leb_spec b 127); try lia.
  destruct (Z.leb_spec 194 b); try lia. destruct (Z.leb_spec b 223); try lia.
  destruct (Z.leb_spec 224 b); try lia. destruct (Z.leb_spec b 239); try lia.
  reflexivity. Qed.

Lemma lead_4 b : 0xF0 <= b <= 0xF4 ->
  Utf8.lead b = (Utf8.State (b `mod` 8) 0 3
                   (if b =? 0xF0 then 0x90 else 0x80)
                   (if b =? 0xF4 then 0x8F else 0xBF), []).
Proof. intros. unfold Utf8.lead, Utf8.between. rewrite land_7.
  destruct (Z.leb_spec 0 b); try lia. destruct (Z.leb_spec b 127); try lia.
  destruct (Z.leb_spec 194 b); try lia. destruct (Z.leb_spec b 223); try lia.
  destruct (Z.leb_spec 224 b); try lia. destruct (Z.leb_spec b 239); try lia.
  destruct (Z.leb_spec 240 b); try lia. destruct (Z.leb_spec b 244); try lia.
  reflexivity. Qed.

(** A continuation byte inside the boundaries of an open sequence. *)
Lemma handler_more q seen needed lo hi b :
  needed <> 0 -> seen + 1 <> needed -> 128 <= lo -> hi <= 191 -> lo <= b <= hi ->
  Utf8.handler (Utf8.State q seen needed lo hi) b =
    (Utf8.State (q * 64 + (b - 128)) (seen + 1) needed 0x80 0xBF, []).
Proof.
  intros Hn Hs Hlo Hhi Hb. unfold Utf8.handler, Utf8.between.
  cbn [Utf8.bytes_needed Utf8.lower_boundary Utf8.upper_boundary Utf8.code_point Utf8.bytes_seen].
  destruct (Z.eqb_spec needed 0); [lia|].
  destruct (Z.leb_spec lo b); [|lia]. destruct (Z.leb_spec b hi); [|lia].
  cbn [andb negb]. rewrite continue_cp by lia.
  destruct (Z.eqb_spec (seen + 1) needed); [lia|]. reflexivity.
Qed.

Lemma handler_last q seen needed lo hi b :
  needed <> 0 -> seen + 1 = needed -> 128 <= lo -> hi <= 191 -> lo <= b <= hi ->
  Utf8.handler (Utf8.State q seen needed lo hi) b = (Utf8.init, [q * 64 + (b - 128)]).
Proof.
  intros Hn Hs Hlo Hhi Hb. unfold Utf8.handler, Utf8.between.
  cbn [Utf8.bytes_needed Utf8.lower_boundary Utf8.upper_boundary Utf8.code_point Utf8.bytes_seen].
  destruct (Z.eqb_spec needed 0); [lia|].
  destruct (Z.leb_spec lo b); [|lia]. destruct (Z.leb_spec b hi); [|lia].
  cbn [andb negb]. rewrite continue_cp by lia.
  destruct (Z.eqb_spec (seen + 1) needed); [|lia]. reflexivity.
Qed.

Lemma decode_from_cons st b rest :
  Utf8.decode_from st (b :: rest) =
    (Utf8.handler st b).2 ++ Utf8.decode_from (Utf8.handler st b).1 rest.
Proof. cbn [Utf8.decode_from]. destruct (Utf8.handler st b). reflexivity. Qed.

Lemma handler_init b : Utf8.handler Utf8.init b = Utf8.lead b.
Proof. reflexivity. Qed.

Lemma encode_cp_1 cp : 0 <= cp <= 0x7F -> Utf8.encode_cp cp = [cp].
Proof. intros. unfold Utf8.encode_cp. decide_tests. reflexivity. Qed.

Lemma encode_cp_2 cp : 0x80 <= cp <= 0x7FF ->
  Utf8.encode_cp cp = [cp `div` 64 + 192; 128 + cp `mod` 64].
Proof.
  intros. unfold Utf8.encode_cp. decide_tests. cbn [Utf8.trail].
  rewrite trail_byte. rewrite !Z.shiftr_div_pow2 by lia.
  change (6 * Z.of_nat 1) with 6. change (6 * Z.of_nat 0) with 0.
  change (2 ^ 6) with 64. change (2 ^ 0) with 1. rewrite Z.div_1_r. reflexivity.
Qed.

Lemma encode_cp_3 cp : 0x800 <= cp <= 0xFFFF ->
  Utf8.encode_cp cp =
    [cp `div` 4096 + 224; 128 + (cp `div` 64) `mod` 64; 128 + cp `mod` 64].
Proof.
  intros. unfold Utf8.encode_cp. decide_tests. cbn [Utf8.trail].
  rewrite !trail_byte. rewrite !Z.shiftr_div_pow2 by lia.
  change (6 * Z.of_nat 2) with 12. change (6 * Z.of_nat 1) with 6. change (6 * Z.of_nat 0) with 0.
  change (2 ^ 12) with 4096. change (2 ^ 6) with 64. change (2 ^ 0) with 1. rewrite Z.div_1_r. reflexivity.
Qed.

Lemma encode_cp_4 cp : 0x10000 <= cp <= 0x10FFFF ->
  Utf8.encode_cp cp =
    [cp `div` 262144 + 240; 128 + (cp `div` 4096) `mod` 64;
     128 + (cp `div` 64) `mod` 64; 128 + cp `mod` 64].
Proof.
  intros. unfold Utf8.encode_cp. decide_tests. cbn [Utf8.trail].
  rewrite !trail_byte. rewrite !Z.shiftr_div_pow2 by lia.
  change (6 * Z.of_nat 3) with 18. change (6 * Z.of_nat 2) with 12. change (6 * Z.of_nat 1) with 6. change (6 * Z.of_nat 0) with 0.
  change (2 ^ 18) with 262144. change (2 ^ 12) with 4096. change (2 ^ 6) with 64. change (2 ^ 0) with 1. rewrite Z.div_1_r. reflexivity.
Qed.

Lemma is_scalar_spec cp :
  Js.is_scalar cp = true <-> (0 <= cp <= 0x10FFFF /\ ~ (0xD800 <= cp <= 0xDFFF)).
Proof.
  unfold Js.is_scalar. 
  destruct (Z.leb_spec 0 cp), (Z.leb_spec cp 0x10FFFF), (Z.leb_spec 0xD800 cp), (Z.leb_spec cp 0xDFFF); simpl; split; intros; try discriminate; try lia; reflexivity.
Qed.

Lemma decode_encode_cp cp rest :
  Js.is_scalar cp = true ->
  Utf8.decode_from Utf8.init (Utf8.encode_cp cp ++ rest) =
    cp :: Utf8.decode_from Utf8.init rest.
Proof.
  intros Hs. apply is_scalar_spec in Hs. destruct Hs as [Hr Hns].
  destruct (Z.le_gt_cases cp 0x7F) as [H1|H1].
  { rewrite encode_cp_1 by lia. cbn [app].
    rewrite decode_from_cons, handler_init, lead_1 by lia. reflexivity. }
  destruct (Z.le_gt_cases cp 0x7FF) as [H2|H2].
  { rewrite encode_cp_2 by lia. cbn [app].
    rewrite decode_from_cons, handler_init, lead_2 by arith. cbn [fst snd app].
    rewrite decode_from_cons, handler_last by arith. cbn [fst snd app].
    f_equal. arith. }
  destruct (Z.le_gt_cases cp 0xFFFF) as [H3|H3].
  { rewrite encode_cp_3 by lia. cbn [app].
    rewrite decode_from_cons, handler_init, lead_3 by arith. cbn [fst snd app].
    rewrite decode_from_cons, handler_more;
      [ | lia | lia | decide_tests; lia | decide_tests; lia | decide_tests; arith ].
    cbn [fst snd app].
    rewrite decode_from_cons, handler_last by arith. cbn [fst snd app].
    f_equal. arith. }
  rewrite encode_cp_4 by lia. cbn [app].
  rewrite decode_from_cons, handler_init, lead_4 by arith. cbn [fst snd app].
  rewrite decode_from_cons, handler_more;
    [ | lia | lia | decide_tests; lia | decide_tests; lia | decide_tests; arith ].
  cbn [fst snd app].
  rewrite decode_from_cons, handler_more by arith. cbn [fst snd app].
  rewrite decode_from_cons, handler_last by arith. cbn [fst snd app].
  f_equal. arith.
Qed.

(** Decoding the encoding of scalar values gives them back. *)
Lemma decode_encode cps :
  Forall (fun cp => Js.is_scalar cp = true) cps -> Utf8.decode (Utf8.encode cps) = cps.
Proof.
  unfold Utf8.decode, Utf8.encode. induction 1 as [|cp cps Hcp _ IH]; [reflexivity|].
  cbn [map concat]. rewrite decode_encode_cp by assumption. f_equal. exact IH.
Qed.

Lemma pair_scalar c d :
  Js.is_high_surrogate c = true -> Js.is_low_surrogate d = true ->
  let cp := (c - 0xD800) * 0x400 + (d - 0xDC00) + 0x10000 in
  Js.is_scalar cp = true /\ Js.code_units cp = [c; d].
Proof.
  intros Hc Hd cp. subst cp. 
  unfold Js.is_high_surrogate in Hc. unfold Js.is_low_surrogate in Hd.
  apply andb_true_iff in Hc as [Hc1 Hc2]. apply andb_true_iff in Hd as [Hd1 Hd2].
  apply Z.leb_le in Hc1, Hc2, Hd1, Hd2.
  split.
  - apply is_scalar_spec. lia.
  - unfold Js.code_units. destruct (Z.leb_spec ((c - 55296) * 1024 + (d - 56320) + 65536) 65535); [lia|].
    f_equal; [|f_equal]; arith.
Qed.

Lemma unit_scalar c :
  Js.is_high_surrogate c = false -> Js.is_low_surrogate c = false -> Js.is_code_unit c = true ->
  Js.is_scalar c = true /\ Js.code_units c = [c].
Proof.
  intros Hh Hl Hu. unfold Js.is_code_unit in Hu. apply andb_true_iff in Hu as [Hu1 Hu2].
  apply Z.leb_le in Hu1, Hu2.
  unfold Js.is_high_surrogate in Hh. unfold Js.is_low_surrogate in Hl.
  apply andb_false_iff in Hh. apply andb_false_iff in Hl. rewrite !Z.leb_gt in Hh, Hl.
  split.
  - apply is_scalar_spec. lia.
  - unfold Js.code_units. destruct (Z.leb_spec c 65535); [reflexivity|lia].
Qed.

(** A well-formed string is the UTF-16 form of its scalar values. *)
Lemma well_formed_scalars n s :
  (length s <= n)%nat -> Js.well_formed s = true ->
  Forall (fun cp => Js.is_scalar cp = true) (Js.to_scalars s)
  /\ Js.of_scalars (Js.to_scalars s) = s.
Proof.
  revert s. induction n as [|n IH]; intros s Hlen Hwf.
  { destruct s; [split; [constructor|reflexivity] | simpl in Hlen; lia]. }
  destruct s as [|c rest]; [split; [constructor|reflexivity]|].
  cbn [Js.well_formed Js.to_scalars] in *.
  destruct (Js.is_high_surrogate c) eqn:Hh.
  - destruct rest as [|d rest']; [discriminate|].
    apply andb_true_iff in Hwf as [Hd Hwf]. rewrite Hd.
    destruct (pair_scalar c d Hh Hd) as [Hs Hu].
    destruct (IH rest') as [IH1 IH2]; [simpl in Hlen; lia | exact Hwf |].
    split; [constructor; assumption|].
    unfold Js.of_scalars in *. cbn [map concat]. rewrite Hu, IH2. reflexivity.
  - apply andb_true_iff in Hwf as [Hwf Hrest]. apply andb_true_iff in Hwf as [Hu Hl].
    apply negb_true_iff in Hl. rewrite Hl.
    destruct (unit_scalar c Hh Hl Hu) as [Hs Hcu].
    destruct (IH rest) as [IH1 IH2]; [simpl in Hlen; lia | exact Hrest |].
    split; [constructor; assumption|].
    unfold Js.of_scalars in *. cbn [map concat]. rewrite Hcu, IH2. reflexivity.
Qed.

(** The byte order mark is one code unit, so it is removed from the string
    exactly when it is removed from its scalar values. *)
Lemma strip_bom_scalars s :
  Js.well_formed s = true ->
  Js.of_scalars (Text.strip_bom (Js.to_scalars s)) = Text.strip_bom s.
Proof.
  intros Hwf. destruct s as [|c rest]; [reflexivity|].
  pose proof (well_formed_scalars _ _ (le_n _) Hwf) as [_ Hrt].
  cbn [Js.well_formed Js.to_scalars] in *.
  destruct (Js.is_high_surrogate c) eqn:Hh.
  - destruct rest as [|d rest']; [discriminate|].
    apply andb_true_iff in Hwf as [Hd Hwf]. rewrite Hd in *.
    cbn [Text.strip_bom].
    unfold Js.is_high_surrogate in Hh. unfold Js.is_low_surrogate in Hd.
    apply andb_true_iff in Hh as [Hc1 Hc2]. apply andb_true_iff in Hd as [Hd1 Hd2].
    apply Z.leb_le in Hc1, Hc2, Hd1, Hd2.
    destruct (Z.eqb_spec ((c - 55296) * 1024 + (d - 56320) + 65536) 65279); [lia|].
    destruct (Z.eqb_spec c 65279); [lia|]. exact Hrt.
  - apply andb_true_iff in Hwf as [Hwf Hrest]. apply andb_true_iff in Hwf as [Hu Hl].
    apply negb_true_iff in Hl. rewrite Hl in *.
    cbn [Text.strip_bom]. destruct (Z.eqb_spec c 65279); [|exact Hrt].
    apply (well_formed_scalars _ _ (le_n _) Hrest).
Qed.

Lemma TextDecoder_TextEncoder s :
  Js.well_formed s = true ->
  Text.TextDecoder_decode (Text.TextEncoder_encode s) = Text.strip_bom s.
Proof.
  intros Hwf. unfold Text.TextDecoder_decode, Text.TextEncoder_encode.
  rewrite decode_encode by (apply (well_formed_scalars _ _ (le_n _) Hwf)).
  apply strip_bom_scalars, Hwf.
Qed.

(** ** Splitting and joining paths *)

Lemma split_not_nil s : Js.split Js.slash s <> [].
Proof.
  destruct s as [|c rest]; cbn [Js.split]; [discriminate|].
  destruct (c =? Js.slash); [discriminate|].
  destruct (Js.split Js.slash rest); discriminate.
Qed.

Lemma split_no_slash s : Forall no_slash (Js.split Js.slash s).
Proof.
  induction s as [|c rest IH]; cbn [Js.split].
  - repeat constructor.
  - destruct (Z.eqb_spec c Js.slash) as [->|Hne].
    + constructor; [constructor | exact IH].
    + destruct (Js.split Js.slash rest) as [|p ps].
      * repeat constructor. exact Hne.
      * inversion IH; subst. constructor; [constructor; assumption | assumption].
Qed.

Lemma split_part p rest :
  no_slash p ->
  Js.split Js.slash (p ++ Js.slash :: rest) = p :: Js.split Js.slash rest.
Proof.
  induction 1 as [|c p Hc _ IH]; cbn [app Js.split].
  - rewrite Z.eqb_refl. reflexivity.
  - destruct (Z.eqb_spec c Js.slash); [contradiction|]. rewrite IH. reflexivity.
Qed.

Lemma split_last p : no_slash p -> Js.split Js.slash p = [p].
Proof.
  induction 1 as [|c p Hc _ IH]; cbn [Js.split]; [reflexivity|].
  destruct (Z.eqb_spec c Js.slash); [contradiction|]. rewrite IH. reflexivity.
Qed.

(** Splitting undoes joining, except that joining nothing gives the empty
    string, which splits into one empty part. *)
Lemma split_join ps :
  Forall no_slash ps -> ps <> [] -> Js.split Js.slash (Js.join Js.slash ps) = ps.
Proof.
  induction 1 as [|p ps Hp Hps IH]; intros Hne; [contradiction|].
  destruct ps as [|q qs]; cbn [Js.join].
  - apply split_last, Hp.
  - rewrite split_part by exact Hp. f_equal. apply IH. discriminate.
Qed.

Lemma segments_join ps :
  Forall no_slash ps -> segments (Js.join Js.slash ps) = Js.non_empty_parts ps.
Proof.
  intros Hps. unfold segments. destruct ps as [|p qs]; [reflexivity|].
  rewrite split_join by (assumption || discriminate). reflexivity.
Qed.

Lemma non_empty_parts_app a b :
  Js.non_empty_parts (a ++ b) = Js.non_empty_parts a ++ Js.non_empty_parts b.
Proof. unfold Js.non_empty_parts. induction a as [|x a IH]; cbn; [reflexivity|]. destruct (Js.truthy x); cbn; rewrite IH; reflexivity. Qed.

Lemma last_removelast (l : list jsstring) :
  l <> [] -> exists x, last l = Some x /\ l = removelast l ++ [x].
Proof.
  induction l as [|a l IH]; intros Hne; [contradiction|].
  destruct l as [|b l'].
  - exists a. split; reflexivity.
  - destruct IH as [x [Hx Hl]]; [discriminate|].
    exists x. split; [exact Hx|]. 
    change (removelast (a :: b :: l')) with (a :: removelast (b :: l')).
    cbn [app]. f_equal. exact Hl.
Qed.

Lemma or_empty_parts x : Js.non_empty_parts [x] = if Js.truthy (Js.or_empty (Some x)) then [Js.or_empty (Some x)] else [].
Proof. destruct x; reflexivity. Qed.

(** The segments of a path are those of its directory part, then its leaf if
    it has one. *)
Lemma segments_leaf path :
  segments path =
    segments (directoryPath path) ++ (if Js.truthy (leaf path) then [leaf path] else []).
Proof.
  unfold directoryPath, leaf, Js.pop. cbn [fst snd].
  destruct (last_removelast (Js.split Js.slash path) (split_not_nil path)) as [x [Hx Hl]].
  rewrite Hx.
  assert (Hns : Forall no_slash (removelast (Js.split Js.slash path))).
  { pose proof (split_no_slash path) as H. rewrite Hl in H. apply Forall_app in H. tauto. }
  rewrite segments_join by exact Hns.
  unfold segments at 1. rewrite Hl at 1. rewrite non_empty_parts_app.
  f_equal. apply or_empty_parts.
Qed.

Lemma segments_directoryPath p1 p2 :
  segments p1 = segments p2 -> leaf p1 = leaf p2 ->
  segments (directoryPath p1) = segments (directoryPath p2).
Proof.
  intros Hs Hl. rewrite (segments_leaf p1), (segments_leaf p2), Hl in Hs.
  eapply app_inv_tail. exact Hs.
Qed.

(** An empty directory part has no segments. *)
Lemma not_truthy s : Js.truthy s = false -> s = [].
Proof. destruct s; [reflexivity | discriminate]. Qed.

(** ** Resolution as a walk from the root *)

Lemma ensure_root_eq w :
  FsUtils.ensure_root w =
    match rootDirectory w with
    | Some r => (Ok r, w)
    | None =>
        if FsUtils.isOPFSSupported w then
          match getDirectory_error w with
          | None => (Ok [], set_rootDirectory (Some []) w)
          | Some e => (Throw e, w)
          end
        else (Throw not_supported, w)
    end.
Proof.
  unfold FsUtils.ensure_root, FsUtils.initialize, bind, read, ret, throw, update, Opfs.getDirectory.
  destruct (rootDirectory w) eqn:Hr; cbn; rewrite ?Hr; [reflexivity|].
  destruct (FsUtils.isOPFSSupported w); cbn; [|reflexivity].
  rewrite Hr. destruct (getDirectory_error w); reflexivity.
Qed.

(** Once the root is resolved it stays, and only [rootDirectory] changed. *)
Lemma ensure_root_ok w r w' :
  FsUtils.ensure_root w = (Ok r, w') ->
  rootDirectory w' = Some r /\ entries w' = entries w
  /\ FsUtils.ensure_root w' = (Ok r, w').
Proof.
  rewrite ensure_root_eq. intros H.
  destruct (rootDirectory w) eqn:Hr.
  - inversion H; subst. rewrite ensure_root_eq, Hr. auto.
  - destruct (FsUtils.isOPFSSupported w); [|discriminate].
    destruct (getDirectory_error w); [discriminate|].
    inversion H; subst. rewrite ensure_root_eq. auto.
Qed.

Lemma ensure_root_throw w e w' :
  FsUtils.ensure_root w = (Throw e, w') -> w' = w.
Proof.
  rewrite ensure_root_eq. intros H.
  destruct (rootDirectory w); [discriminate|].
  destruct (FsUtils.isOPFSSupported w); [|congruence].
  destruct (getDirectory_error w); congruence.
Qed.

Lemma getDirectoryByPath_eq path create w :
  FsUtils.getDirectoryByPath path create w =
    match FsUtils.ensure_root w with
    | (Ok r, w') => FsUtils.walk create r (segments path) w'
    | (Throw e, w') => (Throw e, w')
    end.
Proof. reflexivity. Qed.

(** [getDirectoryAndFileName] walks the segments of the directory part,
    creating them, and returns the leaf as it stands. *)
Lemma getDirectoryAndFileName_eq path w :
  FsUtils.getDirectoryAndFileName path w =
    match FsUtils.ensure_root w with
    | (Ok r, w') =>
        match FsUtils.walk true r (segments (directoryPath path)) w' with
        | (Ok d, w'') => (Ok (d, leaf path), w'')
        | (Throw e, w'') => (Throw e, w'')
        end
    | (Throw e, w') => (Throw e, w')
    end.
Proof.
  unfold FsUtils.getDirectoryAndFileName, bind at 1.
  destruct (FsUtils.ensure_root w) as [[r|e] w'] eqn:Hroot; [|reflexivity].
  apply ensure_root_ok in Hroot as (_ & _ & Hagain).
  unfold Js.pop.
  change (Js.join Js.slash (removelast (Js.split Js.slash path))) with (directoryPath path).
  change (Js.or_empty (last (Js.split Js.slash path))) with (leaf path).
  unfold bind, ret.
  destruct (Js.truthy (directoryPath path)) eqn:Ht.
  - rewrite getDirectoryByPath_eq, Hagain. reflexivity.
  - apply not_truthy in Ht. rewrite Ht. reflexivity.
Qed.

(** ** Walking and creating directories *)

Lemma is_directory_lookup w h :
  entries w !! h = Some Directory -> Opfs.is_directory w h = true.
Proof. intros H. unfold Opfs.is_directory. destruct h; [reflexivity|]. rewrite H. reflexivity. Qed.

(** What one [getDirectoryHandle] does, whatever [create] is: on success the
    handle is the child's, the child is a directory afterwards, and what was
    stored is still stored. *)
Lemma getDirectoryHandle_ok h n create w d w' :
  Opfs.getDirectoryHandle h n create w = (Ok d, w') ->
  d = h ++ [n] /\ entries w' !! d = Some Directory /\ entries w ⊆ entries w'
  /\ rootDirectory w' = rootDirectory w.
Proof.
  unfold Opfs.getDirectoryHandle. intros H.
  destruct (negb (Opfs.valid_file_name n)); [discriminate|].
  destruct (negb (Opfs.is_directory w h)); [discriminate|].
  destruct (entries w !! (h ++ [n])) as [[data|]|] eqn:Hl; [discriminate| |].
  - inversion H; subst. auto.
  - destruct create; [|discriminate]. inversion H; subst. cbn.
    split; [reflexivity|]. split; [apply lookup_insert_eq|].
    split; [apply insert_subseteq, Hl | reflexivity].
Qed.

Lemma walk_ok create parts : forall h w d w',
  FsUtils.walk create h parts w = (Ok d, w') ->
  d = h ++ parts /\ entries w ⊆ entries w' /\ rootDirectory w' = rootDirectory w.
Proof.
  induction parts as [|part rest IH]; intros h w d w' H; cbn [FsUtils.walk] in H.
  - inversion H; subst. rewrite app_nil_r. auto.
  - unfold bind in H.
    destruct (Opfs.getDirectoryHandle h part create w) as [[d1|e] w1] eqn:H1; [|discriminate].
    apply getDirectoryHandle_ok in H1 as (-> & _ & Hsub & Hroot).
    apply IH in H as (-> & Hsub' & Hroot').
    rewrite <- app_assoc. split; [reflexivity|]. split; [etrans; eassumption | congruence].
Qed.

(** With [create] set, the walk succeeds when every part is a valid name
    and no file is in the way; it leaves a directory at every step. *)
Lemma walk_create parts : forall h w,
  Forall (fun n => Opfs.valid_file_name n = true) parts ->
  Opfs.is_directory w h = true ->
  (forall pre data, pre <> [] -> pre `prefix_of` parts ->
     entries w !! (h ++ pre) <> Some (File data)) ->
  exists w',
    FsUtils.walk true h parts w = (Ok (h ++ parts), w')
    /\ (forall pre, pre <> [] -> pre `prefix_of` parts ->
          entries w' !! (h ++ pre) = Some Directory)
    /\ (forall k v, entries w' !! k = Some v ->
          entries w !! k = Some v
          \/ (v = Directory /\ exists pre, pre <> [] /\ pre `prefix_of` parts /\ k = h ++ pre)).
Proof.
  induction parts as [|part rest IH]; intros h w Hvalid Hdir Hfree; cbn [FsUtils.walk].
  - exists w. rewrite app_nil_r. split; [reflexivity|]. split.
    + intros pre Hne Hpre. apply prefix_nil_inv in Hpre. contradiction.
    + auto.
  - inversion Hvalid as [|? ? Hpart Hrest]; subst.
    assert (Hstep : exists w1,
      Opfs.getDirectoryHandle h part true w = (Ok (h ++ [part]), w1)
      /\ entries w1 !! (h ++ [part]) = Some Directory
      /\ (forall k v, entries w1 !! k = Some v ->
            entries w !! k = Some v \/ (v = Directory /\ k = h ++ [part]))
      /\ entries w ⊆ entries w1).
    { unfold Opfs.getDirectoryHandle. rewrite Hpart, Hdir. cbn [negb].
      destruct (entries w !! (h ++ [part])) as [[data|]|] eqn:Hl.
      - exfalso. eapply (Hfree [part] data); [discriminate | | exact Hl].
        exists rest. reflexivity.
      - exists w. auto.
      - eexists. split; [reflexivity|]. cbn. split; [apply lookup_insert_eq|]. split.
        + intros k v Hk. destruct (decide (h ++ [part] = k)) as [<-|Hne].
          * rewrite lookup_insert_eq in Hk. inversion Hk. auto.
          * rewrite lookup_insert_ne in Hk by exact Hne. auto.
        + apply insert_subseteq, Hl. }
    destruct Hstep as (w1 & Hget & Hnew & Honly & Hsub).
    destruct (IH (h ++ [part]) w1 Hrest (is_directory_lookup _ _ Hnew)) as (w' & Hwalk & Hdirs & Hmin).
    { intros pre data Hne Hpre Hl. rewrite <- app_assoc in Hl. cbn [app] in Hl.
      apply Honly in Hl as [Hl|[Hl _]]; [|discriminate].
      eapply (Hfree (part :: pre) data); [discriminate | | exact Hl].
      apply prefix_cons, Hpre. }
    exists w'. unfold bind. rewrite Hget, Hwalk, <- app_assoc. split; [reflexivity|]. split.
    + intros pre Hne Hpre. destruct pre as [|p pre']; [contradiction|].
      pose proof (prefix_cons_inv_1 _ _ _ _ Hpre) as ->.
      apply prefix_cons_inv_2 in Hpre.
      destruct pre' as [|q pre''].
      * apply walk_ok in Hwalk as (_ & Hsub' & _).
        eapply lookup_weaken; eassumption.
      * specialize (Hdirs (q :: pre'')). rewrite <- app_assoc in Hdirs. apply Hdirs; [discriminate|exact Hpre].
    + intros k v Hk. apply Hmin in Hk as [Hk|(-> & pre & Hne & Hpre & ->)].
      * apply Honly in Hk as [Hk|[-> ->]]; [auto|]. right. split; [reflexivity|].
        exists [part]. split; [discriminate|]. split; [|reflexivity].
        exists rest. reflexivity.
      * right. split; [reflexivity|]. exists (part :: pre). split; [discriminate|].
        split; [apply prefix_cons, Hpre|]. rewrite <- app_assoc. reflexivity.
Qed.

(** ** exists *)

Lemma checkExists_eq path w :
  Fs.checkExists path w =
    match FsUtils.getDirectoryAndFileName path w with
    | (Ok (d, n), w1) =>
        match Opfs.getFileHandle d n false w1 with
        | (Ok _, w2) => (Ok true, w2)
        | (Throw _, w2) => (Ok false, w2)
        end
    | (Throw _, w1) => (Ok false, w1)
    end.
Proof.
  unfold Fs.checkExists, try_catch, bind, ret.
  destruct (FsUtils.getDirectoryAndFileName path w) as [[[d n]|e] w1]; [|reflexivity].
  destruct (Opfs.getFileHandle d n false w1) as [[fh|e] w2]; reflexivity.
Qed.

Lemma exists_eq path callback w :
  Fs.exists_ path callback w =
    match Fs.checkExists path w with
    | (Ok b, w') =>
        (match callback with
         | Some cb => Fs.Outcome None [Fs.Call cb [Fs.VBoolean b]]
         | None => Fs.Outcome (Some (Fs.Resolved (Fs.VBoolean b))) []
         end, w')
    | (Throw e, w') =>
        (match callback with
         | Some cb => Fs.Outcome None []
         | None => Fs.Outcome (Some (Fs.Rejected e)) []
         end, w')
    end.
Proof.
  unfold Fs.exists_. destruct (Fs.checkExists path w) as [[b|e] w'], callback; reflexivity.
Qed.

(** A file handle is never given for a name that is a directory. *)
Lemma getFileHandle_directory d n w :
  entries w !! (d ++ [n]) = Some Directory ->
  exists e, Opfs.getFileHandle d n false w = (Throw e, w).
Proof.
  intros H. unfold Opfs.getFileHandle.
  destruct (negb (Opfs.valid_file_name n)); [eauto|].
  destruct (negb (Opfs.is_directory w d)); [eauto|].
  rewrite H. eauto.
Qed.

Lemma getFileHandle_empty_name d w :
  Opfs.getFileHandle d [] false w = (Throw Opfs.not_allowed, w).
Proof. reflexivity. Qed.

Lemma checkExists_directory w path :
  rootDirectory w = None \/ rootDirectory w = Some [] ->
  directory_at w (segments path) ->
  exists w', Fs.checkExists path w = (Ok false, w').
Proof.
  intros Hroot Hdir. rewrite checkExists_eq, getDirectoryAndFileName_eq.
  destruct (FsUtils.ensure_root w) as [[r|e] w1] eqn:Hr; [|eauto].
  assert (r = []) as ->.
  { rewrite ensure_root_eq in Hr. destruct Hroot as [Hn|Hs]; rewrite ?Hn, ?Hs in Hr.
    - destruct (FsUtils.isOPFSSupported w); [|discriminate].
      destruct (getDirectory_error w); congruence.
    - congruence. }
  apply ensure_root_ok in Hr as (_ & Hent & _).
  destruct (FsUtils.walk true [] (segments (directoryPath path)) w1) as [[d|e] w2] eqn:Hw; [|eauto].
  apply walk_ok in Hw as (-> & Hsub & _). cbn [app] in *.
  destruct (Js.truthy (leaf path)) eqn:Hleaf.
  - destruct (getFileHandle_directory (segments (directoryPath path)) (leaf path) w2) as [e He].
    + eapply lookup_weaken; [|exact Hsub]. rewrite Hent.
      unfold directory_at in Hdir. rewrite segments_leaf, Hleaf in Hdir.
      destruct Hdir as [Hnil|Hl]; [|exact Hl].
      destruct (segments (directoryPath path)); discriminate.
    + rewrite He. eauto.
  - apply not_truthy in Hleaf. rewrite Hleaf, getFileHandle_empty_name. eauto.
Qed.

(** ** The claims about paths, directories and existence *)

Lemma createDir_eq path w :
  Fs.createDir path w =
    match FsUtils.getDirectoryByPath path true w with
    | (Ok _, w') => (Ok tt, w')
    | (Throw e, w') => (Throw (Fs.wrap "Error creating directory: " e), w')
    end.
Proof.
  unfold Fs.createDir, try_catch, bind, ret, throw.
  destruct (FsUtils.getDirectoryByPath path true w) as [[d|e] w']; reflexivity.
Qed.

Lemma available_root w :
  available w ->
  exists w1, FsUtils.ensure_root w = (Ok [], w1) /\ entries w1 = entries w.
Proof.
  intros [(Hs & He & Hr)|Hr]; rewrite ensure_root_eq, Hr, ?Hs, ?He; eauto.
Qed.

(** C3, as amended.  [mkdir(path, {recursive})] does the same whatever
    [recursive] is; and when the backend is available, every segment is a
    valid name and no file stands on the way, it succeeds and leaves a
    directory at every segment along the path: the missing ones are created,
    nothing else is added and everything stored before is still stored. *)
Theorem mkdir_creates_every_segment (w : world) (path : jsstring) :
  (forall o callback,
     Fs.mkdir path (Fs.MkdirObject o) callback w = Fs.mkdir path Fs.MkdirAbsent callback w)
  /\ (available w -> valid_segments path -> no_file_on w (segments path) ->
      exists w',
        (forall o callback,
           Fs.mkdir path (Fs.MkdirObject o) callback w = (finished callback, w'))
        /\ (forall pre, pre <> [] -> pre `prefix_of` segments path ->
              entries w' !! pre = Some Directory)
        /\ (forall k v, entries w' !! k = Some v ->
              entries w !! k = Some v
              \/ (v = Directory /\ k <> [] /\ k `prefix_of` segments path))
        /\ (forall k v, entries w !! k = Some v -> entries w' !! k = Some v)).
Proof.
  split; [reflexivity|].
  intros Hav Hvalid Hfree.
  destruct (available_root w Hav) as (w1 & Hroot & Hent).
  destruct (walk_create (segments path) [] w1 Hvalid eq_refl) as (w' & Hwalk & Hdirs & Hmin).
  { intros pre data _ Hpre. rewrite Hent. apply Hfree, Hpre. }
  exists w'. split; [|split; [|split]].
  - intros o callback. unfold Fs.mkdir. cbn [Fs.normalize_mkdir].
    rewrite createDir_eq, getDirectoryByPath_eq, Hroot, Hwalk.
    destruct callback; reflexivity.
  - exact Hdirs.
  - intros k v Hk. apply Hmin in Hk as [Hk|(-> & pre & Hne & Hpre & ->)].
    + left. rewrite <- Hent. exact Hk.
    + right. auto.
  - intros k v Hk. apply walk_ok in Hwalk as (_ & Hsub & _).
    rewrite <- Hent in Hk. eapply lookup_weaken; eassumption.
Qed.

(** C4, as amended.  Two paths with the same non-empty segments differ by
    repeated or trailing slashes.  [getDirectoryByPath] drops every empty
    part, so it resolves both to the same directory, and [mkdir] and
    [readdir] do the same on both.  [getDirectoryAndFileName] takes the text
    after the last slash as the leaf: when that text is the same too (both
    paths end with a slash, or neither does), it gives the same parent
    directory and the same leaf name with the same effect on the world, and
    [readFile], [writeFile], [exists] and [unlink] do the same on both.
    Where it succeeds on both paths with the same result, that text is the
    same. *)
Theorem resolution_ignores_repeated_slashes (w : world) (p1 p2 : jsstring) :
  segments p1 = segments p2 ->
  (forall create,
     FsUtils.getDirectoryByPath p1 create w = FsUtils.getDirectoryByPath p2 create w)
  /\ (forall options callback,
        Fs.mkdir p1 options callback w = Fs.mkdir p2 options callback w)
  /\ (forall options callback,
        Fs.readdir p1 options callback w = Fs.readdir p2 options callback w)
  /\ (leaf p1 = leaf p2 ->
      FsUtils.getDirectoryAndFileName p1 w = FsUtils.getDirectoryAndFileName p2 w
      /\ (forall options callback,
            Fs.readFile p1 options callback w = Fs.readFile p2 options callback w)
      /\ (forall data options callback,
            Fs.writeFile p1 data options callback w
            = Fs.writeFile p2 data options callback w)
      /\ (forall callback, Fs.exists_ p1 callback w = Fs.exists_ p2 callback w)
      /\ (forall callback, Fs.unlink p1 callback w = Fs.unlink p2 callback w))
  /\ (forall resolved w',
        FsUtils.getDirectoryAndFileName p1 w = (Ok resolved, w') ->
        FsUtils.getDirectoryAndFileName p2 w = (Ok resolved, w') ->
        leaf p1 = leaf p2).
Proof.
  intros Hseg.
  assert (Hdir : forall create,
            FsUtils.getDirectoryByPath p1 create w = FsUtils.getDirectoryByPath p2 create w).
  { intros create. rewrite !getDirectoryByPath_eq, Hseg. reflexivity. }
  split; [exact Hdir|]. split; [|split; [|split]].
  - intros options callback. unfold Fs.mkdir.
    destruct (Fs.normalize_mkdir options callback) as [r cb].
    unfold Fs.createDir, try_catch, bind. rewrite Hdir. reflexivity.
  - intros options callback. unfold Fs.readdir, Fs.readDirectory, try_catch, bind.
    rewrite Hdir. reflexivity.
  - intros Hleaf.
    assert (Hres : FsUtils.getDirectoryAndFileName p1 w
                   = FsUtils.getDirectoryAndFileName p2 w).
    { rewrite !getDirectoryAndFileName_eq, Hleaf, (segments_directoryPath p1 p2 Hseg Hleaf).
      reflexivity. }
    split; [exact Hres|]. split; [|split; [|split]].
    + intros options callback. unfold Fs.readFile.
      destruct (Fs.normalize_read options callback) as [encoding cb].
      unfold Fs.readFileAsync, try_catch, bind. rewrite Hres. reflexivity.
    + intros data options callback. unfold Fs.writeFile.
      destruct (Fs.normalize_write options callback) as [encoding cb].
      unfold Fs.writeFileAsync, try_catch, bind. rewrite Hres. reflexivity.
    + intros callback. unfold Fs.exists_, Fs.checkExists, try_catch, bind.
      rewrite Hres. reflexivity.
    + intros callback. unfold Fs.unlink, Fs.unlinkFile, try_catch, bind.
      rewrite Hres. reflexivity.
  - intros resolved w'. rewrite !getDirectoryAndFileName_eq.
    destruct (FsUtils.ensure_root w) as [[r|e] w1]; [|discriminate].
    destruct (FsUtils.walk true r (segments (directoryPath p1)) w1) as [[d1|e1] w2];
      [|discriminate].
    destruct (FsUtils.walk true r (segments (directoryPath p2)) w1) as [[d2|e2] w3];
      [|discriminate].
    intros H1 H2. inversion H1; subst. inversion H2. congruence.
Qed.

(** [checkExists] always ends with a boolean, [true] exactly when the leaf
    lookup succeeded. *)
Lemma checkExists_total w path :
  exists b w',
    Fs.checkExists path w = (Ok b, w') /\ (b = true <-> leaf_lookup_succeeds w path).
Proof.
  rewrite checkExists_eq. unfold leaf_lookup_succeeds.
  destruct (FsUtils.getDirectoryAndFileName path w) as [[[d n]|e] w1] eqn:Hres.
  - destruct (Opfs.getFileHandle d n false w1) as [[fh|e] w2] eqn:Hget.
    + exists true, w2. split; [reflexivity|]. split; [|reflexivity].
      intros _. exists d, n, w1, fh, w2. auto.
    + exists false, w2. split; [reflexivity|]. split; [discriminate|].
      intros (d' & n' & w1' & fh & w2' & Hr & Hg). congruence.
  - exists false, w1. split; [reflexivity|]. split; [discriminate|].
    intros (d' & n' & w1' & fh & w2' & Hr & Hg). congruence.
Qed.

(** C7.  [exists(path)] always yields a boolean: the promise resolves (it
    never rejects) or the callback gets the boolean, and the boolean is
    [true] exactly when the path resolves and the leaf lookup succeeds; a
    failure of the root initialisation, of the resolution or of the lookup
    gives [false]. *)
Theorem exists_never_fails (w : world) (path : jsstring) :
  exists b w',
    Fs.checkExists path w = (Ok b, w')
    /\ Fs.exists_ path None w = (Fs.Outcome (Some (Fs.Resolved (Fs.VBoolean b))) [], w')
    /\ (forall cb,
          Fs.exists_ path (Some cb) w = (Fs.Outcome None [Fs.Call cb [Fs.VBoolean b]], w'))
    /\ (b = true <-> leaf_lookup_succeeds w path).
Proof.
  destruct (checkExists_total w path) as (b & w' & Hc & Hb). exists b, w'.
  split; [exact Hc|]. split; [|split; [|exact Hb]].
  - rewrite exists_eq, Hc. reflexivity.
  - intros cb. rewrite exists_eq, Hc. reflexivity.
Qed.

(** C10.  Where the segments of the path lead to a directory, [exists]
    answers [false]: it asks the parent for a file handle only. *)
Theorem exists_false_on_directory (w : world) (path : jsstring) :
  rootDirectory w = None \/ rootDirectory w = Some [] ->
  directory_at w (segments path) ->
  exists w',
    Fs.exists_ path None w = (Fs.Outcome (Some (Fs.Resolved (Fs.VBoolean false))) [], w')
    /\ (forall cb,
          Fs.exists_ path (Some cb) w
          = (Fs.Outcome None [Fs.Call cb [Fs.VBoolean false]], w')).
Proof.
  intros Hroot Hdir.
  destruct (checkExists_directory w path Hroot Hdir) as [w' Hc].
  exists w'. split; [|intros cb]; rewrite exists_eq, Hc; reflexivity.
Qed.

(** ** writeFile *)

Lemma prefix_snoc_ne (pre l : list (list Z)) (x : list Z) :
  pre `prefix_of` l -> pre <> l ++ [x].
Proof.
  intros Hpre ->. apply prefix_length in Hpre. rewrite length_app in Hpre. cbn in Hpre. lia.
Qed.

(** The file handle of a valid name under a directory, created when
    missing, provided no directory has that name. *)
Lemma getFileHandle_create d n w :
  Opfs.valid_file_name n = true ->
  Opfs.is_directory w d = true ->
  entries w !! (d ++ [n]) <> Some Directory ->
  exists w',
    Opfs.getFileHandle d n true w = (Ok (d ++ [n]), w')
    /\ (exists old, entries w' !! (d ++ [n]) = Some (File old))
    /\ (forall k, k <> d ++ [n] -> entries w' !! k = entries w !! k).
Proof.
  intros Hn Hd Hfree. unfold Opfs.getFileHandle. rewrite Hn, Hd. cbn [negb].
  destruct (entries w !! (d ++ [n])) as [[old|]|] eqn:Hl; [|contradiction|].
  - exists w. eauto.
  - eexists. split; [reflexivity|]. cbn. split.
    + exists []. apply lookup_insert_eq.
    + intros k Hk. apply lookup_insert_ne. congruence.
Qed.

Lemma writeFileAsync_eq path data encoding w :
  Fs.writeFileAsync path data encoding w =
    match FsUtils.getDirectoryAndFileName path w with
    | (Ok (d, n), w1) =>
        match Opfs.getFileHandle d n true w1 with
        | (Ok fh, w2) =>
            match Opfs.createWritable fh w2 with
            | (Ok stream, w3) =>
                match payload data encoding with
                | Ok b =>
                    (Ok tt, set_entries (insert (Opfs.target stream)
                                           (File (Opfs.written stream ++ b))) w3)
                | Throw e => (Throw (Fs.wrap "Error writing file: " e), w3)
                end
            | (Throw e, w3) => (Throw (Fs.wrap "Error writing file: " e), w3)
            end
        | (Throw e, w2) => (Throw (Fs.wrap "Error writing file: " e), w2)
        end
    | (Throw e, w1) => (Throw (Fs.wrap "Error writing file: " e), w1)
    end.
Proof.
  unfold Fs.writeFileAsync, try_catch, bind, throw.
  destruct (FsUtils.getDirectoryAndFileName path w) as [[[d n]|e] w1]; [|reflexivity].
  destruct (Opfs.getFileHandle d n true w1) as [[fh|e] w2]; [|reflexivity].
  destruct (Opfs.createWritable fh w2) as [[stream|e] w3]; [|reflexivity].
  unfold payload. destruct data as [s|b].
  - destruct (bool_decide (encoding = Fs.base64)).
    + unfold bind, lift. destruct (Buffer.from (Buffer.FromString s) (Some Fs.base64)); reflexivity.
    + reflexivity.
  - reflexivity.
Qed.

(** C1, as amended.  [writeFile] does not fail on a parent directory that
    was never created: it resolves the parent with [create] set.  When the
    backend is available, the segments are valid names, no file stands where
    a directory has to be and no directory where the file has to be, the
    call succeeds, leaves a directory at every segment of the parent path
    (missing ones are created) and the data in the file. *)
Theorem writeFile_creates_missing_parents
    (w : world) (path : jsstring) (data : Fs.write_data) (encoding : jsstring)
    (content : bytes) :
  available w -> valid_segments path -> Js.truthy (leaf path) = true ->
  no_file_on w (segments (directoryPath path)) ->
  entries w !! segments path <> Some Directory ->
  payload data encoding = Ok content ->
  exists w',
    (forall options callback cb,
       Fs.normalize_write options callback = (encoding, cb) ->
       Fs.writeFile path data options callback w = (finished cb, w'))
    /\ (forall pre, pre <> [] -> pre `prefix_of` segments (directoryPath path) ->
          entries w' !! pre = Some Directory)
    /\ entries w' !! segments path = Some (File content).
Proof.
  intros Hav Hvalid Hleaf Hfree Hnodir Hpay.
  unfold valid_segments in Hvalid. rewrite segments_leaf, Hleaf in Hvalid, Hnodir.
  apply Forall_app in Hvalid as [Hvd Hvl]. inversion Hvl as [|? ? Hvn _]; subst.
  destruct (available_root w Hav) as (w1 & Hroot & Hent).
  destruct (walk_create (segments (directoryPath path)) [] w1 Hvd eq_refl)
    as (w2 & Hwalk & Hdirs & Hmin).
  { intros pre d _ Hpre. rewrite Hent. apply Hfree, Hpre. }
  cbn [app] in Hwalk, Hdirs, Hmin.
  destruct (getFileHandle_create (segments (directoryPath path)) (leaf path) w2 Hvn)
    as (w3 & Hget & [old Hold] & Hsame).
  { destruct (segments (directoryPath path)) as [|s l] eqn:Hs; [reflexivity|].
    apply is_directory_lookup, Hdirs; [discriminate | reflexivity]. }
  { intros Hl. apply Hmin in Hl as [Hl|(_ & pre & _ & Hpre & Heq)].
    - rewrite Hent in Hl. contradiction.
    - symmetry in Heq. revert Heq. apply prefix_snoc_ne, Hpre. }
  eexists. split; [|split].
  - intros options callback cb Hn. unfold Fs.writeFile. rewrite Hn.
    rewrite writeFileAsync_eq, getDirectoryAndFileName_eq, Hroot, Hwalk, Hget.
    unfold Opfs.createWritable. rewrite Hold, Hpay. destruct cb; reflexivity.
  - intros pre Hne Hpre. cbn. rewrite lookup_insert_ne.
    + rewrite Hsame; [apply Hdirs; assumption|]. apply prefix_snoc_ne, Hpre.
    + intros Heq. symmetry in Heq. revert Heq. apply prefix_snoc_ne, Hpre.
  - rewrite segments_leaf, Hleaf. cbn. apply lookup_insert_eq.
Qed.

(** ** Callbacks *)

Lemma reports_with A (task : M A) to_value fallback cb w on_ok on_error :
  (forall a, exists c, on_ok a = [c] /\ Fs.callee c = cb
                       /\ Fs.arg 0 c = Fs.VNull /\ Fs.arg 1 c = to_value a) ->
  (forall e, exists c, on_error e = [c] /\ Fs.callee c = cb
                       /\ Fs.arg 0 c = Fs.VError e /\ Fs.arg 1 c = fallback) ->
  reports task to_value fallback cb w
    (let '(r, w') := task w in (Fs.Outcome None (Fs.then_catch r on_ok on_error), w')).
Proof.
  intros Hok Herr. unfold reports, node_convention.
  destruct (task w) as [[a|e] w']; cbn.
  - destruct (Hok a) as (c & -> & Hc & H0 & H1). eauto 10.
  - destruct (Herr e) as (c & -> & Hc & H0 & H1). eauto 10.
Qed.

(** C2, as amended.  readFile, writeFile, unlink, mkdir and readdir called
    with a completion callback return nothing and call it once, with
    [(null, result)] on success and [(error, fallback)] on failure, the
    fallback being the empty string for readFile, the empty array for
    readdir and [undefined] for the others.  [exists] is different: its
    callback gets the boolean as its only argument, and never an error. *)
Theorem callbacks_follow_node_convention (w : world) (path : jsstring) (cb : Fs.fn) :
  (forall options callback encoding,
     Fs.normalize_read options callback = (encoding, Some cb) ->
     reports (Fs.readFileAsync path encoding) id (Fs.VString []) cb w
       (Fs.readFile path options callback w))
  /\ (forall data options callback encoding,
        Fs.normalize_write options callback = (encoding, Some cb) ->
        reports (Fs.writeFileAsync path data encoding) (fun _ => Fs.VUndefined)
          Fs.VUndefined cb w (Fs.writeFile path data options callback w))
  /\ reports (Fs.unlinkFile path) (fun _ => Fs.VUndefined) Fs.VUndefined cb w
       (Fs.unlink path (Some cb) w)
  /\ (forall options callback r,
        Fs.normalize_mkdir options callback = (r, Some cb) ->
        reports (Fs.createDir path) (fun _ => Fs.VUndefined) Fs.VUndefined cb w
          (Fs.mkdir path options callback w))
  /\ (forall options callback,
        Fs.normalize_readdir options callback = Some cb ->
        reports (Fs.readDirectory path) Fs.VStrings (Fs.VStrings []) cb w
          (Fs.readdir path options callback w))
  /\ (exists b w',
        Fs.checkExists path w = (Ok b, w')
        /\ Fs.exists_ path (Some cb) w
           = (Fs.Outcome None [Fs.Call cb [Fs.VBoolean b]], w')).
Proof.
  split; [|split; [|split; [|split; [|split]]]].
  - intros options callback encoding Hn. unfold Fs.readFile. rewrite Hn.
    apply reports_with; intros; eexists; repeat split.
  - intros data options callback encoding Hn. unfold Fs.writeFile. rewrite Hn.
    apply reports_with; intros; eexists; repeat split.
  - unfold Fs.unlink. apply reports_with; intros; eexists; repeat split.
  - intros options callback r Hn. unfold Fs.mkdir. rewrite Hn.
    apply reports_with; intros; eexists; repeat split.
  - intros options callback Hn. unfold Fs.readdir. rewrite Hn.
    apply reports_with; intros; eexists; repeat split.
  - destruct (checkExists_total w path) as (b & w' & Hc & _).
    exists b, w'. split; [exact Hc|]. rewrite exists_eq, Hc. reflexivity.
Qed.

(** ** Several initialisations in flight *)

Local Open Scope nat_scope.

Lemma count_insert P (l : list InitRace.pc) : forall i p q,
  l !! i = Some p ->
  count P (<[i := q]> l) + flag (P p) = count P l + flag (P q).
Proof.
  unfold count, flag. induction l as [|x l IH]; intros i p q Hi; [discriminate|].
  destruct i as [|i]; simpl in Hi |- *.
  - inversion Hi; subst. destruct (P p), (P q); simpl; lia.
  - specialize (IH i p q Hi). destruct (P x); simpl; lia.
Qed.

Lemma step_invariant i s : race_invariant s -> race_invariant (InitRace.step i s).
Proof.
  intros (Hreq & Hle & Hroot). unfold InitRace.step.
  destruct (InitRace.tasks s !! i) as [p|] eqn:Hi; [|repeat split; assumption].
  pose proof (fun q => count_insert InitRace.waiting _ i _ q Hi) as Hw.
  pose proof (fun q => count_insert starting _ i _ q Hi) as Hs.
  destruct p; [| | repeat split; assumption | repeat split; assumption].
  - destruct (InitRace.supported s); cbn [negb].
    + destruct (InitRace.root s) eqn:Hr.
      * specialize (Hw InitRace.Done). specialize (Hs InitRace.Done).
        unfold race_invariant, InitRace.with_task.
        cbn [InitRace.requests InitRace.assignments InitRace.tasks InitRace.root].
        rewrite length_insert. cbn in Hw, Hs.
        repeat split; [lia | lia | congruence].
      * specialize (Hw (InitRace.Waiting (InitRace.requests s))).
        specialize (Hs (InitRace.Waiting (InitRace.requests s))).
        unfold race_invariant.
        cbn [InitRace.requests InitRace.assignments InitRace.tasks InitRace.root].
        rewrite length_insert. cbn in Hw, Hs.
        repeat split; [lia | lia | congruence].
    + specialize (Hw InitRace.Failed). specialize (Hs InitRace.Failed).
      unfold race_invariant, InitRace.with_task.
      cbn [InitRace.requests InitRace.assignments InitRace.tasks InitRace.root].
      rewrite length_insert. cbn in Hw, Hs.
      repeat split; [lia | lia | exact Hroot].
  - specialize (Hw InitRace.Done). specialize (Hs InitRace.Done).
    unfold race_invariant.
    cbn [InitRace.requests InitRace.assignments InitRace.tasks InitRace.root].
    rewrite length_insert, length_app, last_snoc. cbn in Hw, Hs |- *.
    repeat split; lia.
Qed.

Lemma run_invariant schedule : forall s,
  race_invariant s -> race_invariant (InitRace.run schedule s).
Proof.
  unfold InitRace.run. induction schedule as [|i schedule IH]; intros s Hs; [exact Hs|].
  cbn [fold_left]. apply IH, step_invariant, Hs.
Qed.

Lemma initial_invariant n : race_invariant (InitRace.initial n).
Proof.
  assert (H1 : List.filter InitRace.waiting (repeat InitRace.Start n) = []).
  { induction n as [|n IH]; simpl; [reflexivity | exact IH]. }
  assert (H2 : List.filter starting (repeat InitRace.Start n) = repeat InitRace.Start n).
  { clear H1. induction n as [|n IH]; simpl; [reflexivity | rewrite IH; reflexivity]. }
  unfold race_invariant, InitRace.initial, count.
  cbn [InitRace.requests InitRace.assignments InitRace.tasks InitRace.root].
  rewrite H1, H2, repeat_length. simpl. repeat split; lia.
Qed.

Lemma length_step i s : length (InitRace.tasks (InitRace.step i s)) = length (InitRace.tasks s).
Proof.
  unfold InitRace.step. destruct (InitRace.tasks s !! i) as [[| | |]|]; try reflexivity.
  - destruct (InitRace.supported s); cbn; [destruct (InitRace.root s); cbn|]; apply length_insert.
  - cbn. apply length_insert.
Qed.

Lemma length_run schedule : forall s,
  length (InitRace.tasks (InitRace.run schedule s)) = length (InitRace.tasks s).
Proof.
  unfold InitRace.run. induction schedule as [|i schedule IH]; intros s; [reflexivity|].
  cbn [fold_left]. rewrite IH. apply length_step.
Qed.

(** When [k] calls all reach their [await] before any request resolves,
    each has made its own request. *)
Lemma all_start j : forall k, j <= k ->
  InitRace.run (seq 0 j) (InitRace.initial k)
  = InitRace.State true None j []
      (map InitRace.Waiting (seq 0 j) ++ repeat InitRace.Start (k - j)).
Proof.
  induction j as [|j IH]; intros k Hle.
  - cbn. rewrite Nat.sub_0_r. reflexivity.
  - rewrite seq_S. unfold InitRace.run in *. rewrite fold_left_app, IH by lia. cbn [fold_left Nat.add].
    unfold InitRace.step. cbn [InitRace.tasks InitRace.supported InitRace.root InitRace.requests InitRace.assignments negb].
    assert (Hlen : length (map InitRace.Waiting (seq 0 j)) = j) by (rewrite length_map, length_seq; reflexivity).
    replace (k - j) with (S (k - S j)) by lia. cbn [repeat].
    rewrite lookup_app_r by lia. rewrite Hlen, Nat.sub_diag. cbn [lookup list_lookup].
    f_equal. rewrite insert_app_r_alt by lia. rewrite Hlen, Nat.sub_diag. cbn.
    rewrite map_app. cbn. rewrite <- app_assoc. reflexivity.
Qed.

(** And when the requests then resolve in turn, each call assigns the root. *)
Lemma all_resume j : forall k ended,
  j <= k -> length ended = k - j ->
  InitRace.run (seq (k - j) j)
    (InitRace.State true (last (seq 0 (k - j))) k (seq 0 (k - j))
       (ended ++ map InitRace.Waiting (seq (k - j) j)))
  = InitRace.State true (last (seq 0 k)) k (seq 0 k)
      (ended ++ repeat InitRace.Done j).
Proof.
  induction j as [|j IH]; intros k ended Hle Hlen.
  - cbn. rewrite Nat.sub_0_r. reflexivity.
  - cbn [seq map]. unfold InitRace.run in *. cbn [fold_left].
    unfold InitRace.step at 2. cbn [InitRace.tasks InitRace.supported InitRace.root InitRace.requests InitRace.assignments].
    rewrite lookup_app_r by lia. rewrite Hlen, Nat.sub_diag. cbn [lookup list_lookup].
    rewrite insert_app_r_alt by lia. rewrite Hlen, Nat.sub_diag. cbn [insert list_insert].
    replace (S (k - S j)) with (k - j) by lia.
    replace (seq 0 (k - S j) ++ [k - S j]) with (seq 0 (k - j)).
    2:{ replace (k - j) with (S (k - S j)) by lia. rewrite seq_S. reflexivity. }
    replace (Some (k - S j)) with (last (seq 0 (k - j))).
    2:{ replace (k - j) with (S (k - S j)) by lia. rewrite seq_S, last_snoc. reflexivity. }
    specialize (IH k (ended ++ [InitRace.Done])).
    rewrite <- !app_assoc in IH. cbn [app] in IH. rewrite IH; [reflexivity | lia |].
    rewrite length_app. cbn. lia.
Qed.

(** The calls of a run are those it started with. *)
Lemma requests_bound k schedule :
  InitRace.requests (InitRace.run schedule (InitRace.initial k)) <= k.
Proof.
  pose proof (run_invariant schedule _ (initial_invariant k)) as (_ & Hle & _).
  rewrite length_run in Hle. unfold InitRace.initial in Hle at 2. cbn in Hle.
  rewrite repeat_length in Hle. lia.
Qed.

(** C8, as amended.  [initialize] has no guard: after any schedule of [k]
    calls started on a null root, every request made belongs to one call,
    which assigns the root when its request resolves (requests are the
    assignments made plus the calls still waiting, at most [k]), and the
    root is the last handle assigned.  When the [k] calls all start before a
    request resolves there are [k] requests and [k] assignments.  Only a
    call that starts once the root is set makes no request and leaves the
    root as it is. *)
Theorem initialize_is_not_guarded (k : nat) :
  (forall schedule,
     let s := InitRace.run schedule (InitRace.initial k) in
     InitRace.requests s
       = length (InitRace.assignments s) + count InitRace.waiting (InitRace.tasks s)
     /\ InitRace.requests s <= k
     /\ InitRace.root s = last (InitRace.assignments s))
  /\ InitRace.run (seq 0 k ++ seq 0 k) (InitRace.initial k)
     = InitRace.State true (last (seq 0 k)) k (seq 0 k) (repeat InitRace.Done k)
  /\ (forall s i h,
        InitRace.supported s = true -> InitRace.root s = Some h ->
        InitRace.tasks s !! i = Some InitRace.Start ->
        InitRace.step i s = InitRace.with_task i InitRace.Done s).
Proof.
  split; [|split].
  - intros schedule s. subst s.
    pose proof (run_invariant schedule _ (initial_invariant k)) as (Hreq & _ & Hroot).
    split; [exact Hreq|]. split; [apply requests_bound | exact Hroot].
  - unfold InitRace.run. rewrite fold_left_app. fold (InitRace.run (seq 0 k) (InitRace.initial k)).
    rewrite all_start by lia. rewrite Nat.sub_diag, app_nil_r.
    pose proof (all_resume k k [] (le_n k)) as H. rewrite Nat.sub_diag in H.
    cbn [seq last app] in H. apply H. reflexivity.
  - intros s i h Hsup Hroot Hi. unfold InitRace.step. rewrite Hi, Hsup, Hroot. reflexivity.
Qed.

Local Close Scope nat_scope.

(** ** Buffers *)

(** The object-style [toString] decodes as UTF-8 under every encoding name
    but [base64], and does not fail, whatever the engine. *)
Lemma toString_other_encodings (limit : Z) (buffer : Buffer.t)
    (encoding : option jsstring) :
  encoding <> Some (Js.lit "base64") ->
  Buffer.toString limit buffer encoding
  = Ok (Text.TextDecoder_decode (Buffer.contents buffer)).
Proof.
  intros Hne. unfold Buffer.toString.
  destruct encoding as [e|].
  - destruct (decide (e = Js.lit "base64")) as [->|]; [contradiction | reflexivity].
  - reflexivity.
Qed.

(** C5, where the code departs from it.  The class-style Buffer hands the
    encoding name to the [TextDecoder] constructor: on the Buffer of
    "Hello World", [toString('invalid_encoding')] throws a RangeError, while
    the object-style Buffer gives the text back, on every engine. *)
Theorem class_toString_rejects_unknown_encoding :
  forall legacy_decode limit,
    BufferClass.toString legacy_decode
      (BufferClass.from (BufferClass.FromString (Js.lit "Hello World")) None)
      (Some (Js.lit "invalid_encoding"))
    = Throw (JsError RangeError (Js.lit
        "Failed to construct 'TextDecoder': The encoding label provided ('invalid_encoding') is invalid."))
    /\ Buffer.toString limit
         (Buffer.Make (Text.TextEncoder_encode (Js.lit "Hello World")))
         (Some (Js.lit "invalid_encoding"))
       = Ok (Js.lit "Hello World").
Proof. intros legacy_decode limit. split; reflexivity. Qed.

(** C6, as stated, fails on a string that begins with U+FEFF. *)
Lemma byte_order_mark_is_lost :
  Js.well_formed [0xFEFF; 0x41] = true
  /\ round_trip (max_arguments fresh) [0xFEFF; 0x41] = Ok [0x41]
  /\ round_trip (max_arguments fresh) [0xFEFF; 0x41] <> Ok [0xFEFF; 0x41].
Proof. split; [reflexivity|]. split; [reflexivity | discriminate]. Qed.

(** C6, as amended.  For a well-formed string, writing it as UTF-8 and
    reading it back gives the string without a leading U+FEFF; so it gives
    the string itself when it does not begin with U+FEFF.  This holds on
    every engine. *)
Theorem utf8_round_trip (limit : Z) (s : jsstring) :
  Js.well_formed s = true ->
  round_trip limit s = Ok (Text.strip_bom s)
  /\ (head s <> Some 0xFEFF -> round_trip limit s = Ok s).
Proof.
  intros Hwf.
  assert (H : round_trip limit s = Ok (Text.strip_bom s)).
  { unfold round_trip, Buffer.from.
    destruct (decide (Some (Js.lit "utf8") = Some (Js.lit "base64"))) as [Heq|_];
      [discriminate Heq|].
    rewrite toString_other_encodings by discriminate.
    cbn [Buffer.contents]. rewrite TextDecoder_TextEncoder by exact Hwf. reflexivity. }
  split; [exact H|]. intros Hhead. rewrite H. f_equal.
  destruct s as [|c rest]; [reflexivity|]. cbn [Text.strip_bom].
  destruct (Z.eqb_spec c 0xFEFF) as [->|_]; [|reflexivity]. contradiction Hhead. reflexivity.
Qed.

Lemma utf8_round_trip_witness :
  Js.well_formed sample_text = true
  /\ round_trip (max_arguments fresh) sample_text = Ok sample_text.
Proof.
  split; [reflexivity|].
  apply (utf8_round_trip (max_arguments fresh) sample_text); [reflexivity | discriminate].
Defined.

(** ** The constants *)

(** C9, where the code departs from it.  The table has the four access
    modes with their values, and none of the open flags: reading one of them
    gives [undefined]. *)
Theorem constants_lack_open_flags :
  Fs.constant "F_OK" = Some 0 /\ Fs.constant "R_OK" = Some 4
  /\ Fs.constant "W_OK" = Some 2 /\ Fs.constant "X_OK" = Some 1
  /\ Fs.constant "O_RDONLY" = None /\ Fs.constant "O_WRONLY" = None
  /\ Fs.constant "O_RDWR" = None /\ Fs.constant "O_CREAT" = None
  /\ Fs.constant "O_EXCL" = None /\ Fs.constant "O_TRUNC" = None
  /\ Fs.constant "O_APPEND" = None.
Proof. repeat split; reflexivity. Qed.

(** ** The claims at concrete inputs *)

(** C1, as stated, fails: on a fresh origin, where [/no-such-dir] was never
    created, [writeFile('/no-such-dir/file.txt', 'x')] resolves, and the
    directory is there afterwards. *)
Lemma writeFile_into_missing_directory_resolves :
  let call :=
    Fs.writeFile (Js.lit "/no-such-dir/file.txt") (Fs.DataString (Js.lit "x"))
      Fs.WriteAbsent None fresh in
  entries fresh !! [Js.lit "no-such-dir"] = None
  /\ fst call = Fs.Outcome (Some (Fs.Resolved Fs.VUndefined)) []
  /\ entries (snd call) !! [Js.lit "no-such-dir"] = Some Directory.
Proof. repeat split; reflexivity. Qed.

Lemma writeFile_creates_missing_parents_witness :
  entries fresh !! [Js.lit "no-such-dir"] = None
  /\ exists w',
       Fs.writeFile (Js.lit "/no-such-dir/file.txt") (Fs.DataString (Js.lit "x"))
         Fs.WriteAbsent None fresh
       = (Fs.Outcome (Some (Fs.Resolved Fs.VUndefined)) [], w')
       /\ entries w' !! [Js.lit "no-such-dir"] = Some Directory
       /\ entries w' !! [Js.lit "no-such-dir"; Js.lit "file.txt"] = Some (File (Js.lit "x")).
Proof.
  split; [reflexivity|].
  destruct (writeFile_creates_missing_parents fresh (Js.lit "/no-such-dir/file.txt")
              (Fs.DataString (Js.lit "x")) Fs.utf8 (Js.lit "x"))
    as (w' & Hcall & Hdirs & Hfile).
  - left. repeat split; reflexivity.
  - unfold valid_segments. vm_compute. repeat constructor.
  - reflexivity.
  - intros pre data _. unfold fresh. cbn [entries]. rewrite lookup_empty. discriminate.
  - unfold fresh. cbn [entries]. rewrite lookup_empty. discriminate.
  - reflexivity.
  - exists w'. split; [apply (Hcall Fs.WriteAbsent None None); reflexivity|].
    split; [|exact Hfile]. apply Hdirs; [discriminate|]. reflexivity.
Defined.

(** C2, as stated, fails for [exists]: the task ends well with [false], and
    the callback gets [false] where the convention has [null]. *)
Lemma exists_callback_gets_the_boolean :
  fst (Fs.checkExists (Js.lit "/a.txt") fresh) = Ok false
  /\ Fs.calls (fst (Fs.exists_ (Js.lit "/a.txt") (Some 0%nat) fresh))
     = [Fs.Call 0%nat [Fs.VBoolean false]]
  /\ ~ (exists fallback,
          reports (Fs.checkExists (Js.lit "/a.txt")) Fs.VBoolean fallback 0%nat fresh
            (Fs.exists_ (Js.lit "/a.txt") (Some 0%nat) fresh)).
Proof.
  split; [reflexivity|]. split; [reflexivity|].
  intros (fallback & _ & _ & c & Hc & _ & Hnull & _).
  vm_compute in Hc. inversion Hc; subst. discriminate Hnull.
Qed.

Lemma callbacks_follow_node_convention_witness :
  Fs.normalize_read (Fs.ReadFunction 7%nat) None = (Fs.utf8, Some 7%nat)
  /\ reports (Fs.readFileAsync (Js.lit "/a.txt") Fs.utf8) id (Fs.VString []) 7%nat fresh
       (Fs.readFile (Js.lit "/a.txt") (Fs.ReadFunction 7%nat) None fresh).
Proof.
  split; [reflexivity|].
  apply (proj1 (callbacks_follow_node_convention fresh (Js.lit "/a.txt") 7%nat)).
  reflexivity.
Defined.

(** C3, as stated, fails on a path with a segment the backend refuses:
    [mkdir('/x/../y', { recursive: true })] rejects with the wrapped
    TypeError, and has created [/x] only. *)
Lemma mkdir_stops_at_a_refused_segment :
  let call :=
    Fs.mkdir (Js.lit "/x/../y") (Fs.MkdirObject (Fs.Build_MkdirOptions (Some true) None))
      None in
  available fresh
  /\ segments (Js.lit "/x/../y") = [Js.lit "x"; Js.lit ".."; Js.lit "y"]
  /\ fst (call fresh)
     = Fs.Outcome (Some (Fs.Rejected (Fs.wrap "Error creating directory: " Opfs.not_allowed)))
         []
  /\ entries (snd (call fresh)) !! [Js.lit "x"] = Some Directory
  /\ entries (snd (call fresh)) !! [Js.lit "x"; Js.lit ".."] = None
  /\ entries (snd (call fresh)) !! [Js.lit "x"; Js.lit ".."; Js.lit "y"] = None.
Proof.
  split; [left; repeat split; reflexivity|]. repeat split; reflexivity.
Qed.

Lemma mkdir_creates_every_segment_witness :
  available fresh /\ valid_segments (Js.lit "/a/b")
  /\ no_file_on fresh (segments (Js.lit "/a/b"))
  /\ exists w',
       Fs.mkdir (Js.lit "/a/b") (Fs.MkdirObject (Fs.Build_MkdirOptions (Some false) None))
         None fresh
       = (Fs.Outcome (Some (Fs.Resolved Fs.VUndefined)) [], w')
       /\ entries w' !! [Js.lit "a"] = Some Directory
       /\ entries w' !! [Js.lit "a"; Js.lit "b"] = Some Directory.
Proof.
  assert (Hav : available fresh) by (left; repeat split; reflexivity).
  assert (Hvalid : valid_segments (Js.lit "/a/b"))
    by (unfold valid_segments; vm_compute; repeat constructor).
  assert (Hfree : no_file_on fresh (segments (Js.lit "/a/b")))
    by (intros pre data _; unfold fresh; cbn [entries]; rewrite lookup_empty; discriminate).
  split; [exact Hav|]. split; [exact Hvalid|]. split; [exact Hfree|].
  destruct (proj2 (mkdir_creates_every_segment fresh (Js.lit "/a/b")) Hav Hvalid Hfree)
    as (w' & Hcall & Hdirs & _).
  exists w'. split; [apply (Hcall _ None)|].
  split; apply Hdirs; try discriminate.
  - exists [Js.lit "b"]. reflexivity.
  - reflexivity.
Defined.

(** C4, as stated, fails for a trailing slash: the same segments, another
    parent and another leaf. *)
Lemma trailing_slash_resolves_differently :
  segments (Js.lit "/a/b.txt/") = segments (Js.lit "/a/b.txt")
  /\ fst (FsUtils.getDirectoryAndFileName (Js.lit "/a/b.txt/") fresh)
     = Ok ([Js.lit "a"; Js.lit "b.txt"], Js.lit "")
  /\ fst (FsUtils.getDirectoryAndFileName (Js.lit "/a/b.txt") fresh)
     = Ok ([Js.lit "a"], Js.lit "b.txt").
Proof. repeat split; reflexivity. Qed.

Lemma resolution_ignores_repeated_slashes_witness :
  segments (Js.lit "/a//b.txt") = segments (Js.lit "/a/b.txt")
  /\ leaf (Js.lit "/a//b.txt") = leaf (Js.lit "/a/b.txt")
  /\ FsUtils.getDirectoryAndFileName (Js.lit "/a//b.txt") fresh
     = FsUtils.getDirectoryAndFileName (Js.lit "/a/b.txt") fresh
  /\ segments (Js.lit "/a//b/") = segments (Js.lit "/a/b")
  /\ Fs.mkdir (Js.lit "/a//b/") Fs.MkdirAbsent None fresh
     = Fs.mkdir (Js.lit "/a/b") Fs.MkdirAbsent None fresh.
Proof.
  split; [reflexivity|]. split; [reflexivity|].
  destruct (resolution_ignores_repeated_slashes fresh (Js.lit "/a//b.txt")
              (Js.lit "/a/b.txt") eq_refl) as (_ & _ & _ & Hfile & _).
  destruct (resolution_ignores_repeated_slashes fresh (Js.lit "/a//b/")
              (Js.lit "/a/b") eq_refl) as (_ & Hmkdir & _).
  split; [exact (proj1 (Hfile eq_refl))|]. split; [reflexivity|].
  exact (Hmkdir Fs.MkdirAbsent None).
Defined.

(** C8, as stated, fails with two calls: both find the root null, both ask
    for it, and the root is assigned twice, to two handle objects. *)
Lemma two_resolutions_two_requests :
  let s := InitRace.run [0; 1; 0; 1]%nat (InitRace.initial 2) in
  InitRace.requests s = 2%nat
  /\ InitRace.assignments s = [0; 1]%nat
  /\ InitRace.root s = Some 1%nat.
Proof. repeat split; reflexivity. Qed.

Lemma initialize_is_not_guarded_witness :
  InitRace.supported resolved_once = true
  /\ InitRace.root resolved_once = Some 0%nat
  /\ InitRace.tasks resolved_once !! 1%nat = Some InitRace.Start
  /\ InitRace.step 1 resolved_once
     = InitRace.State true (Some 0%nat) 1 [0%nat] [InitRace.Done; InitRace.Done].
Proof.
  split; [reflexivity|]. split; [reflexivity|]. split; [reflexivity|].
  rewrite (proj2 (proj2 (initialize_is_not_guarded 2)) resolved_once 1%nat 0%nat);
    reflexivity.
Defined.

Lemma exists_false_on_directory_witness :
  rootDirectory with_directory = None
  /\ directory_at with_directory (segments (Js.lit "/a"))
  /\ fst (Fs.exists_ (Js.lit "/a") None with_directory)
     = Fs.Outcome (Some (Fs.Resolved (Fs.VBoolean false))) [].
Proof.
  split; [reflexivity|].
  assert (Hdir : directory_at with_directory (segments (Js.lit "/a")))
    by (right; reflexivity).
  split; [exact Hdir|].
  destruct (exists_false_on_directory with_directory (Js.lit "/a") (or_introl eq_refl) Hdir)
    as (w' & -> & _).
  reflexivity.
Defined.

(** ** The model on the inputs of the repository's tests *)

Example split_repeated_slash :
  Js.split Js.slash (Js.lit "/a//b.txt") = [Js.lit ""; Js.lit "a"; Js.lit ""; Js.lit "b.txt"].
Proof. reflexivity. Qed.

Example encode_multibyte :
  Text.TextEncoder_encode sample_text = [0x48; 0xE6; 0x97; 0xA5; 0xF0; 0x9F; 0x9A; 0x80].
Proof. reflexivity. Qed.

Example decode_replaces_errors :
  Text.TextDecoder_decode [0xE6; 0x41; 0xFF; 0xC0; 0x80]
  = [0xFFFD; 0x41; 0xFFFD; 0xFFFD; 0xFFFD].
Proof. reflexivity. Qed.

Example buffer_to_base64 :
  Buffer.toString (max_arguments fresh)
    (Buffer.Make (Text.TextEncoder_encode (Js.lit "Hello World")))
    (Some (Js.lit "base64"))
  = Ok (Js.lit "SGVsbG8gV29ybGQ=").
Proof. reflexivity. Qed.

(** More bytes than the engine takes arguments: the spread throws. *)
Example buffer_to_base64_too_long :
  Buffer.toString 2 (Buffer.Make [0x68; 0x69; 0x21]) (Some (Js.lit "base64"))
  = Throw Buffer.too_many_arguments
  /\ Buffer.toString 2 (Buffer.Make [0x68; 0x69; 0x21]) (Some (Js.lit "utf8"))
     = Ok (Js.lit "hi!").
Proof. split; reflexivity. Qed.

Example buffer_from_base64 :
  Buffer.from (Buffer.FromString (Js.lit "SGVsbG8gV29ybGQ=")) (Some (Js.lit "base64"))
  = Ok (Buffer.Make (Js.lit "Hello World")).
Proof. reflexivity. Qed.

Example buffer_from_array_like :
  Buffer.from (Buffer.FromArrayLike [72; 105; 256 + 33]) None = Ok (Buffer.Make [72; 105; 33]).
Proof. reflexivity. Qed.

Example atob_rejects_bad_length :
  exists e, Base64.atob (Js.lit "Y") = Throw e.
Proof. eexists. reflexivity. Qed.

(** Existence after write, and reading back. *)
Example exists_before_and_after_write :
  let path := Js.lit "/c-0.txt" in
  let w := snd (Fs.writeFile path (Fs.DataString (Js.lit "Content for file 0"))
                  Fs.WriteAbsent None fresh) in
  fst (Fs.exists_ path None fresh) = Fs.Outcome (Some (Fs.Resolved (Fs.VBoolean false))) []
  /\ fst (Fs.exists_ path None w) = Fs.Outcome (Some (Fs.Resolved (Fs.VBoolean true))) []
  /\ fst (Fs.readFile path (Fs.ReadString (Js.lit "utf8")) None w)
     = Fs.Outcome (Some (Fs.Resolved (Fs.VString (Js.lit "Content for file 0")))) [].
Proof. repeat split; reflexivity. Qed.

(** A file that is not there: the promise rejects with the wrapped message,
    the callback gets the error and the empty string. *)
Example readFile_missing :
  fst (Fs.readFile (Js.lit "/non-existent-file.txt") Fs.ReadAbsent None fresh)
  = Fs.Outcome (Some (Fs.Rejected (JsError Error
      (Js.lit "Error reading file: " ++ err_message Opfs.not_found)))) []
  /\ fst (Fs.readFile (Js.lit "/non-existent-file.txt") (Fs.ReadFunction 3%nat) None fresh)
     = Fs.Outcome None [Fs.Call 3%nat
         [Fs.VError (JsError Error (Js.lit "Error reading file: " ++ err_message Opfs.not_found));
          Fs.VString []]].
Proof. split; reflexivity. Qed.

(** Creating a directory twice, then listing its parent. *)
Example mkdir_twice_then_readdir :
  let w1 := snd (Fs.mkdir (Js.lit "/level1/level2") Fs.MkdirAbsent None fresh) in
  let w2 := snd (Fs.mkdir (Js.lit "/level1/level2") Fs.MkdirAbsent None w1) in
  entries w2 = entries w1
  /\ fst (Fs.mkdir (Js.lit "/level1/level2") Fs.MkdirAbsent None w1)
     = Fs.Outcome (Some (Fs.Resolved Fs.VUndefined)) []
  /\ fst (Fs.readdir (Js.lit "/level1") Fs.ReaddirAbsent None w2)
     = Fs.Outcome (Some (Fs.Resolved (Fs.VStrings [Js.lit "level2"]))) [].
Proof. repeat split; reflexivity. Qed.

(** Without the backend every asynchronous operation fails, except
    [exists], which answers [false]. *)
Example unsupported_browser :
  let w := World false false false None 65536 ∅ None in
  fst (Fs.mkdir (Js.lit "/a") Fs.MkdirAbsent None w)
  = Fs.Outcome (Some (Fs.Rejected (JsError Error
      (Js.lit "Error creating directory: OPFS is not supported in this browser")))) []
  /\ fst (Fs.exists_ (Js.lit "/a") None w)
     = Fs.Outcome (Some (Fs.Resolved (Fs.VBoolean false))) [].
Proof. split; reflexivity. Qed.

(** The class-style Buffer has no Base64: the name is no label of an
    encoding, and [from] does not look at its encoding. *)
Example class_buffer_has_no_base64 :
  forall legacy_decode,
    (exists e, BufferClass.toString legacy_decode
                 (BufferClass.from (BufferClass.FromString (Js.lit "Hello World")) None)
                 (Some (Js.lit "base64")) = Throw e)
    /\ BufferClass.from (BufferClass.FromString (Js.lit "SGVsbG8=")) (Some (Js.lit "base64"))
       = BufferClass.Make (Js.lit "SGVsbG8=").
Proof. intros legacy_decode. split; [eexists|]; reflexivity. Qed.

(** * Further properties *)

(** ** Resolving what is already there *)

Lemma getDirectoryHandle_existing h n create w :
  Opfs.valid_file_name n = true ->
  Opfs.is_directory w h = true ->
  entries w !! (h ++ [n]) = Some Directory ->
  Opfs.getDirectoryHandle h n create w = (Ok (h ++ [n]), w).
Proof.
  intros Hn Hh Hl. unfold Opfs.getDirectoryHandle. rewrite Hn, Hh, Hl. reflexivity.
Qed.

Lemma walk_existing create parts : forall h w,
  Forall (fun n => Opfs.valid_file_name n = true) parts ->
  Opfs.is_directory w h = true ->
  (forall pre, pre <> [] -> pre `prefix_of` parts ->
     entries w !! (h ++ pre) = Some Directory) ->
  FsUtils.walk create h parts w = (Ok (h ++ parts), w).
Proof.
  induction parts as [|part rest IH]; intros h w Hvalid Hh Hdirs; cbn [FsUtils.walk].
  - rewrite app_nil_r. reflexivity.
  - inversion Hvalid as [|? ? Hpart Hrest]; subst.
    assert (Hfirst : entries w !! (h ++ [part]) = Some Directory).
    { apply Hdirs; [discriminate|]. exists rest. reflexivity. }
    unfold bind. rewrite getDirectoryHandle_existing by assumption.
    rewrite IH; [rewrite <- app_assoc; reflexivity | exact Hrest | |].
    + apply is_directory_lookup, Hfirst.
    + intros pre Hne Hpre. rewrite <- app_assoc. apply Hdirs; [discriminate|].
      apply prefix_cons, Hpre.
Qed.

Lemma ensure_root_known w r :
  rootDirectory w = Some r -> FsUtils.ensure_root w = (Ok r, w).
Proof. intros H. rewrite ensure_root_eq, H. reflexivity. Qed.

(** With the parent resolved already, resolution changes nothing. *)
Lemma resolve_existing w path :
  parent_resolved w path ->
  FsUtils.getDirectoryAndFileName path w
  = (Ok (segments (directoryPath path), leaf path), w).
Proof.
  intros (Hroot & Hvalid & Hdirs).
  rewrite getDirectoryAndFileName_eq, (ensure_root_known w [] Hroot).
  rewrite (walk_existing true _ [] w Hvalid eq_refl Hdirs). reflexivity.
Qed.

Lemma getFileHandle_ok d n create w fh w' :
  Opfs.getFileHandle d n create w = (Ok fh, w') ->
  fh = d ++ [n] /\ rootDirectory w' = rootDirectory w
  /\ (exists data, entries w' !! fh = Some (File data)).
Proof.
  unfold Opfs.getFileHandle. intros H.
  destruct (negb (Opfs.valid_file_name n)); [discriminate|].
  destruct (negb (Opfs.is_directory w d)); [discriminate|].
  destruct (entries w !! (d ++ [n])) as [[data|]|] eqn:Hl; [|discriminate|].
  - inversion H; subst. eauto.
  - destruct create; [|discriminate]. inversion H; subst. cbn.
    split; [reflexivity|]. split; [reflexivity|]. exists []. apply lookup_insert_eq.
Qed.

(** ** What a successful write leaves *)

(** The task of [writeFile], under [can_write]: where it ends. *)
Lemma write_effect w path data encoding content :
  can_write w path ->
  payload data encoding = Ok content ->
  exists w',
    Fs.writeFileAsync path data encoding w = (Ok tt, w')
    /\ parent_resolved w' path
    /\ entries w' !! segments path = Some (File content)
    /\ (forall k, k <> segments path ->
          ~ (k <> [] /\ k `prefix_of` segments (directoryPath path)) ->
          entries w' !! k = entries w !! k).
Proof.
  intros (Hav & Hvalid & Hleaf & Hfree & Hnodir) Hpay.
  unfold valid_segments in Hvalid. rewrite segments_leaf, Hleaf in Hvalid, Hnodir.
  apply Forall_app in Hvalid as [Hvd Hvl]. inversion Hvl as [|? ? Hvn _]; subst.
  destruct (available_root w Hav) as (w1 & Hroot & Hent).
  pose proof (ensure_root_ok _ _ _ Hroot) as (Hr1 & _ & _).
  destruct (walk_create (segments (directoryPath path)) [] w1 Hvd eq_refl)
    as (w2 & Hwalk & Hdirs & Hmin).
  { intros pre d _ Hpre. rewrite Hent. apply Hfree, Hpre. }
  pose proof (walk_ok _ _ _ _ _ _ Hwalk) as (_ & Hsub & Hr2).
  cbn [app] in Hwalk, Hdirs, Hmin.
  destruct (getFileHandle_create (segments (directoryPath path)) (leaf path) w2 Hvn)
    as (w3 & Hget & [old Hold] & Hsame).
  { destruct (segments (directoryPath path)) as [|s l] eqn:Hs; [reflexivity|].
    apply is_directory_lookup, Hdirs; [discriminate | reflexivity]. }
  { intros Hl. apply Hmin in Hl as [Hl|(_ & pre & _ & Hpre & Heq)].
    - rewrite Hent in Hl. contradiction.
    - symmetry in Heq. revert Heq. apply prefix_snoc_ne, Hpre. }
  pose proof (getFileHandle_ok _ _ _ _ _ _ Hget) as (_ & Hr3 & _).
  eexists. split; [|split; [|split]].
  - rewrite writeFileAsync_eq, getDirectoryAndFileName_eq, Hroot, Hwalk, Hget.
    unfold Opfs.createWritable. rewrite Hold, Hpay. reflexivity.
  - split; [|split].
    + cbn. rewrite Hr3, Hr2. exact Hr1.
    + exact Hvd.
    + intros pre Hne Hpre. cbn. rewrite lookup_insert_ne.
      * rewrite Hsame; [apply Hdirs; assumption|]. apply prefix_snoc_ne, Hpre.
      * intros Heq. symmetry in Heq. revert Heq. apply prefix_snoc_ne, Hpre.
  - rewrite segments_leaf, Hleaf. cbn. apply lookup_insert_eq.
  - intros k Hk Hnot. rewrite segments_leaf, Hleaf in Hk. cbn.
    rewrite lookup_insert_ne by (intros Heq; apply Hk; symmetry; exact Heq).
    rewrite Hsame by exact Hk.
    rewrite <- Hent.
    destruct (entries w2 !! k) as [v|] eqn:Hk2.
    + apply Hmin in Hk2 as [Hk1|(_ & pre & Hne & Hpre & ->)]; [congruence|].
      exfalso. apply Hnot. auto.
    + destruct (entries w1 !! k) as [v|] eqn:Hk1; [|reflexivity].
      eapply lookup_weaken in Hk1; [|exact Hsub]. congruence.
Qed.

(** After a write the same path can be written again. *)
Lemma can_write_after w path w' content :
  can_write w path ->
  parent_resolved w' path ->
  entries w' !! segments path = Some (File content) ->
  entries w' !! [] = entries w !! [] ->
  can_write w' path.
Proof.
  intros (Hav & Hvalid & Hleaf & Hfree & Hnodir) (Hroot & Hvd & Hdirs) Hfile Hnil.
  split; [right; exact Hroot|]. split; [exact Hvalid|]. split; [exact Hleaf|]. split.
  - intros pre d Hpre Hl. destruct pre as [|p pre].
    + rewrite Hnil in Hl. exact (Hfree [] d (prefix_nil _) Hl).
    + rewrite Hdirs in Hl by (discriminate || exact Hpre). discriminate.
  - rewrite Hfile. discriminate.
Qed.

Lemma segments_path_not_nil path :
  Js.truthy (leaf path) = true -> segments path <> [].
Proof.
  intros Hleaf. rewrite segments_leaf, Hleaf.
  destruct (segments (directoryPath path)); discriminate.
Qed.

(** The two together: a write under [can_write], and what holds after. *)
Lemma write_then w path data encoding content :
  can_write w path ->
  payload data encoding = Ok content ->
  exists w',
    Fs.writeFileAsync path data encoding w = (Ok tt, w')
    /\ parent_resolved w' path
    /\ can_write w' path
    /\ entries w' !! segments path = Some (File content).
Proof.
  intros Hcan Hpay.
  destruct (write_effect w path data encoding content Hcan Hpay)
    as (w' & Hw & Hres & Hfile & Hframe).
  exists w'. split; [exact Hw|]. split; [exact Hres|]. split; [|exact Hfile].
  apply (can_write_after w path w' content Hcan Hres Hfile).
  apply Hframe.
  - intros Heq. symmetry in Heq. revert Heq. apply segments_path_not_nil.
    destruct Hcan as (_ & _ & Hleaf & _). exact Hleaf.
  - intros [Hne _]. contradiction.
Qed.

Lemma writeFile_eq path data w :
  Fs.writeFile path data Fs.WriteAbsent None w =
    match Fs.writeFileAsync path data Fs.utf8 w with
    | (Ok _, w') => (resolves Fs.VUndefined, w')
    | (Throw e, w') => (rejects e, w')
    end.
Proof.
  unfold Fs.writeFile. cbn [Fs.normalize_write].
  destruct (Fs.writeFileAsync path data Fs.utf8 w) as [[u|e] w']; reflexivity.
Qed.

(** ** Reading *)

Lemma readFileAsync_existing w path encoding data :
  parent_resolved w path ->
  Opfs.valid_file_name (leaf path) = true ->
  entries w !! (segments (directoryPath path) ++ [leaf path]) = Some (File data) ->
  Fs.readFileAsync path encoding w =
    (if bool_decide (encoding = Fs.utf8) || bool_decide (encoding = Js.lit "utf-8")
     then Ok (Fs.VString (Text.TextDecoder_decode data))
     else if bool_decide (encoding = Fs.base64)
          then match Buffer.toString (max_arguments w) (Buffer.Make data)
                         (Some Fs.base64) with
               | Ok t => Ok (Fs.VString t)
               | Throw e => Throw (Fs.wrap "Error reading file: " e)
               end
          else Ok (Fs.VBuffer (Buffer.Make data)), w).
Proof.
  intros Hres Hn Hfile.
  assert (Hdir : Opfs.is_directory w (segments (directoryPath path)) = true).
  { destruct Hres as (_ & _ & Hdirs).
    destruct (segments (directoryPath path)) as [|s l] eqn:Hs; [reflexivity|].
    apply is_directory_lookup, Hdirs; [discriminate | reflexivity]. }
  unfold Fs.readFileAsync, try_catch, bind at 1. rewrite (resolve_existing w path Hres).
  unfold bind at 1, Opfs.getFileHandle. rewrite Hn, Hdir, Hfile. cbn [negb].
  unfold bind at 1, Opfs.getFile. rewrite Hfile.
  destruct (bool_decide (encoding = Fs.utf8) || bool_decide (encoding = Js.lit "utf-8")).
  - reflexivity.
  - destruct (bool_decide (encoding = Fs.base64)).
    + unfold bind, Opfs.arrayBuffer, ret, lift, read, Buffer.from.
      destruct (Buffer.toString (max_arguments w) (Buffer.Make data) (Some Fs.base64));
        reflexivity.
    + reflexivity.
Qed.

Lemma leaf_valid path :
  valid_segments path -> Js.truthy (leaf path) = true ->
  Opfs.valid_file_name (leaf path) = true.
Proof.
  unfold valid_segments. intros Hvalid Hleaf. rewrite segments_leaf, Hleaf in Hvalid.
  apply Forall_app in Hvalid as [_ Hvl]. inversion Hvl; assumption.
Qed.

Lemma file_at w path content :
  Js.truthy (leaf path) = true ->
  entries w !! segments path = Some (File content) ->
  entries w !! (segments (directoryPath path) ++ [leaf path]) = Some (File content).
Proof. intros Hleaf H. rewrite segments_leaf, Hleaf in H. exact H. Qed.

Lemma readFile_eq path encoding w :
  Fs.readFile path (Fs.ReadString encoding) None w =
    match Fs.readFileAsync path encoding w with
    | (Ok v, w') => (resolves v, w')
    | (Throw e, w') => (rejects e, w')
    end.
Proof.
  unfold Fs.readFile. cbn [Fs.normalize_read].
  destruct (Fs.readFileAsync path encoding w) as [[v|e] w']; reflexivity.
Qed.

(** ** Writing, then reading *)

(** X1.  Text written with [writeFile] is read back by [readFile] under
    [utf8]: a well-formed string comes back without a leading U+FEFF, hence
    unchanged when it has none. *)
Theorem readFile_after_writeFile_text (w : world) (path s : jsstring) :
  can_write w path -> Js.well_formed s = true ->
  let w' := after (Fs.writeFile path (Fs.DataString s) Fs.WriteAbsent None) w in
  Fs.writeFile path (Fs.DataString s) Fs.WriteAbsent None w
  = (resolves Fs.VUndefined, w')
  /\ Fs.readFile path (Fs.ReadString Fs.utf8) None w'
     = (resolves (Fs.VString (Text.strip_bom s)), w')
  /\ (head s <> Some 0xFEFF ->
      Fs.readFile path (Fs.ReadString Fs.utf8) None w' = (resolves (Fs.VString s), w')).
Proof.
  intros Hcan Hwf w'.
  destruct (write_then w path (Fs.DataString s) Fs.utf8 (Text.TextEncoder_encode s) Hcan eq_refl)
    as (w1 & Hw & Hres & Hcan1 & Hfile).
  assert (Hw' : w' = w1).
  { subst w'. unfold after. rewrite writeFile_eq, Hw. reflexivity. }
  rewrite Hw'. clear w' Hw'.
  destruct Hcan as (_ & Hvalid & Hleaf & _).
  assert (Hread : Fs.readFile path (Fs.ReadString Fs.utf8) None w1
                  = (resolves (Fs.VString (Text.strip_bom s)), w1)).
  { rewrite readFile_eq.
    rewrite (readFileAsync_existing w1 path Fs.utf8 _ Hres (leaf_valid _ Hvalid Hleaf)
               (file_at _ _ _ Hleaf Hfile)).
    cbn [orb bool_decide]. rewrite bool_decide_eq_true_2 by reflexivity. cbn [orb].
    rewrite TextDecoder_TextEncoder by exact Hwf. reflexivity. }
  split; [rewrite writeFile_eq, Hw; reflexivity|]. split; [exact Hread|].
  intros Hhead. rewrite Hread. do 3 f_equal.
  destruct s as [|c rest]; [reflexivity|]. cbn [Text.strip_bom].
  destruct (Z.eqb_spec c 0xFEFF) as [->|_]; [|reflexivity]. contradiction Hhead. reflexivity.
Qed.

(** X2.  Bytes written with [writeFile] are read back exactly by [readFile]
    under any encoding name other than [utf8], [utf-8] and [base64] (so
    under [binary]): the result is a Buffer with the same bytes. *)
Theorem readFile_after_writeFile_bytes (w : world) (path : jsstring) (b : bytes)
    (encoding : jsstring) :
  can_write w path ->
  encoding <> Fs.utf8 -> encoding <> Js.lit "utf-8" -> encoding <> Fs.base64 ->
  let w' := after (Fs.writeFile path (Fs.DataBytes b) Fs.WriteAbsent None) w in
  Fs.readFile path (Fs.ReadString encoding) None w'
  = (resolves (Fs.VBuffer (Buffer.Make b)), w').
Proof.
  intros Hcan H1 H2 H3 w'.
  destruct (write_then w path (Fs.DataBytes b) Fs.utf8 b Hcan eq_refl)
    as (w1 & Hw & Hres & Hcan1 & Hfile).
  assert (Hw' : w' = w1).
  { subst w'. unfold after. rewrite writeFile_eq, Hw. reflexivity. }
  rewrite Hw'. clear w' Hw'.
  destruct Hcan as (_ & Hvalid & Hleaf & _).
  rewrite readFile_eq.
  rewrite (readFileAsync_existing w1 path encoding _ Hres (leaf_valid _ Hvalid Hleaf)
             (file_at _ _ _ Hleaf Hfile)).
  rewrite !bool_decide_eq_false_2 by assumption. reflexivity.
Qed.

(** X3.  [writeFile] replaces the content: after two writes at the same
    path the file holds the second data only. *)
Theorem writeFile_twice_keeps_the_last (w : world) (path : jsstring) (b1 b2 : bytes) :
  can_write w path ->
  let w1 := after (Fs.writeFile path (Fs.DataBytes b1) Fs.WriteAbsent None) w in
  let w2 := after (Fs.writeFile path (Fs.DataBytes b2) Fs.WriteAbsent None) w1 in
  Fs.writeFile path (Fs.DataBytes b2) Fs.WriteAbsent None w1 = (resolves Fs.VUndefined, w2)
  /\ entries w2 !! segments path = Some (File b2).
Proof.
  intros Hcan w1 w2.
  destruct (write_then w path (Fs.DataBytes b1) Fs.utf8 b1 Hcan eq_refl)
    as (u1 & Hw1 & _ & Hcan1 & _).
  assert (Hu1 : w1 = u1).
  { subst w1. unfold after. rewrite writeFile_eq, Hw1. reflexivity. }
  destruct (write_then u1 path (Fs.DataBytes b2) Fs.utf8 b2 Hcan1 eq_refl)
    as (u2 & Hw2 & _ & _ & Hfile).
  assert (Hu2 : w2 = u2).
  { subst w2. unfold after. rewrite Hu1, writeFile_eq, Hw2. reflexivity. }
  rewrite Hu2, Hu1. split; [rewrite writeFile_eq, Hw2; reflexivity | exact Hfile].
Qed.

(** ** Existence *)

Lemma exists_promise path w :
  Fs.exists_ path None w =
    match Fs.checkExists path w with
    | (Ok b, w') => (resolves (Fs.VBoolean b), w')
    | (Throw e, w') => (rejects e, w')
    end.
Proof. rewrite exists_eq. destruct (Fs.checkExists path w) as [[b|e] w']; reflexivity. Qed.

Lemma checkExists_existing w path data :
  parent_resolved w path ->
  valid_segments path -> Js.truthy (leaf path) = true ->
  entries w !! segments path = Some (File data) ->
  Fs.checkExists path w = (Ok true, w).
Proof.
  intros Hres Hvalid Hleaf Hfile.
  assert (Hdir : Opfs.is_directory w (segments (directoryPath path)) = true).
  { destruct Hres as (_ & _ & Hdirs).
    destruct (segments (directoryPath path)) as [|s l] eqn:Hs; [reflexivity|].
    apply is_directory_lookup, Hdirs; [discriminate | reflexivity]. }
  rewrite checkExists_eq, (resolve_existing w path Hres).
  unfold Opfs.getFileHandle.
  rewrite (leaf_valid _ Hvalid Hleaf), Hdir, (file_at _ _ _ Hleaf Hfile). reflexivity.
Qed.

(** What resolution leaves when the parent directories can be made: the
    root known, a directory at every segment of the directory part, the
    rest as it was. *)
Lemma resolve_creates w path :
  available w ->
  Forall (fun n => Opfs.valid_file_name n = true) (segments (directoryPath path)) ->
  no_file_on w (segments (directoryPath path)) ->
  exists w',
    FsUtils.getDirectoryAndFileName path w
    = (Ok (segments (directoryPath path), leaf path), w')
    /\ parent_resolved w' path
    /\ (forall k, ~ (k <> [] /\ k `prefix_of` segments (directoryPath path)) ->
          entries w' !! k = entries w !! k).
Proof.
  intros Hav Hvd Hfree.
  destruct (available_root w Hav) as (w1 & Hroot & Hent).
  pose proof (ensure_root_ok _ _ _ Hroot) as (Hr1 & _ & _).
  destruct (walk_create (segments (directoryPath path)) [] w1 Hvd eq_refl)
    as (w2 & Hwalk & Hdirs & Hmin).
  { intros pre d _ Hpre. rewrite Hent. apply Hfree, Hpre. }
  pose proof (walk_ok _ _ _ _ _ _ Hwalk) as (_ & Hsub & Hr2).
  cbn [app] in Hwalk, Hdirs, Hmin.
  exists w2. split; [|split].
  - rewrite getDirectoryAndFileName_eq, Hroot, Hwalk. reflexivity.
  - split; [rewrite Hr2; exact Hr1|]. split; [exact Hvd | exact Hdirs].
  - intros k Hnot. rewrite <- Hent.
    destruct (entries w2 !! k) as [v|] eqn:Hk2.
    + apply Hmin in Hk2 as [Hk1|(_ & pre & Hne & Hpre & ->)]; [congruence|].
      exfalso. apply Hnot. auto.
    + destruct (entries w1 !! k) as [v|] eqn:Hk1; [|reflexivity].
      eapply lookup_weaken in Hk1; [|exact Hsub]. congruence.
Qed.

Lemma can_write_resolve w path :
  can_write w path ->
  available w
  /\ Forall (fun n => Opfs.valid_file_name n = true) (segments (directoryPath path))
  /\ no_file_on w (segments (directoryPath path)).
Proof.
  intros (Hav & Hvalid & Hleaf & Hfree & _). split; [exact Hav|]. split; [|exact Hfree].
  unfold valid_segments in Hvalid. rewrite segments_leaf in Hvalid.
  apply Forall_app in Hvalid. tauto.
Qed.

Lemma not_dir_prefix path :
  Js.truthy (leaf path) = true ->
  ~ (segments path <> [] /\ segments path `prefix_of` segments (directoryPath path)).
Proof.
  intros Hleaf [_ Hpre]. rewrite segments_leaf, Hleaf in Hpre at 1.
  apply prefix_length in Hpre. rewrite length_app in Hpre. cbn in Hpre. lia.
Qed.

(** X4.  Existence after write: where nothing is stored at the path,
    [exists] answers [false] before [writeFile] and [true] after it. *)
Theorem exists_before_and_after_writeFile (w : world) (path : jsstring)
    (data : Fs.write_data) (content : bytes) :
  can_write w path -> entries w !! segments path = None ->
  payload data Fs.utf8 = Ok content ->
  let w' := after (Fs.writeFile path data Fs.WriteAbsent None) w in
  fst (Fs.exists_ path None w) = resolves (Fs.VBoolean false)
  /\ Fs.exists_ path None w' = (resolves (Fs.VBoolean true), w').
Proof.
  intros Hcan Hnone Hpay w'. split.
  - destruct (can_write_resolve w path Hcan) as (Hav & Hvd & Hfree).
    destruct (resolve_creates w path Hav Hvd Hfree) as (w1 & Hres & _ & Hframe).
    rewrite exists_promise, checkExists_eq, Hres.
    destruct Hcan as (_ & Hvalid & Hleaf & _).
    assert (Hl : entries w1 !! (segments (directoryPath path) ++ [leaf path]) = None).
    { pose proof (Hframe (segments path) (not_dir_prefix path Hleaf)) as H.
      rewrite segments_leaf, Hleaf in H at 1. rewrite H. exact Hnone. }
    unfold Opfs.getFileHandle. rewrite (leaf_valid _ Hvalid Hleaf). cbn [negb].
    destruct (negb (Opfs.is_directory w1 (segments (directoryPath path)))); [reflexivity|].
    rewrite Hl. reflexivity.
  - destruct (write_then w path data Fs.utf8 content Hcan Hpay)
      as (w1 & Hw & Hres & _ & Hfile).
    assert (Hw' : w' = w1).
    { subst w'. unfold after. rewrite writeFile_eq, Hw. reflexivity. }
    rewrite Hw'. destruct Hcan as (_ & Hvalid & Hleaf & _).
    rewrite exists_promise, (checkExists_existing w1 path content Hres Hvalid Hleaf Hfile).
    reflexivity.
Qed.

(** X5.  The readers resolve the parent like the writers: [exists] on a
    path whose parent directories are missing creates them, whatever it
    answers, and changes nothing else. *)
Theorem exists_creates_parent_directories (w : world) (path : jsstring)
    (callback : option Fs.fn) :
  available w ->
  Forall (fun n => Opfs.valid_file_name n = true) (segments (directoryPath path)) ->
  no_file_on w (segments (directoryPath path)) ->
  let w' := after (Fs.exists_ path callback) w in
  (forall pre, pre <> [] -> pre `prefix_of` segments (directoryPath path) ->
     entries w' !! pre = Some Directory)
  /\ (forall k, ~ (k <> [] /\ k `prefix_of` segments (directoryPath path)) ->
        entries w' !! k = entries w !! k).
Proof.
  intros Hav Hvd Hfree w'.
  destruct (resolve_creates w path Hav Hvd Hfree) as (w1 & Hres & (_ & _ & Hdirs) & Hframe).
  assert (Hw' : w' = w1).
  { subst w'. unfold after. rewrite exists_eq, checkExists_eq, Hres.
    unfold Opfs.getFileHandle.
    destruct (negb (Opfs.valid_file_name (leaf path))); [destruct callback; reflexivity|].
    destruct (negb (Opfs.is_directory w1 (segments (directoryPath path))));
      [destruct callback; reflexivity|].
    destruct (entries w1 !! (segments (directoryPath path) ++ [leaf path])) as [[d|]|];
      destruct callback; reflexivity. }
  rewrite Hw'. split; [exact Hdirs | exact Hframe].
Qed.

(** ** Listing a directory *)





Lemma is_directory_reachable w segs :
  reachable w segs -> Opfs.is_directory w segs = true.
Proof.
  intros (_ & _ & Hdirs). destruct segs as [|s l] eqn:Hs; [reflexivity|].
  apply is_directory_lookup, Hdirs; [discriminate | reflexivity].
Qed.




(** Without [create] a handle request changes nothing. *)
Lemma getDirectoryHandle_no_create h n w :
  snd (Opfs.getDirectoryHandle h n false w) = w.
Proof.
  unfold Opfs.getDirectoryHandle.
  destruct (negb (Opfs.valid_file_name n)); [reflexivity|].
  destruct (negb (Opfs.is_directory w h)); [reflexivity|].
  destruct (entries w !! (h ++ [n])) as [[d|]|]; reflexivity.
Qed.

Lemma walk_no_create parts : forall h w, snd (FsUtils.walk false h parts w) = w.
Proof.
  induction parts as [|part rest IH]; intros h w; cbn [FsUtils.walk]; [reflexivity|].
  unfold bind. pose proof (getDirectoryHandle_no_create h part w) as H.
  destruct (Opfs.getDirectoryHandle h part false w) as [[d|e] w1]; cbn in H; subst w1.
  - apply IH.
  - reflexivity.
Qed.

Lemma ensure_root_entries w : entries (snd (FsUtils.ensure_root w)) = entries w.
Proof.
  rewrite ensure_root_eq. destruct (rootDirectory w); [reflexivity|].
  destruct (FsUtils.isOPFSSupported w); [|reflexivity].
  destruct (getDirectory_error w); reflexivity.
Qed.

(** X7.  [readdir] never creates or removes anything, whatever the path,
    the options and the outcome: it resolves the directory without
    [create]. *)
Theorem readdir_changes_nothing (w : world) (path : jsstring)
    (options : Fs.readdir_arg) (callback : option Fs.fn) :
  entries (after (Fs.readdir path options callback) w) = entries w.
Proof.
  unfold after, Fs.readdir.
  assert (H : entries (snd (Fs.readDirectory path w)) = entries w).
  { unfold Fs.readDirectory, try_catch, bind, throw.
    rewrite getDirectoryByPath_eq.
    pose proof (ensure_root_entries w) as Hroot.
    destruct (FsUtils.ensure_root w) as [[r|e] w1]; cbn in Hroot; [|exact Hroot].
    pose proof (walk_no_create (segments path) r w1) as Hwalk.
    destruct (FsUtils.walk false r (segments path) w1) as [[d|e] w2]; cbn in Hwalk; subst w2.
    - unfold Opfs.values. destruct (negb (Opfs.is_directory w1 d)); exact Hroot.
    - exact Hroot. }
  destruct (Fs.readDirectory path w) as [[files|e] w'];
    destruct (Fs.normalize_readdir options callback); exact H.
Qed.



(** ** unlink *)

Lemma unlink_promise path w :
  Fs.unlink path None w =
    match Fs.unlinkFile path w with
    | (Ok _, w') => (resolves Fs.VUndefined, w')
    | (Throw e, w') => (rejects e, w')
    end.
Proof.
  unfold Fs.unlink. destruct (Fs.unlinkFile path w) as [[u|e] w']; reflexivity.
Qed.

Lemma unlinkFile_eq path w :
  Fs.unlinkFile path w =
    match FsUtils.getDirectoryAndFileName path w with
    | (Ok (d, n), w1) =>
        match Opfs.removeEntry d n w1 with
        | (Ok u, w2) => (Ok u, w2)
        | (Throw e, w2) => (Throw (Fs.wrap "Error deleting file: " e), w2)
        end
    | (Throw e, w1) => (Throw (Fs.wrap "Error deleting file: " e), w1)
    end.
Proof.
  unfold Fs.unlinkFile, try_catch, bind, throw.
  destruct (FsUtils.getDirectoryAndFileName path w) as [[[d n]|e] w1]; [|reflexivity].
  destruct (Opfs.removeEntry d n w1) as [[u|e] w2]; reflexivity.
Qed.


(** X10.  [unlink] of a path at which nothing is stored rejects with the
    wrapped NotFoundError; like every resolution of a parent it has created
    the missing parent directories by then. *)
Theorem unlink_missing_file_rejects (w : world) (path : jsstring) :
  can_write w path -> entries w !! segments path = None ->
  let w' := after (Fs.unlink path None) w in
  Fs.unlink path None w = (rejects (Fs.wrap "Error deleting file: " Opfs.not_found), w')
  /\ parent_resolved w' path
  /\ entries w' !! segments path = None.
Proof.
  intros Hcan Hnone w'.
  destruct (can_write_resolve w path Hcan) as (Hav & Hvd & Hfree).
  destruct (resolve_creates w path Hav Hvd Hfree) as (w1 & Hr & Hres & Hframe).
  destruct Hcan as (_ & Hvalid & Hleaf & _).
  assert (Hl : entries w1 !! (segments (directoryPath path) ++ [leaf path]) = None).
  { pose proof (Hframe (segments path) (not_dir_prefix path Hleaf)) as H.
    rewrite segments_leaf, Hleaf in H at 1. rewrite H. exact Hnone. }
  assert (Hun : Fs.unlinkFile path w
                = (Throw (Fs.wrap "Error deleting file: " Opfs.not_found), w1)).
  { rewrite unlinkFile_eq, Hr. unfold Opfs.removeEntry.
    rewrite (leaf_valid _ Hvalid Hleaf), (is_directory_reachable w1 _ Hres), Hl.
    reflexivity. }
  assert (Hw' : w' = w1).
  { subst w'. unfold after. rewrite unlink_promise, Hun. reflexivity. }
  rewrite Hw'. split; [rewrite unlink_promise, Hun; reflexivity|].
  split; [exact Hres|]. rewrite segments_leaf, Hleaf. exact Hl.
Qed.


(** ** mkdir *)

(** A walk that succeeded succeeds again on the world it left, with or
    without [create], and changes nothing. *)
Lemma walk_again create create' parts : forall h w d w',
  FsUtils.walk create h parts w = (Ok d, w') ->
  FsUtils.walk create' h parts w' = (Ok d, w').
Proof.
  induction parts as [|part rest IH]; intros h w d w' H; cbn [FsUtils.walk] in *.
  - inversion H; subst. reflexivity.
  - unfold bind in H.
    destruct (Opfs.getDirectoryHandle h part create w) as [[d1|e] w1] eqn:H1; [|discriminate].
    pose proof (walk_ok _ _ _ _ _ _ H) as (_ & Hsub' & _).
    pose proof (IH _ _ _ _ H) as Hrest.
    assert (Hstep : Opfs.getDirectoryHandle h part create' w' = (Ok d1, w')).
    { pose proof (getDirectoryHandle_ok _ _ _ _ _ _ H1) as (-> & Hd1 & Hsub & _).
      unfold Opfs.getDirectoryHandle in H1 |- *.
      destruct (negb (Opfs.valid_file_name part)); [discriminate|].
      destruct (negb (Opfs.is_directory w h)) eqn:Hh; [discriminate|].
      apply negb_false_iff in Hh.
      assert (Hh' : Opfs.is_directory w' h = true).
      { unfold Opfs.is_directory in Hh |- *. destruct h as [|x h]; [reflexivity|].
        destruct (entries w !! (x :: h)) as [[dd|]|] eqn:Hl; try discriminate.
        eapply lookup_weaken in Hl; [|exact Hsub].
        eapply lookup_weaken in Hl; [|exact Hsub']. rewrite Hl. reflexivity. }
      rewrite Hh'. cbn [negb].
      eapply lookup_weaken in Hd1; [|exact Hsub']. rewrite Hd1. reflexivity. }
    unfold bind. rewrite Hstep. exact Hrest.
Qed.

Lemma mkdir_promise path options w :
  Fs.mkdir path options None w =
    match Fs.normalize_mkdir options None with
    | (_, Some cb) =>
        match Fs.createDir path w with
        | (Ok _, w') => (Fs.Outcome None [Fs.Call cb [Fs.VNull]], w')
        | (Throw e, w') => (Fs.Outcome None [Fs.Call cb [Fs.VError e]], w')
        end
    | (_, None) =>
        match Fs.createDir path w with
        | (Ok _, w') => (resolves Fs.VUndefined, w')
        | (Throw e, w') => (rejects e, w')
        end
    end.
Proof.
  unfold Fs.mkdir. destruct (Fs.normalize_mkdir options None) as [r [cb|]];
    destruct (Fs.createDir path w) as [[u|e] w']; reflexivity.
Qed.

(** X12.  [mkdir] is idempotent: when it has succeeded, [mkdir] of the same
    path succeeds again and changes nothing. *)
Theorem mkdir_again_changes_nothing (w w' : world) (path : jsstring)
    (options options' : Fs.mkdir_arg) :
  Fs.mkdir path options None w = (resolves Fs.VUndefined, w') ->
  Fs.mkdir path options' None w'
  = (match options' with
     | Fs.MkdirFunction f => Fs.Outcome None [Fs.Call f [Fs.VNull]]
     | _ => resolves Fs.VUndefined
     end, w').
Proof.
  intros H.
  assert (Hfirst : Fs.createDir path w = (Ok tt, w')).
  { unfold Fs.mkdir in H. destruct (Fs.normalize_mkdir options None) as [r [cb|]];
      destruct (Fs.createDir path w) as [[[]|e] w1]; inversion H; reflexivity. }
  assert (Hagain : Fs.createDir path w' = (Ok tt, w')).
  { rewrite createDir_eq, getDirectoryByPath_eq in Hfirst |- *.
    destruct (FsUtils.ensure_root w) as [[r|e] w1] eqn:Hroot; [|discriminate].
    destruct (FsUtils.walk true r (segments path) w1) as [[d|e] w2] eqn:Hwalk; [|discriminate].
    inversion Hfirst; subst w2.
    pose proof (ensure_root_ok _ _ _ Hroot) as (Hr1 & _ & _).
    pose proof (walk_ok _ _ _ _ _ _ Hwalk) as (_ & _ & Hr2).
    rewrite (ensure_root_known w' r) by congruence.
    rewrite (walk_again true true _ _ _ _ _ Hwalk). reflexivity. }
  unfold Fs.mkdir. destruct options' as [f|o|]; cbn [Fs.normalize_mkdir];
    rewrite Hagain; reflexivity.
Qed.

(** ** Base64 *)

Lemma lor_low (x r k : Z) :
  0 <= k -> 0 <= r < 2 ^ k -> x `mod` 2 ^ k = 0 -> Z.lor x r = x + r.
Proof.
  intros Hk Hr Hx.
  assert (Hx' : x = (x `div` 2 ^ k) ≪ k).
  { rewrite Z.shiftl_mul_pow2 by lia. pose proof (Z.div_mod x (2 ^ k)). lia. }
  rewrite Hx' at 1. rewrite lor_shiftl_low by lia. pose proof (Z.div_mod x (2 ^ k)). lia.
Qed.

Lemma land_3 a : Z.land a 3 = a `mod` 4.
Proof. change 3 with (Z.ones 2). rewrite Z.land_ones by lia. reflexivity. Qed.
Lemma land_255 a : Z.land a 255 = a `mod` 256.
Proof. change 255 with (Z.ones 8). rewrite Z.land_ones by lia. reflexivity. Qed.
Lemma land_15' a : Z.land a 15 = a `mod` 16.
Proof. change 15 with (Z.ones 4). rewrite Z.land_ones by lia. reflexivity. Qed.
Lemma land_63' a : Z.land a 63 = a `mod` 64.
Proof. change 63 with (Z.ones 6). rewrite Z.land_ones by lia. reflexivity. Qed.

(** [arith] once the powers of two are numbers. *)
Ltac pow_arith :=
  change (2 ^ 18) with 262144; change (2 ^ 12) with 4096; change (2 ^ 6) with 64;
  change (2 ^ 4) with 16; change (2 ^ 2) with 4; arith.

(** The sextets of three bytes, as arithmetic. *)
Lemma sextet_1 a : a ≫ 2 = a `div` 4.
Proof. rewrite Z.shiftr_div_pow2 by lia. reflexivity. Qed.

Lemma sextet_2_last a : Z.land a 3 ≪ 4 = a `mod` 4 * 16.
Proof. rewrite land_3, Z.shiftl_mul_pow2 by lia. reflexivity. Qed.

Lemma sextet_2 a b : is_byte b ->
  Z.lor (Z.land a 3 ≪ 4) (b ≫ 4) = a `mod` 4 * 16 + b `div` 16.
Proof.
  unfold is_byte. intros Hb. rewrite (Z.shiftr_div_pow2 b) by lia. change (2 ^ 4) with 16.
  rewrite (lor_shiftl_low _ _ 4) by pow_arith. change (2 ^ 4) with 16. rewrite land_3. reflexivity.
Qed.

Lemma sextet_3_last b : Z.land b 15 ≪ 2 = b `mod` 16 * 4.
Proof. rewrite land_15', Z.shiftl_mul_pow2 by lia. reflexivity. Qed.

Lemma sextet_3 b c : is_byte c ->
  Z.lor (Z.land b 15 ≪ 2) (c ≫ 6) = b `mod` 16 * 4 + c `div` 64.
Proof.
  unfold is_byte. intros Hc. rewrite (Z.shiftr_div_pow2 c) by lia. change (2 ^ 6) with 64.
  rewrite (lor_shiftl_low _ _ 2) by pow_arith. change (2 ^ 2) with 4. rewrite land_15'. reflexivity.
Qed.

(** Sextets put side by side add up. *)
Lemma join_four s1 s2 s3 s4 :
  0 <= s2 < 64 -> 0 <= s3 < 64 -> 0 <= s4 < 64 ->
  Z.lor (Z.lor (Z.lor (s1 ≪ 18) (s2 ≪ 12)) (s3 ≪ 6)) s4
  = s1 * 262144 + s2 * 4096 + s3 * 64 + s4.
Proof.
  intros H2 H3 H4. rewrite !Z.shiftl_mul_pow2 by lia.
  change (2 ^ 18) with 262144. change (2 ^ 12) with 4096. change (2 ^ 6) with 64.
  rewrite (lor_low (s1 * 262144) (s2 * 4096) 18) by pow_arith.
  rewrite (lor_low (s1 * 262144 + s2 * 4096) (s3 * 64) 12) by pow_arith.
  rewrite (lor_low (s1 * 262144 + s2 * 4096 + s3 * 64) s4 6) by pow_arith.
  reflexivity.
Qed.

Lemma join_three s1 s2 s3 :
  0 <= s2 < 64 -> 0 <= s3 < 64 ->
  Z.lor (Z.lor (s1 ≪ 12) (s2 ≪ 6)) s3 = s1 * 4096 + s2 * 64 + s3.
Proof.
  intros H2 H3. rewrite !Z.shiftl_mul_pow2 by lia.
  change (2 ^ 12) with 4096. change (2 ^ 6) with 64.
  rewrite (lor_low (s1 * 4096) (s2 * 64) 12) by pow_arith.
  rewrite (lor_low (s1 * 4096 + s2 * 64) s3 6) by pow_arith.
  reflexivity.
Qed.

Lemma join_two s1 s2 : 0 <= s2 < 64 -> Z.lor (s1 ≪ 6) s2 = s1 * 64 + s2.
Proof.
  intros H2. rewrite Z.shiftl_mul_pow2 by lia. change (2 ^ 6) with 64.
  rewrite (lor_low (s1 * 64) s2 6) by pow_arith. reflexivity.
Qed.

(** Four sextets give back the three bytes they came from. *)
Lemma bytes_of_four a b c :
  is_byte a -> is_byte b -> is_byte c ->
  let n := Z.lor (Z.lor (Z.lor ((a `div` 4) ≪ 18) ((a `mod` 4 * 16 + b `div` 16) ≪ 12))
                        ((b `mod` 16 * 4 + c `div` 64) ≪ 6)) (c `mod` 64) in
  Z.land (n ≫ 16) 255 = a /\ Z.land (n ≫ 8) 255 = b /\ Z.land n 255 = c.
Proof.
  intros Ha Hb Hc n. unfold is_byte in *.
  assert (Hn : n = a * 65536 + b * 256 + c).
  { subst n. rewrite join_four by arith. arith. }
  rewrite Hn, !land_255, !Z.shiftr_div_pow2 by lia.
  change (2 ^ 16) with 65536. change (2 ^ 8) with 256. repeat split; arith.
Qed.

Lemma bytes_of_three a b :
  is_byte a -> is_byte b ->
  let n := Z.lor (Z.lor ((a `div` 4) ≪ 12) ((a `mod` 4 * 16 + b `div` 16) ≪ 6))
                 (b `mod` 16 * 4) ≫ 2 in
  Z.land (n ≫ 8) 255 = a /\ Z.land n 255 = b.
Proof.
  intros Ha Hb n. unfold is_byte in *.
  assert (Hn : n = a * 256 + b).
  { subst n. rewrite join_three by arith.
    rewrite Z.shiftr_div_pow2 by lia. change (2 ^ 2) with 4. arith. }
  rewrite Hn, !land_255, !Z.shiftr_div_pow2 by lia.
  change (2 ^ 8) with 256. split; arith.
Qed.

Lemma bytes_of_two a :
  is_byte a ->
  Z.land (Z.lor ((a `div` 4) ≪ 6) (a `mod` 4 * 16) ≫ 4) 255 = a.
Proof.
  unfold is_byte. intros Ha. rewrite join_two by arith.
  rewrite land_255, Z.shiftr_div_pow2 by lia. change (2 ^ 4) with 16. arith.
Qed.

(** Induction three bytes at a time. *)
Lemma three_ind (P : bytes -> Prop) :
  P [] -> (forall a, P [a]) -> (forall a b, P [a; b]) ->
  (forall a b c rest, P rest -> P (a :: b :: c :: rest)) ->
  forall l, P l.
Proof.
  intros H0 H1 H2 H3.
  assert (H : forall n l, (length l <= n)%nat -> P l).
  { induction n as [|n IH]; intros l Hl.
    - destruct l; [exact H0 | cbn in Hl; lia].
    - destruct l as [|a [|b [|c rest]]]; auto.
      apply H3, IH. cbn in Hl. lia. }
  intros l. apply (H (length l)). lia.
Qed.

Lemma bytes_of_sextets_of_bytes bs :
  Forall is_byte bs -> Base64.bytes_of_sextets (sextets_of_bytes bs) = bs.
Proof.
  induction bs as [|a|a b|a b c rest IH] using three_ind; intros Hbs.
  - reflexivity.
  - inversion Hbs as [|? ? Ha _]; subst.
    cbn [sextets_of_bytes Base64.bytes_of_sextets].
    rewrite (sextet_1 a), sextet_2_last, bytes_of_two by exact Ha. reflexivity.
  - inversion Hbs as [|? ? Ha Hbs']; subst. inversion Hbs' as [|? ? Hb _]; subst.
    cbn [sextets_of_bytes Base64.bytes_of_sextets]. cbv zeta.
    rewrite (sextet_1 a), (sextet_2 a b), sextet_3_last by exact Hb.
    pose proof (bytes_of_three a b Ha Hb) as H. cbv zeta in H.
    destruct H as [-> ->]. reflexivity.
  - inversion Hbs as [|? ? Ha Hbs']; subst. inversion Hbs' as [|? ? Hb Hbs'']; subst.
    inversion Hbs'' as [|? ? Hc Hrest]; subst.
    cbn [sextets_of_bytes].
    rewrite (sextet_1 a), (sextet_2 a b), (sextet_3 b c), land_63' by assumption.
    cbn [Base64.bytes_of_sextets]. cbv zeta.
    pose proof (bytes_of_four a b c Ha Hb Hc) as H. cbv zeta in H.
    destruct H as (-> & -> & ->).
    rewrite IH by exact Hrest. reflexivity.
Qed.

Lemma alphabet_checked v : 0 <= v < 64 -> alphabet_check v = true.
Proof.
  intros Hv.
  assert (Hall : forallb alphabet_check (seqZ 0 64) = true) by (vm_compute; reflexivity).
  rewrite forallb_forall in Hall. apply Hall.
  apply list_elem_of_In, elem_of_seqZ. lia.
Qed.

Lemma char_of_facts v :
  0 <= v < 64 ->
  (Base64.char_of v =? Base64.pad) = false
  /\ Base64.is_ascii_whitespace (Base64.char_of v) = false
  /\ Base64.sextet_of (Base64.char_of v) = Some v.
Proof.
  intros Hv. pose proof (alphabet_checked v Hv) as H. unfold alphabet_check in H.
  apply andb_true_iff in H as [H H3]. apply andb_true_iff in H as [H1 H2].
  apply negb_true_iff in H1, H2. split; [exact H1|]. split; [exact H2|].
  destruct (Base64.sextet_of (Base64.char_of v)) as [u|]; [|discriminate].
  apply Z.eqb_eq in H3. congruence.
Qed.

Lemma sextets_range bs :
  Forall is_byte bs -> Forall (fun v => 0 <= v < 64) (sextets_of_bytes bs).
Proof.
  induction bs as [|a|a b|a b c rest IH] using three_ind; intros Hbs.
  - constructor.
  - inversion Hbs as [|? ? Ha _]; subst. unfold is_byte in Ha.
    cbn [sextets_of_bytes]. rewrite (sextet_1 a), sextet_2_last.
    repeat constructor; arith.
  - inversion Hbs as [|? ? Ha Hbs']; subst. inversion Hbs' as [|? ? Hb _]; subst.
    cbn [sextets_of_bytes]. rewrite (sextet_1 a), (sextet_2 a b), sextet_3_last by exact Hb.
    unfold is_byte in *. repeat constructor; arith.
  - inversion Hbs as [|? ? Ha Hbs']; subst. inversion Hbs' as [|? ? Hb Hbs'']; subst.
    inversion Hbs'' as [|? ? Hc Hrest]; subst.
    cbn [sextets_of_bytes].
    rewrite (sextet_1 a), (sextet_2 a b), (sextet_3 b c), land_63' by assumption.
    unfold is_byte in *. repeat (constructor; [arith|]). apply IH, Hrest.
Qed.

Lemma sextets_chars sx :
  Forall (fun v => 0 <= v < 64) sx ->
  Base64.sextets (map Base64.char_of sx) = Some sx.
Proof.
  induction 1 as [|v sx Hv _ IH]; [reflexivity|].
  cbn [map Base64.sextets]. destruct (char_of_facts v Hv) as (_ & _ & ->).
  rewrite IH. reflexivity.
Qed.

Lemma no_whitespace_chars sx :
  Forall (fun v => 0 <= v < 64) sx ->
  List.filter (fun c => negb (Base64.is_ascii_whitespace c)) (map Base64.char_of sx)
  = map Base64.char_of sx.
Proof.
  induction 1 as [|v sx Hv _ IH]; [reflexivity|].
  cbn [map List.filter]. destruct (char_of_facts v Hv) as (_ & -> & _).
  cbn [negb]. rewrite IH. reflexivity.
Qed.

(** The text [Base64.encode] gives: the characters of the sextets, then the
    padding. *)
Lemma encode_chars bs :
  exists padding,
    Base64.encode bs = map Base64.char_of (sextets_of_bytes bs) ++ padding
    /\ (padding = [] \/ padding = [Base64.pad] \/ padding = [Base64.pad; Base64.pad])
    /\ (Z.of_nat (length (Base64.encode bs)) `mod` 4 = 0)
    /\ (Z.of_nat (length (sextets_of_bytes bs)) `mod` 4 <> 1).
Proof.
  induction bs as [|a|a b|a b c rest IH] using three_ind.
  - exists []. cbn. auto.
  - exists [Base64.pad; Base64.pad]. cbn. repeat split; auto; lia.
  - exists [Base64.pad]. cbn. repeat split; auto; lia.
  - destruct IH as (padding & He & Hp & Hl & Hs). exists padding.
    cbn [Base64.encode sextets_of_bytes map app length]. rewrite He.
    split; [reflexivity|]. split; [exact Hp|]. rewrite <- He.
    rewrite !Nat2Z.inj_succ. split; arith.
Qed.

Lemma filter_padding padding :
  padding = [] \/ padding = [Base64.pad] \/ padding = [Base64.pad; Base64.pad] ->
  List.filter (fun c => negb (Base64.is_ascii_whitespace c)) padding = padding.
Proof. intros [->|[->| ->]]; reflexivity. Qed.

(** Removing the padding leaves the characters. *)
Lemma strip_padding_chars sx padding :
  Forall (fun v => 0 <= v < 64) sx ->
  padding = [] \/ padding = [Base64.pad] \/ padding = [Base64.pad; Base64.pad] ->
  Z.of_nat (length (map Base64.char_of sx ++ padding)) `mod` 4 = 0 ->
  Z.of_nat (length sx) `mod` 4 <> 1 ->
  Base64.strip_padding (map Base64.char_of sx ++ padding) = map Base64.char_of sx.
Proof.
  intros Hsx Hp Hlen Hne. unfold Base64.strip_padding. rewrite Hlen. cbn [Z.eqb].
  rewrite rev_app_distr.
  destruct (rev sx) as [|v vs] eqn:Hrev.
  { assert (sx = []) as -> by (apply (f_equal (@rev Z)) in Hrev; rewrite rev_involutive in Hrev; exact Hrev).
    destruct Hp as [->|[->| ->]]; [reflexivity | vm_compute in Hlen; discriminate Hlen ..]. }
  assert (Hsx' : sx = rev vs ++ [v]).
  { apply (f_equal (@rev Z)) in Hrev. rewrite rev_involutive in Hrev. exact Hrev. }
  assert (Hv : 0 <= v < 64).
  { rewrite Hsx' in Hsx. apply Forall_app in Hsx as [_ Hsx]. inversion Hsx; assumption. }
  destruct (char_of_facts v Hv) as (Hnp & _ & _).
  rewrite <- map_rev, Hrev. cbn [map].
  destruct Hp as [->|[->| ->]]; cbn [rev app].
  - rewrite app_nil_r.
    destruct vs as [|u vs'].
    + subst sx. exfalso. apply Hne. reflexivity.
    + cbn [map]. rewrite Hnp. reflexivity.
  - rewrite Z.eqb_refl, Hnp. rewrite Hsx', map_app, map_rev. cbn [rev map].
    reflexivity.
  - rewrite !Z.eqb_refl. rewrite Hsx', map_app, map_rev.
    cbn [rev map app]. reflexivity.
Qed.

(** The bytes [atob] reads from what [btoa] wrote. *)
Lemma decode_encode_bytes bs :
  Forall is_byte bs -> Base64.decode (Base64.encode bs) = Some bs.
Proof.
  intros Hbs. pose proof (sextets_range bs Hbs) as Hsx.
  destruct (encode_chars bs) as (padding & He & Hp & Hl & Hs).
  unfold Base64.decode. rewrite He in Hl |- *.
  rewrite List.filter_app, (no_whitespace_chars _ Hsx), (filter_padding _ Hp).
  rewrite (strip_padding_chars _ _ Hsx Hp Hl Hs).
  rewrite length_map.
  rewrite (proj2 (Z.eqb_neq _ _) Hs).
  rewrite (sextets_chars _ Hsx). cbn [option_map].
  rewrite bytes_of_sextets_of_bytes by exact Hbs. reflexivity.
Qed.

Lemma bytes_in_range bs :
  Forall is_byte bs -> forallb (fun c => (0 <=? c) && (c <=? 0xFF)) bs = true.
Proof.
  induction 1 as [|b bs Hb _ IH]; [reflexivity|]. unfold is_byte in Hb. cbn [forallb].
  rewrite IH. destruct (Z.leb_spec 0 b), (Z.leb_spec b 0xFF); try lia; reflexivity.
Qed.

Lemma to_uint8_bytes bs : Forall is_byte bs -> map Buffer.to_uint8 bs = bs.
Proof.
  induction 1 as [|b bs Hb _ IH]; [reflexivity|]. unfold is_byte in Hb. cbn [map].
  rewrite IH. unfold Buffer.to_uint8. rewrite Z.mod_small by lia. reflexivity.
Qed.

(** What [toString('base64')] gives on bytes. *)
Lemma toString_base64 (limit : Z) (b : bytes) :
  Forall is_byte b ->
  Buffer.toString limit (Buffer.Make b) (Some (Js.lit "base64"))
  = if Z.of_nat (length b) <=? limit then Ok (Base64.encode b)
    else Throw Buffer.too_many_arguments.
Proof.
  intros Hb. unfold Buffer.toString, Buffer.spread. cbn [Buffer.contents].
  destruct (decide (Js.lit "base64" = Js.lit "base64")) as [_|Hne];
    [|contradiction Hne; reflexivity].
  destruct (Z.of_nat (length b) <=? limit); [|reflexivity].
  unfold Base64.btoa. rewrite bytes_in_range by exact Hb. reflexivity.
Qed.

(** X13.  Base64 round trip of a Buffer.  [toString('base64')] hands every
    byte to [String.fromCharCode] as one argument: on a Buffer of no more
    bytes than the engine takes arguments it gives their Base64 text, on a
    longer one it throws a RangeError.  [Buffer.from(text, 'base64')] of
    that text is a Buffer with the same bytes, however many. *)
Theorem buffer_base64_round_trip (limit : Z) (buffer : Buffer.t) :
  Forall is_byte (Buffer.contents buffer) ->
  (Z.of_nat (length (Buffer.contents buffer)) <= limit ->
     Buffer.toString limit buffer (Some (Js.lit "base64"))
     = Ok (Base64.encode (Buffer.contents buffer)))
  /\ (limit < Z.of_nat (length (Buffer.contents buffer)) ->
       Buffer.toString limit buffer (Some (Js.lit "base64"))
       = Throw Buffer.too_many_arguments)
  /\ Buffer.from (Buffer.FromString (Base64.encode (Buffer.contents buffer)))
       (Some (Js.lit "base64"))
     = Ok buffer.
Proof.
  intros Hb. destruct buffer as [bs]. cbn [Buffer.contents] in *.
  rewrite toString_base64 by exact Hb. split; [|split].
  - intros Hlen. destruct (Z.leb_spec (Z.of_nat (length bs)) limit); [reflexivity | lia].
  - intros Hlen. destruct (Z.leb_spec (Z.of_nat (length bs)) limit); [lia | reflexivity].
  - unfold Buffer.from.
    destruct (decide (Some (Js.lit "base64") = Some (Js.lit "base64"))) as [_|Hne];
      [|contradiction Hne; reflexivity].
    unfold Base64.atob. rewrite decode_encode_bytes by exact Hb.
    rewrite to_uint8_bytes by exact Hb. reflexivity.
Qed.

(** The same, on the bytes. *)
Lemma buffer_base64_round_trip_bytes b :
  Forall is_byte b ->
  Base64.btoa b = Ok (Base64.encode b)
  /\ Buffer.from (Buffer.FromString (Base64.encode b)) (Some Fs.base64) = Ok (Buffer.Make b).
Proof.
  intros Hb. split.
  - unfold Base64.btoa. rewrite bytes_in_range by exact Hb. reflexivity.
  - unfold Buffer.from.
    destruct (decide (Some Fs.base64 = Some (Js.lit "base64"))) as [_|Hne];
      [|contradiction Hne; reflexivity].
    unfold Base64.atob. rewrite decode_encode_bytes by exact Hb.
    rewrite to_uint8_bytes by exact Hb. reflexivity.
Qed.

(** ** Base64 through the file system *)

Lemma writeFile_promise path data encoding w :
  Fs.writeFile path data (Fs.WriteString encoding) None w =
    match Fs.writeFileAsync path data encoding w with
    | (Ok _, w') => (resolves Fs.VUndefined, w')
    | (Throw e, w') => (rejects e, w')
    end.
Proof.
  unfold Fs.writeFile. cbn [Fs.normalize_write].
  destruct (Fs.writeFileAsync path data encoding w) as [[u|e] w']; reflexivity.
Qed.

(** Nothing the module does changes the engine. *)
Lemma keeps_ret {A} (a : A) : keeps_engine (ret a).
Proof. intros w. reflexivity. Qed.

Lemma keeps_throw {A} e : keeps_engine (@throw A e).
Proof. intros w. reflexivity. Qed.

Lemma keeps_lift {A} (r : result A) : keeps_engine (lift r).
Proof. intros w. reflexivity. Qed.

Lemma keeps_read {A} (f : world -> A) : keeps_engine (read f).
Proof. intros w. reflexivity. Qed.

Lemma keeps_bind {A B} (m : M A) (k : A -> M B) :
  keeps_engine m -> (forall a, keeps_engine (k a)) -> keeps_engine (bind m k).
Proof.
  intros Hm Hk w. unfold bind. specialize (Hm w).
  destruct (m w) as [[a|e] w1]; cbn [snd] in *; [|exact Hm].
  rewrite (Hk a w1). exact Hm.
Qed.

Lemma keeps_try_catch {A} (body : M A) (handler : js_error -> M A) :
  keeps_engine body -> (forall e, keeps_engine (handler e)) ->
  keeps_engine (try_catch body handler).
Proof.
  intros Hm Hk w. unfold try_catch. specialize (Hm w).
  destruct (body w) as [[a|e] w1]; cbn [snd] in *; [exact Hm|].
  rewrite (Hk e w1). exact Hm.
Qed.

Ltac keeps_primitive :=
  intros [nav sto get err lim ents r];
  unfold set_entries, set_rootDirectory, Opfs.is_directory; cbn;
  repeat case_match; reflexivity.

Lemma keeps_getDirectoryHandle d n create :
  keeps_engine (Opfs.getDirectoryHandle d n create).
Proof. unfold Opfs.getDirectoryHandle. keeps_primitive. Qed.

Lemma keeps_getFileHandle d n create : keeps_engine (Opfs.getFileHandle d n create).
Proof. unfold Opfs.getFileHandle. keeps_primitive. Qed.

Lemma keeps_createWritable h : keeps_engine (Opfs.createWritable h).
Proof. unfold Opfs.createWritable. keeps_primitive. Qed.

Lemma keeps_close stream : keeps_engine (Opfs.close stream).
Proof. unfold Opfs.close, update. keeps_primitive. Qed.

Lemma keeps_ensure_root : keeps_engine FsUtils.ensure_root.
Proof.
  intros w. rewrite ensure_root_eq.
  destruct (rootDirectory w); [reflexivity|].
  destruct (FsUtils.isOPFSSupported w); [|reflexivity].
  destruct (getDirectory_error w); reflexivity.
Qed.

Lemma keeps_walk create parts : forall d, keeps_engine (FsUtils.walk create d parts).
Proof.
  induction parts as [|part rest IH]; intros d; cbn [FsUtils.walk].
  - apply keeps_ret.
  - apply keeps_bind; [apply keeps_getDirectoryHandle | intros a; apply IH].
Qed.

Lemma keeps_getDirectoryByPath path create :
  keeps_engine (FsUtils.getDirectoryByPath path create).
Proof.
  unfold FsUtils.getDirectoryByPath.
  apply keeps_bind; [apply keeps_ensure_root | intros r; apply keeps_walk].
Qed.

Lemma keeps_getDirectoryAndFileName path :
  keeps_engine (FsUtils.getDirectoryAndFileName path).
Proof.
  unfold FsUtils.getDirectoryAndFileName.
  apply keeps_bind; [apply keeps_ensure_root | intros r].
  destruct (Js.pop (Js.split Js.slash path)) as [popped parts].
  apply keeps_bind; [|intros d; apply keeps_ret].
  destruct (Js.truthy _); [apply keeps_getDirectoryByPath | apply keeps_ret].
Qed.

Lemma keeps_writeFileAsync path data encoding :
  keeps_engine (Fs.writeFileAsync path data encoding).
Proof.
  unfold Fs.writeFileAsync, Opfs.write.
  apply keeps_try_catch; [|intros e; apply keeps_throw].
  apply keeps_bind; [apply keeps_getDirectoryAndFileName | intros [directory fileName]].
  apply keeps_bind; [apply keeps_getFileHandle | intros fileHandle].
  apply keeps_bind; [apply keeps_createWritable | intros writable].
  apply keeps_bind; [|intros stream; apply keeps_close].
  destruct data as [s|b]; [|apply keeps_ret].
  destruct (bool_decide (encoding = Fs.base64)); [|apply keeps_ret].
  apply keeps_bind; [apply keeps_lift | intros buffer; apply keeps_ret].
Qed.

(** X14.  Base64 text written under [base64] is stored as the bytes it
    stands for.  [readFile] under [base64] gives the text back when the file
    has no more bytes than the engine takes arguments; on a longer file it
    rejects with the wrapped RangeError of the spread in [toString]. *)
Theorem base64_through_the_file_system (w : world) (path : jsstring) (b : bytes) :
  can_write w path -> Forall is_byte b ->
  let text := Base64.encode b in
  let w' := after (Fs.writeFile path (Fs.DataString text) (Fs.WriteString Fs.base64) None) w in
  entries w' !! segments path = Some (File b)
  /\ (Z.of_nat (length b) <= max_arguments w ->
       Fs.readFile path (Fs.ReadString Fs.base64) None w'
       = (resolves (Fs.VString text), w'))
  /\ (max_arguments w < Z.of_nat (length b) ->
       Fs.readFile path (Fs.ReadString Fs.base64) None w'
       = (rejects (Fs.wrap "Error reading file: " Buffer.too_many_arguments), w')).
Proof.
  intros Hcan Hb text w'. subst text.
  assert (Hpay : payload (Fs.DataString (Base64.encode b)) Fs.base64 = Ok b).
  { unfold payload. rewrite bool_decide_eq_true_2 by reflexivity.
    destruct (buffer_base64_round_trip_bytes b Hb) as [_ ->]. reflexivity. }
  destruct (write_then w path (Fs.DataString (Base64.encode b)) Fs.base64 b Hcan Hpay)
    as (w1 & Hw & Hres & _ & Hfile).
  assert (Hlim : max_arguments w1 = max_arguments w).
  { pose proof (keeps_writeFileAsync path (Fs.DataString (Base64.encode b)) Fs.base64 w) as H.
    rewrite Hw in H. exact H. }
  assert (Hw' : w' = w1).
  { subst w'. unfold after. rewrite writeFile_promise, Hw. reflexivity. }
  rewrite Hw'. split; [exact Hfile|].
  destruct Hcan as (_ & Hvalid & Hleaf & _).
  rewrite readFile_eq.
  rewrite (readFileAsync_existing w1 path Fs.base64 _ Hres (leaf_valid _ Hvalid Hleaf)
             (file_at _ _ _ Hleaf Hfile)).
  rewrite (bool_decide_eq_false_2 (Fs.base64 = Fs.utf8)) by discriminate.
  rewrite (bool_decide_eq_false_2 (Fs.base64 = Js.lit "utf-8")) by discriminate.
  rewrite bool_decide_eq_true_2 by reflexivity. cbn [orb].
  change (Some Fs.base64) with (Some (Js.lit "base64")).
  rewrite toString_base64, Hlim by exact Hb.
  split; intros Hlen;
    destruct (Z.leb_spec (Z.of_nat (length b)) (max_arguments w)); first [reflexivity | lia].
Qed.

(** The file handle [writeFile] asks for: the file as it was, or a new
    empty file. *)
Lemma getFileHandle_create_content d n w :
  Opfs.valid_file_name n = true ->
  Opfs.is_directory w d = true ->
  entries w !! (d ++ [n]) <> Some Directory ->
  exists w',
    Opfs.getFileHandle d n true w = (Ok (d ++ [n]), w')
    /\ rootDirectory w' = rootDirectory w
    /\ entries w' !! (d ++ [n])
       = Some (File (match entries w !! (d ++ [n]) with
                     | Some (File old) => old
                     | _ => []
                     end))
    /\ (forall k, k <> d ++ [n] -> entries w' !! k = entries w !! k).
Proof.
  intros Hn Hd Hfree. unfold Opfs.getFileHandle. rewrite Hn, Hd. cbn [negb].
  destruct (entries w !! (d ++ [n])) as [[old|]|] eqn:Hl; [|contradiction|].
  - exists w. rewrite Hl. auto.
  - eexists. split; [reflexivity|]. cbn. split; [reflexivity|]. split.
    + apply lookup_insert_eq.
    + intros k Hk. apply lookup_insert_ne. congruence.
Qed.

(** X15.  [writeFile] makes the file before it decodes the data: when the
    text is not Base64, the call under [base64] rejects with the wrapped
    error of [atob], the stream is never closed, and the file is left as it
    was, or empty where there was none. *)
Theorem writeFile_bad_base64_leaves_the_file (w : world) (path s : jsstring)
    (e : js_error) :
  can_write w path ->
  Base64.atob s = Throw e ->
  let w' := after (Fs.writeFile path (Fs.DataString s) (Fs.WriteString Fs.base64) None) w in
  Fs.writeFile path (Fs.DataString s) (Fs.WriteString Fs.base64) None w
  = (rejects (Fs.wrap "Error writing file: " e), w')
  /\ entries w' !! segments path
     = Some (File (match entries w !! segments path with
                   | Some (File old) => old
                   | _ => []
                   end)).
Proof.
  intros Hcan Hbad w'.
  destruct (can_write_resolve w path Hcan) as (Hav & Hvd & Hfree).
  destruct (resolve_creates w path Hav Hvd Hfree) as (w1 & Hr & Hres & Hframe).
  destruct Hcan as (_ & Hvalid & Hleaf & _ & Hnodir).
  pose proof (Hframe (segments path) (not_dir_prefix path Hleaf)) as Hsame.
  rewrite (segments_leaf path), Hleaf in Hsame, Hnodir |- *.
  destruct (getFileHandle_create_content (segments (directoryPath path)) (leaf path) w1
              (leaf_valid _ Hvalid Hleaf) (is_directory_reachable w1 _ Hres))
    as (w2 & Hget & _ & Hfile & _).
  { rewrite Hsame. exact Hnodir. }
  rewrite Hsame in Hfile.
  assert (Hpay : payload (Fs.DataString s) Fs.base64 = Throw e).
  { unfold payload. rewrite bool_decide_eq_true_2 by reflexivity.
    unfold Buffer.from.
    destruct (decide (Some Fs.base64 = Some (Js.lit "base64"))) as [_|Hne];
      [|contradiction Hne; reflexivity].
    rewrite Hbad. reflexivity. }
  assert (Hrun : Fs.writeFileAsync path (Fs.DataString s) Fs.base64 w
                 = (Throw (Fs.wrap "Error writing file: " e), w2)).
  { rewrite writeFileAsync_eq, Hr, Hget. unfold Opfs.createWritable.
    rewrite Hfile, Hpay. reflexivity. }
  assert (Hw' : w' = w2).
  { subst w'. unfold after. rewrite writeFile_promise, Hrun. reflexivity. }
  rewrite Hw'. split; [rewrite writeFile_promise, Hrun; reflexivity | exact Hfile].
Qed.

(** X16.  [readFile] of a path at which nothing is stored fails with the
    wrapped NotFoundError: the promise rejects with it, the callback gets
    it together with the empty string. *)
Theorem readFile_missing_file_fails (w : world) (path encoding : jsstring) (cb : Fs.fn) :
  can_write w path -> entries w !! segments path = None ->
  fst (Fs.readFile path (Fs.ReadString encoding) None w)
  = rejects (Fs.wrap "Error reading file: " Opfs.not_found)
  /\ fst (Fs.readFile path (Fs.ReadString encoding) (Some cb) w)
     = Fs.Outcome None
         [Fs.Call cb [Fs.VError (Fs.wrap "Error reading file: " Opfs.not_found);
                      Fs.VString []]].
Proof.
  intros Hcan Hnone.
  destruct (can_write_resolve w path Hcan) as (Hav & Hvd & Hfree).
  destruct (resolve_creates w path Hav Hvd Hfree) as (w1 & Hr & Hres & Hframe).
  destruct Hcan as (_ & Hvalid & Hleaf & _).
  assert (Hl : entries w1 !! (segments (directoryPath path) ++ [leaf path]) = None).
  { pose proof (Hframe (segments path) (not_dir_prefix path Hleaf)) as H.
    rewrite segments_leaf, Hleaf in H at 1. rewrite H. exact Hnone. }
  assert (Hrun : Fs.readFileAsync path encoding w
                 = (Throw (Fs.wrap "Error reading file: " Opfs.not_found), w1)).
  { unfold Fs.readFileAsync, try_catch, bind at 1. rewrite Hr.
    unfold bind at 1, Opfs.getFileHandle.
    rewrite (leaf_valid _ Hvalid Hleaf), (is_directory_reachable w1 _ Hres), Hl.
    reflexivity. }
  unfold Fs.readFile. cbn [Fs.normalize_read]. rewrite Hrun. split; reflexivity.
Qed.

(** ** The bytes of a text *)



(** Whatever the string, its scalar values are scalar values. *)
Lemma to_scalars_scalar n s :
  (length s <= n)%nat -> Forall (fun c => Js.is_code_unit c = true) s ->
  Forall (fun cp => Js.is_scalar cp = true) (Js.to_scalars s).
Proof.
  revert s. induction n as [|n IH]; intros s Hlen Hs.
  { destruct s; [constructor | cbn in Hlen; lia]. }
  destruct s as [|c rest]; [constructor|].
  inversion Hs as [|? ? Hc Hrest]; subst. cbn [Js.to_scalars].
  destruct (Js.is_high_surrogate c) eqn:Hh.
  - destruct rest as [|d rest']; [repeat constructor|].
    destruct (Js.is_low_surrogate d) eqn:Hd.
    + destruct (pair_scalar c d Hh Hd) as [Hp _]. constructor; [exact Hp|].
      apply IH; [cbn in Hlen; lia|]. inversion Hrest; assumption.
    + constructor; [reflexivity|]. apply IH; [cbn in Hlen |- *; lia | exact Hrest].
  - destruct (Js.is_low_surrogate c) eqn:Hl.
    + constructor; [reflexivity|]. apply IH; [cbn in Hlen; lia | exact Hrest].
    + destruct (unit_scalar c Hh Hl Hc) as [Hsc _]. constructor; [exact Hsc|].
      apply IH; [cbn in Hlen; lia | exact Hrest].
Qed.

(** The first code unit of a code point other than U+FEFF is not U+FEFF. *)
Lemma strip_bom_of_scalars cps :
  Forall (fun cp => Js.is_scalar cp = true) cps ->
  Js.of_scalars (Text.strip_bom cps) = Text.strip_bom (Js.of_scalars cps).
Proof.
  intros Hs. destruct cps as [|c rest]; [reflexivity|].
  inversion Hs as [|? ? Hc _]; subst. apply is_scalar_spec in Hc.
  cbn [Text.strip_bom]. unfold Js.of_scalars.
  destruct (Z.eqb_spec c 0xFEFF) as [->|Hne]; [reflexivity|].
  cbn [map concat]. unfold Js.code_units at 1 3. destruct (Z.leb_spec c 0xFFFF).
  - cbn [app Text.strip_bom]. destruct (Z.eqb_spec c 0xFEFF); [contradiction | reflexivity].
  - cbn [app Text.strip_bom].
    destruct (Z.eqb_spec ((c - 65536) `div` 1024 + 55296) 65279) as [Heq|_]; [|reflexivity].
    exfalso. revert Heq. arith.
Qed.

(** X17.  Round trip of any string: [Buffer.from(s).toString()] is [s] with
    every unpaired surrogate replaced by U+FFFD, without a leading U+FEFF,
    on every engine. *)
Theorem round_trip_replaces_lone_surrogates (limit : Z) (s : jsstring) :
  Forall (fun c => Js.is_code_unit c = true) s ->
  round_trip limit s = Ok (Text.strip_bom (Js.of_scalars (Js.to_scalars s))).
Proof.
  intros Hs. pose proof (to_scalars_scalar _ s (le_n _) Hs) as Hsc.
  unfold round_trip, Buffer.from.
  destruct (decide (Some (Js.lit "utf8") = Some (Js.lit "base64"))) as [Heq|_];
    [discriminate Heq|].
  rewrite toString_other_encodings by discriminate. cbn [Buffer.contents].
  unfold Text.TextDecoder_decode, Text.TextEncoder_encode.
  rewrite decode_encode by exact Hsc. rewrite strip_bom_of_scalars by exact Hsc.
  reflexivity.
Qed.

(** The bytes of one scalar value are bytes, between one and four. *)
Lemma encode_cp_bytes cp :
  Js.is_scalar cp = true ->
  Forall is_byte (Utf8.encode_cp cp)
  /\ (1 <= length (Utf8.encode_cp cp) <= 4)%nat
  /\ (cp <= 0xFFFF -> (length (Utf8.encode_cp cp) <= 3)%nat)
  /\ (0xFFFF < cp -> length (Utf8.encode_cp cp) = 4%nat)
  /\ (cp <= 0x7F -> Utf8.encode_cp cp = [cp]).
Proof.
  intros Hs. apply is_scalar_spec in Hs. destruct Hs as [Hr _]. unfold is_byte.
  destruct (Z.le_gt_cases cp 0x7F) as [H1|H1].
  { rewrite encode_cp_1 by lia. cbn [length].
    repeat split; try lia. repeat constructor; lia. }
  destruct (Z.le_gt_cases cp 0x7FF) as [H2|H2].
  { rewrite encode_cp_2 by lia. cbn [length].
    repeat split; try lia. repeat constructor; arith. }
  destruct (Z.le_gt_cases cp 0xFFFF) as [H3|H3].
  { rewrite encode_cp_3 by lia. cbn [length].
    repeat split; try lia. repeat constructor; arith. }
  rewrite encode_cp_4 by lia. cbn [length].
  repeat split; try lia. repeat constructor; arith.
Qed.

Lemma encode_bytes cps :
  Forall (fun cp => Js.is_scalar cp = true) cps -> Forall is_byte (Utf8.encode cps).
Proof.
  unfold Utf8.encode. induction 1 as [|cp cps Hcp _ IH]; [constructor|].
  cbn [map concat]. apply Forall_app. split; [apply encode_cp_bytes, Hcp | exact IH].
Qed.


(** X19.  Whatever it is made from, a Buffer holds bytes: the bytes of a
    [Uint8Array] or [ArrayBuffer], the numbers of an array-like taken
    modulo 256, the UTF-8 bytes of a string, or the bytes of Base64 text. *)
Theorem buffer_holds_bytes (data : Buffer.source) (encoding : option jsstring)
    (buffer : Buffer.t) :
  match data with
  | Buffer.FromString s => Forall (fun c => Js.is_code_unit c = true) s
  | Buffer.FromArrayBuffer b | Buffer.FromUint8Array b => Forall is_byte b
  | Buffer.FromArrayLike _ => True
  end ->
  Buffer.from data encoding = Ok buffer ->
  Forall is_byte (Buffer.contents buffer).
Proof.
  assert (Hmod : forall l, Forall is_byte (map Buffer.to_uint8 l)).
  { intros l. apply Forall_map, Forall_forall. intros x _. unfold is_byte, Buffer.to_uint8.
    arith. }
  intros Hsrc Hfrom. destruct data as [s|b|b|l]; cbn [Buffer.from] in Hfrom.
  - destruct (decide (encoding = Some (Js.lit "base64"))).
    + destruct (Base64.atob s) as [bin|err]; [|discriminate]. inversion Hfrom; subst.
      apply Hmod.
    + inversion Hfrom; subst. cbn [Buffer.contents].
      apply encode_bytes, (to_scalars_scalar _ s (le_n _) Hsrc).
  - inversion Hfrom; subst. exact Hsrc.
  - inversion Hfrom; subst. exact Hsrc.
  - inversion Hfrom; subst. apply Hmod.
Qed.

(** ** The class-style Buffer *)

Lemma totalLength_from acc list :
  fold_left (fun acc buf => (acc + length (BufferClass.contents buf))%nat) list acc
  = (acc + length (concat (map BufferClass.contents list)))%nat.
Proof.
  revert acc. induction list as [|buf rest IH]; intros acc; cbn [fold_left map concat].
  - cbn. lia.
  - rewrite IH, length_app. lia.
Qed.

(** The loop keeps what it has copied and fills the zeros that follow. *)
Lemma copy_fills list : forall copied zeros,
  length zeros = length (concat (map BufferClass.contents list)) ->
  BufferConcat.copy (copied ++ zeros) (length copied) list
  = Ok (copied ++ concat (map BufferClass.contents list)).
Proof.
  induction list as [|buf rest IH]; intros copied zeros Hlen; cbn [map concat] in *.
  - destruct zeros; [reflexivity | discriminate Hlen].
  - rewrite length_app in Hlen. cbn [BufferConcat.copy]. unfold TypedArray.set.
    rewrite length_app.
    destruct (Nat.leb_spec (length copied + length (BufferClass.contents buf))
                           (length copied + length zeros)) as [_|Hbad]; [|lia].
    rewrite take_app_length. rewrite drop_app_add'  by reflexivity.
    replace (copied ++ BufferClass.contents buf
               ++ drop (length (BufferClass.contents buf)) zeros)
      with ((copied ++ BufferClass.contents buf)
              ++ drop (length (BufferClass.contents buf)) zeros)
      by (rewrite <- app_assoc; reflexivity).
    rewrite <- (length_app copied).
    rewrite IH by (rewrite length_drop; lia).
    rewrite <- app_assoc. reflexivity.
Qed.

Lemma concat_loop list : BufferConcat.concat list = Ok (BufferClass.concat list).
Proof.
  unfold BufferConcat.concat, BufferConcat.totalLength, BufferClass.alloc,
    BufferClass.concat. cbn [BufferClass.contents].
  rewrite totalLength_from. cbn [Nat.add].
  pose proof (copy_fills list [] _ (repeat_length 0 _)) as H.
  cbn [app length] in H. rewrite H. reflexivity.
Qed.

(** X20.  [Buffer.concat] never fails: no [set] is out of bounds, and the
    result is the inputs' bytes one after the other, so its length is the sum
    of theirs. *)
Theorem concat_is_the_bytes_in_order (list : list BufferClass.t) :
  BufferConcat.concat list = Ok (BufferClass.concat list)
  /\ length (BufferClass.contents (BufferClass.concat list))
     = BufferConcat.totalLength list.
Proof.
  split; [apply concat_loop|].
  unfold BufferConcat.totalLength, BufferClass.concat. cbn [BufferClass.contents].
  rewrite totalLength_from. reflexivity.
Qed.

Lemma well_formed_app n a b :
  (length a <= n)%nat -> Js.well_formed a = true ->
  Js.to_scalars (a ++ b) = Js.to_scalars a ++ Js.to_scalars b
  /\ (Js.well_formed b = true -> Js.well_formed (a ++ b) = true).
Proof.
  revert a. induction n as [|n IH]; intros a Hlen Hwf.
  { destruct a; [split; [reflexivity | intros H; exact H] | cbn in Hlen; lia]. }
  destruct a as [|c rest]; [split; [reflexivity | intros H; exact H]|].
  cbn [Js.well_formed] in Hwf. cbn [app Js.to_scalars Js.well_formed].
  destruct (Js.is_high_surrogate c) eqn:Hh.
  - destruct rest as [|d rest']; [discriminate|].
    apply andb_true_iff in Hwf as [Hd Hwf]. cbn [app]. rewrite Hd.
    destruct (IH rest') as [IH1 IH2]; [cbn in Hlen; lia | exact Hwf |].
    rewrite IH1. split; [reflexivity|]. intros Hb. rewrite (IH2 Hb). reflexivity.
  - apply andb_true_iff in Hwf as [Hwf Hrest]. rewrite Hwf.
    destruct (IH rest) as [IH1 IH2]; [cbn in Hlen; lia | exact Hrest |].
    rewrite IH1. split; [destruct (Js.is_low_surrogate c); reflexivity|].
    intros Hb. rewrite (IH2 Hb). reflexivity.
Qed.

Lemma encode_concat texts :
  Forall (fun s => Js.well_formed s = true) texts ->
  Js.well_formed (concat texts) = true
  /\ Text.TextEncoder_encode (concat texts) = concat (map Text.TextEncoder_encode texts).
Proof.
  induction 1 as [|s texts Hs _ [IH1 IH2]]; [split; reflexivity|].
  cbn [map concat]. destruct (well_formed_app _ s (concat texts) (le_n _) Hs) as [Happ Hwf].
  split; [exact (Hwf IH1)|].
  unfold Text.TextEncoder_encode, Utf8.encode in *.
  rewrite Happ, map_app, concat_app, IH2. reflexivity.
Qed.

(** X21.  Texts put together as Buffers read as the texts put together:
    [Buffer.concat] of the Buffers of well-formed strings decodes to the
    strings' concatenation (without a leading U+FEFF). *)
Theorem concat_of_texts (legacy_decode : string -> bytes -> jsstring)
    (texts : list jsstring) :
  Forall (fun s => Js.well_formed s = true) texts ->
  exists buffer,
    BufferConcat.concat
      (map (fun s => BufferClass.from (BufferClass.FromString s) None) texts) = Ok buffer
    /\ BufferClass.toString legacy_decode buffer None = Ok (Text.strip_bom (concat texts)).
Proof.
  intros Hwf. destruct (encode_concat texts Hwf) as [Hall Henc].
  eexists. split.
  - apply concat_loop.
  - unfold BufferClass.toString, BufferClass.concat. cbn [BufferClass.contents].
    rewrite map_map.
    rewrite (List.map_ext _ Text.TextEncoder_encode (fun s => eq_refl)).
    change (Label.TextDecoder_new (Js.lit "utf-8")) with (@Ok Label.encoding Label.UTF_8).
    cbv beta iota. rewrite <- Henc. rewrite TextDecoder_TextEncoder by exact Hall.
    reflexivity.
Qed.

(** X22.  The class-style Buffer decodes UTF-8 when no encoding is given,
    when it is the empty string, and for every label of UTF-8, in any case
    and with surrounding white space: the text comes back. *)
Theorem class_round_trip (legacy_decode : string -> bytes -> jsstring)
    (s : jsstring) (encoding decoding : option jsstring) :
  Js.well_formed s = true ->
  match decoding with
  | None => True
  | Some label => label = [] \/ Label.get_an_encoding label = Some Label.UTF_8
  end ->
  BufferClass.toString legacy_decode
    (BufferClass.from (BufferClass.FromString s) encoding) decoding
  = Ok (Text.strip_bom s).
Proof.
  intros Hwf Hdec. unfold BufferClass.toString. cbn [BufferClass.from BufferClass.contents].
  assert (Hdefault : Label.TextDecoder_new (Js.lit "utf-8") = Ok Label.UTF_8)
    by reflexivity.
  destruct decoding as [label|].
  - destruct Hdec as [->|Hlabel].
    + cbn [Js.truthy]. rewrite Hdefault, TextDecoder_TextEncoder by exact Hwf. reflexivity.
    + destruct (Js.truthy label).
      * unfold Label.TextDecoder_new. rewrite Hlabel.
        rewrite TextDecoder_TextEncoder by exact Hwf. reflexivity.
      * rewrite Hdefault, TextDecoder_TextEncoder by exact Hwf. reflexivity.
  - rewrite Hdefault, TextDecoder_TextEncoder by exact Hwf. reflexivity.
Qed.

(** ** Without a root *)

Lemma ensure_root_fails w e :
  initialization_fails w e -> FsUtils.ensure_root w = (Throw e, w).
Proof.
  intros [Hr [[Hs ->]|[Hs He]]]; rewrite ensure_root_eq, Hr, Hs; [reflexivity|].
  rewrite He. reflexivity.
Qed.

(** X23.  Where the root cannot be resolved (no OPFS in this browser, or
    [getDirectory()] rejects), every operation rejects with its own prefix
    before the message of the cause, [exists] resolves to [false], nothing
    is changed, and the root stays unresolved, so that a later call tries
    again. *)
Theorem operations_without_a_root (w : world) (e : js_error)
    (path encoding : jsstring) (data : Fs.write_data) :
  initialization_fails w e ->
  Fs.readFile path (Fs.ReadString encoding) None w
    = (rejects (Fs.wrap "Error reading file: " e), w)
  /\ Fs.writeFile path data (Fs.WriteString encoding) None w
    = (rejects (Fs.wrap "Error writing file: " e), w)
  /\ Fs.exists_ path None w = (resolves (Fs.VBoolean false), w)
  /\ Fs.unlink path None w = (rejects (Fs.wrap "Error deleting file: " e), w)
  /\ Fs.mkdir path Fs.MkdirAbsent None w
    = (rejects (Fs.wrap "Error creating directory: " e), w)
  /\ Fs.readdir path Fs.ReaddirAbsent None w
    = (rejects (Fs.wrap "Error reading directory: " e), w).
Proof.
  intros Hfail. apply ensure_root_fails in Hfail.
  assert (Hres : FsUtils.getDirectoryAndFileName path w = (Throw e, w))
    by (rewrite getDirectoryAndFileName_eq, Hfail; reflexivity).
  assert (Hdir : forall create, FsUtils.getDirectoryByPath path create w = (Throw e, w))
    by (intros create; rewrite getDirectoryByPath_eq, Hfail; reflexivity).
  repeat split.
  - unfold Fs.readFile, Fs.normalize_read, Fs.readFileAsync, try_catch, bind.
    rewrite Hres. reflexivity.
  - unfold Fs.writeFile, Fs.normalize_write, Fs.writeFileAsync, try_catch, bind.
    rewrite Hres. reflexivity.
  - unfold Fs.exists_, Fs.checkExists, try_catch, bind. rewrite Hres. reflexivity.
  - unfold Fs.unlink, Fs.unlinkFile, try_catch, bind. rewrite Hres. reflexivity.
  - unfold Fs.mkdir, Fs.normalize_mkdir, Fs.createDir, try_catch, bind.
    rewrite Hdir. reflexivity.
  - unfold Fs.readdir, Fs.normalize_readdir, Fs.readDirectory, try_catch, bind.
    rewrite Hdir. reflexivity.
Qed.

(** ** The root is resolved once *)

Lemma blind_ret {A} (a : A) : environment_blind (ret a).
Proof. intros env w Hr. split; [reflexivity | exact Hr]. Qed.

Lemma blind_throw {A} e : environment_blind (@throw A e).
Proof. intros env w Hr. split; [reflexivity | exact Hr]. Qed.

Lemma blind_lift {A} (r : result A) : environment_blind (lift r).
Proof. intros env w Hr. split; [reflexivity | exact Hr]. Qed.

Lemma blind_bind {A B} (m : M A) (k : A -> M B) :
  environment_blind m -> (forall a, environment_blind (k a)) ->
  environment_blind (bind m k).
Proof.
  intros Hm Hk env w Hr. unfold bind. destruct (Hm env w Hr) as [Heq Hr'].
  rewrite Heq. destruct (m w) as [[a|e] w']; cbn [fst snd] in *.
  - apply Hk, Hr'.
  - split; [reflexivity | exact Hr'].
Qed.

Lemma blind_try_catch {A} (body : M A) (handler : js_error -> M A) :
  environment_blind body -> (forall e, environment_blind (handler e)) ->
  environment_blind (try_catch body handler).
Proof.
  intros Hm Hk env w Hr. unfold try_catch. destruct (Hm env w Hr) as [Heq Hr'].
  rewrite Heq. destruct (body w) as [[a|e] w']; cbn [fst snd] in *.
  - split; [reflexivity | exact Hr'].
  - apply Hk, Hr'.
Qed.

Ltac blind_primitive :=
  intros env [nav sto get err lim ents r] Hr;
  unfold in_environment, set_entries, Opfs.is_directory; cbn in *;
  repeat case_match; cbn; split; first [reflexivity | exact Hr].

Lemma blind_getDirectoryHandle d n create :
  environment_blind (Opfs.getDirectoryHandle d n create).
Proof. unfold Opfs.getDirectoryHandle. blind_primitive. Qed.

Lemma blind_getFileHandle d n create :
  environment_blind (Opfs.getFileHandle d n create).
Proof. unfold Opfs.getFileHandle. blind_primitive. Qed.

Lemma blind_removeEntry d n : environment_blind (Opfs.removeEntry d n).
Proof. unfold Opfs.removeEntry, Opfs.children. blind_primitive. Qed.

Lemma blind_values d : environment_blind (Opfs.values d).
Proof. unfold Opfs.values, Opfs.children. blind_primitive. Qed.

Lemma blind_getFile h : environment_blind (Opfs.getFile h).
Proof. unfold Opfs.getFile. blind_primitive. Qed.

Lemma blind_createWritable h : environment_blind (Opfs.createWritable h).
Proof. unfold Opfs.createWritable. blind_primitive. Qed.

Lemma blind_close s : environment_blind (Opfs.close s).
Proof. unfold Opfs.close, update. blind_primitive. Qed.

Lemma blind_read_engine : environment_blind (read max_arguments).
Proof. intros env w Hr. split; [reflexivity | exact Hr]. Qed.

Lemma blind_ensure_root : environment_blind FsUtils.ensure_root.
Proof.
  intros env w Hr. rewrite !ensure_root_eq. cbn [in_environment rootDirectory].
  destruct (rootDirectory w) eqn:Heq; [|contradiction].
  cbn [fst snd]. rewrite Heq. split; [reflexivity | discriminate].
Qed.

Lemma blind_walk create parts : forall d, environment_blind (FsUtils.walk create d parts).
Proof.
  induction parts as [|part rest IH]; intros d; cbn [FsUtils.walk].
  - apply blind_ret.
  - apply blind_bind; [apply blind_getDirectoryHandle | intros a; apply IH].
Qed.

Lemma blind_getDirectoryByPath path create :
  environment_blind (FsUtils.getDirectoryByPath path create).
Proof.
  unfold FsUtils.getDirectoryByPath.
  apply blind_bind; [apply blind_ensure_root | intros r; apply blind_walk].
Qed.

Lemma blind_getDirectoryAndFileName path :
  environment_blind (FsUtils.getDirectoryAndFileName path).
Proof.
  unfold FsUtils.getDirectoryAndFileName.
  apply blind_bind; [apply blind_ensure_root | intros r].
  destruct (Js.pop (Js.split Js.slash path)) as [popped parts].
  apply blind_bind; [|intros d; apply blind_ret].
  destruct (Js.truthy _); [apply blind_getDirectoryByPath | apply blind_ret].
Qed.

Create HintDb blind.
#[local] Hint Resolve blind_ret blind_throw blind_lift blind_getDirectoryHandle
  blind_getFileHandle blind_removeEntry blind_values blind_getFile
  blind_createWritable blind_close blind_read_engine blind_getDirectoryByPath
  blind_getDirectoryAndFileName : blind.

Ltac blind :=
  repeat first
    [ progress auto with blind
    | match goal with
      | |- forall _, _ => intros ?
      | |- environment_blind (try_catch _ _) => apply blind_try_catch
      | |- environment_blind (bind _ _) => apply blind_bind
      | |- environment_blind (let '(_, _) := ?p in _) => destruct p
      | |- environment_blind (if ?b then _ else _) => destruct b
      | |- environment_blind (match ?d with Fs.DataString _ => _ | _ => _ end) => destruct d
      end ].

Lemma blind_readFileAsync path encoding :
  environment_blind (Fs.readFileAsync path encoding).
Proof.
  unfold Fs.readFileAsync, Opfs.text, Opfs.arrayBuffer. blind.
Qed.

Lemma blind_writeFileAsync path data encoding :
  environment_blind (Fs.writeFileAsync path data encoding).
Proof.
  unfold Fs.writeFileAsync, Opfs.write. blind.
Qed.

Lemma blind_checkExists path : environment_blind (Fs.checkExists path).
Proof. unfold Fs.checkExists. blind. Qed.

Lemma blind_unlinkFile path : environment_blind (Fs.unlinkFile path).
Proof. unfold Fs.unlinkFile. blind. Qed.

Lemma blind_createDir path : environment_blind (Fs.createDir path).
Proof. unfold Fs.createDir. blind. Qed.

Lemma blind_readDirectory path : environment_blind (Fs.readDirectory path).
Proof. unfold Fs.readDirectory. blind. Qed.

(** X24.  The root is resolved once.  After it is, no operation looks at the
    environment again: whether [navigator.storage] is still there and
    whether [getDirectory()] would now reject make no difference to the
    result or to the files, and the root stays resolved. *)
Theorem resolved_root_is_kept (env w : world) (path : jsstring)
    (r : Fs.read_arg) (wa : Fs.write_arg) (m : Fs.mkdir_arg) (d : Fs.readdir_arg)
    (data : Fs.write_data) (callback : option Fs.fn) :
  rootDirectory w <> None ->
  unaffected_by env w (Fs.readFile path r callback)
  /\ unaffected_by env w (Fs.writeFile path data wa callback)
  /\ unaffected_by env w (Fs.exists_ path callback)
  /\ unaffected_by env w (Fs.unlink path callback)
  /\ unaffected_by env w (Fs.mkdir path m callback)
  /\ unaffected_by env w (Fs.readdir path d callback).
Proof.
  intros Hr. unfold unaffected_by.
  split; [|split; [|split; [|split; [|split]]]].
  - unfold Fs.readFile. destruct (Fs.normalize_read r callback) as [encoding cb].
    destruct (blind_readFileAsync path encoding env w Hr) as [Heq Hr'].
    rewrite Heq. destruct (Fs.readFileAsync path encoding w) as [res w'].
    destruct cb; cbn [fst snd] in *; split; first [reflexivity | exact Hr'].
  - unfold Fs.writeFile. destruct (Fs.normalize_write wa callback) as [encoding cb].
    destruct (blind_writeFileAsync path data encoding env w Hr) as [Heq Hr'].
    rewrite Heq. destruct (Fs.writeFileAsync path data encoding w) as [res w'].
    destruct cb; cbn [fst snd] in *; split; first [reflexivity | exact Hr'].
  - unfold Fs.exists_.
    destruct (blind_checkExists path env w Hr) as [Heq Hr'].
    rewrite Heq. destruct (Fs.checkExists path w) as [res w'].
    destruct callback; cbn [fst snd] in *; split; first [reflexivity | exact Hr'].
  - unfold Fs.unlink.
    destruct (blind_unlinkFile path env w Hr) as [Heq Hr'].
    rewrite Heq. destruct (Fs.unlinkFile path w) as [res w'].
    destruct callback; cbn [fst snd] in *; split; first [reflexivity | exact Hr'].
  - unfold Fs.mkdir. destruct (Fs.normalize_mkdir m callback) as [rec cb].
    destruct (blind_createDir path env w Hr) as [Heq Hr'].
    rewrite Heq. destruct (Fs.createDir path w) as [res w'].
    destruct cb; cbn [fst snd] in *; split; first [reflexivity | exact Hr'].
  - unfold Fs.readdir.
    destruct (blind_readDirectory path env w Hr) as [Heq Hr'].
    rewrite Heq. destruct (Fs.readDirectory path w) as [res w'].
    destruct (Fs.normalize_readdir d callback); cbn [fst snd] in *; split;
      first [reflexivity | exact Hr'].
Qed.

(** ** Calls of [initialize] that do not overlap *)

Lemma lookup_after_done m k (p : InitRace.pc) :
  (repeat InitRace.Done m ++ p :: repeat InitRace.Start k) !! m = Some p.
Proof.
  rewrite lookup_app_r by (rewrite repeat_length; lia).
  rewrite repeat_length, Nat.sub_diag. reflexivity.
Qed.

Lemma insert_after_done m k (p q : InitRace.pc) :
  <[m := q]> (repeat InitRace.Done m ++ p :: repeat InitRace.Start k)
  = repeat InitRace.Done m ++ q :: repeat InitRace.Start k.
Proof.
  rewrite insert_app_r_alt by (rewrite repeat_length; lia).
  rewrite repeat_length, Nat.sub_diag. reflexivity.
Qed.

Lemma repeat_snoc {A} (x : A) m : repeat x m ++ [x] = repeat x (S m).
Proof. induction m as [|m IH]; [reflexivity|]. cbn. rewrite IH. reflexivity. Qed.

Lemma run_cons i schedule s :
  InitRace.run (i :: schedule) s = InitRace.run schedule (InitRace.step i s).
Proof. reflexivity. Qed.

Lemma step_finds_the_root m k h reqs asg :
  InitRace.step m
    (InitRace.State true (Some h) reqs asg
       (repeat InitRace.Done m ++ InitRace.Start :: repeat InitRace.Start k))
  = InitRace.State true (Some h) reqs asg
      (repeat InitRace.Done m ++ InitRace.Done :: repeat InitRace.Start k).
Proof.
  unfold InitRace.step, InitRace.with_task.
  cbn [InitRace.tasks InitRace.supported InitRace.root InitRace.requests
       InitRace.assignments negb].
  rewrite lookup_after_done, insert_after_done. reflexivity.
Qed.

Lemma step_when_done m k s :
  InitRace.tasks s = repeat InitRace.Done m ++ InitRace.Done :: repeat InitRace.Start k ->
  InitRace.step m s = s.
Proof.
  intros Ht. unfold InitRace.step. rewrite Ht, lookup_after_done. reflexivity.
Qed.

(** Once the root is set, a call that starts finds it and asks for nothing. *)
Lemma later_calls k : forall m h reqs asg,
  InitRace.run (one_after_the_other m k)
    (InitRace.State true (Some h) reqs asg
       (repeat InitRace.Done m ++ repeat InitRace.Start k))
  = InitRace.State true (Some h) reqs asg (repeat InitRace.Done (m + k)).
Proof.
  induction k as [|k IH]; intros m h reqs asg.
  - cbn. rewrite app_nil_r, Nat.add_0_r. reflexivity.
  - unfold one_after_the_other. cbn [seq flat_map app repeat].
    rewrite !run_cons, step_finds_the_root.
    rewrite (step_when_done m k) by reflexivity.
    replace (repeat InitRace.Done m ++ InitRace.Done :: repeat InitRace.Start k)
      with (repeat InitRace.Done (S m) ++ repeat InitRace.Start k)
      by (rewrite <- repeat_snoc, <- app_assoc; reflexivity).
    specialize (IH (S m) h reqs asg). unfold one_after_the_other in IH.
    rewrite IH. replace (S m + k)%nat with (m + S k)%nat by lia. reflexivity.
Qed.

(** X25.  Calls of [initialize] made one after the other, each finished
    before the next starts, ask for the root once: the first call's request
    is the only one, its handle is the only assignment, and every call
    ends normally. *)
Theorem calls_in_turn_ask_once (n : nat) :
  (0 < n)%nat ->
  InitRace.run (one_after_the_other 0 n) (InitRace.initial n)
  = InitRace.State true (Some 0%nat) 1 [0%nat] (repeat InitRace.Done n).
Proof.
  intros Hn. destruct n as [|k]; [lia|].
  unfold one_after_the_other, InitRace.initial. cbn [seq flat_map app repeat].
  rewrite !run_cons.
  exact (later_calls k 1 0%nat 1%nat [0%nat]).
Qed.

(** ** The further properties at concrete inputs *)

Ltac nothing_stored :=
  unfold fresh; cbn [entries]; rewrite lookup_empty; discriminate.

Ltac can_write_on_fresh :=
  split; [left; repeat split; reflexivity|];
  split; [unfold valid_segments; vm_compute; repeat constructor|];
  split; [reflexivity|];
  split; [intros pre data _; nothing_stored | nothing_stored].


Lemma readFile_after_writeFile_text_witness :
  can_write fresh (Js.lit "/a/b.txt")
  /\ Js.well_formed sample_text = true
  /\ Fs.readFile (Js.lit "/a/b.txt") (Fs.ReadString Fs.utf8) None
       (after (Fs.writeFile (Js.lit "/a/b.txt") (Fs.DataString sample_text)
                 Fs.WriteAbsent None) fresh)
     = (resolves (Fs.VString sample_text),
        after (Fs.writeFile (Js.lit "/a/b.txt") (Fs.DataString sample_text)
                 Fs.WriteAbsent None) fresh).
Proof.
  assert (Hcw : can_write fresh (Js.lit "/a/b.txt")) by can_write_on_fresh.
  split; [exact Hcw|]. split; [reflexivity|].
  apply (readFile_after_writeFile_text fresh (Js.lit "/a/b.txt") sample_text Hcw eq_refl).
  discriminate.
Defined.

Lemma readFile_after_writeFile_bytes_witness :
  can_write fresh (Js.lit "/a/b.bin")
  /\ Fs.readFile (Js.lit "/a/b.bin") (Fs.ReadString (Js.lit "binary")) None
       (after (Fs.writeFile (Js.lit "/a/b.bin") (Fs.DataBytes [0; 255; 128])
                 Fs.WriteAbsent None) fresh)
     = (resolves (Fs.VBuffer (Buffer.Make [0; 255; 128])),
        after (Fs.writeFile (Js.lit "/a/b.bin") (Fs.DataBytes [0; 255; 128])
                 Fs.WriteAbsent None) fresh).
Proof.
  assert (Hcw : can_write fresh (Js.lit "/a/b.bin")) by can_write_on_fresh.
  split; [exact Hcw|].
  apply (readFile_after_writeFile_bytes fresh (Js.lit "/a/b.bin") [0; 255; 128]
           (Js.lit "binary") Hcw); discriminate.
Defined.

Lemma writeFile_twice_keeps_the_last_witness :
  can_write fresh (Js.lit "/a/b.bin")
  /\ entries
       (after (Fs.writeFile (Js.lit "/a/b.bin") (Fs.DataBytes [3]) Fs.WriteAbsent None)
          (after (Fs.writeFile (Js.lit "/a/b.bin") (Fs.DataBytes [1; 2]) Fs.WriteAbsent None)
             fresh))
     !! segments (Js.lit "/a/b.bin") = Some (File [3]).
Proof.
  assert (Hcw : can_write fresh (Js.lit "/a/b.bin")) by can_write_on_fresh.
  split; [exact Hcw|].
  apply (writeFile_twice_keeps_the_last fresh (Js.lit "/a/b.bin") [1; 2] [3] Hcw).
Defined.

Lemma exists_before_and_after_writeFile_witness :
  can_write fresh (Js.lit "/a/b.txt")
  /\ entries fresh !! segments (Js.lit "/a/b.txt") = None
  /\ fst (Fs.exists_ (Js.lit "/a/b.txt") None fresh) = resolves (Fs.VBoolean false)
  /\ fst (Fs.exists_ (Js.lit "/a/b.txt") None
            (after (Fs.writeFile (Js.lit "/a/b.txt") (Fs.DataString (Js.lit "x"))
                      Fs.WriteAbsent None) fresh))
     = resolves (Fs.VBoolean true).
Proof.
  assert (Hcw : can_write fresh (Js.lit "/a/b.txt")) by can_write_on_fresh.
  split; [exact Hcw|]. split; [reflexivity|].
  destruct (exists_before_and_after_writeFile fresh (Js.lit "/a/b.txt")
              (Fs.DataString (Js.lit "x")) (Js.lit "x") Hcw eq_refl eq_refl)
    as [Hbefore Hafter].
  split; [exact Hbefore|]. rewrite Hafter. reflexivity.
Defined.

Lemma exists_creates_parent_directories_witness :
  available fresh
  /\ entries fresh !! [Js.lit "a"] = None
  /\ entries (after (Fs.exists_ (Js.lit "/a/b.txt") None) fresh) !! [Js.lit "a"]
     = Some Directory.
Proof.
  assert (Hav : available fresh) by (left; repeat split; reflexivity).
  split; [exact Hav|]. split; [reflexivity|].
  apply (exists_creates_parent_directories fresh (Js.lit "/a/b.txt") None Hav).
  - vm_compute. repeat constructor.
  - intros pre data _. nothing_stored.
  - discriminate.
  - reflexivity.
Defined.




Lemma unlink_missing_file_rejects_witness :
  can_write fresh (Js.lit "/a/b.txt")
  /\ entries fresh !! segments (Js.lit "/a/b.txt") = None
  /\ fst (Fs.unlink (Js.lit "/a/b.txt") None fresh)
     = rejects (Fs.wrap "Error deleting file: " Opfs.not_found).
Proof.
  assert (Hcw : can_write fresh (Js.lit "/a/b.txt")) by can_write_on_fresh.
  split; [exact Hcw|]. split; [reflexivity|].
  rewrite (proj1 (unlink_missing_file_rejects fresh (Js.lit "/a/b.txt") Hcw eq_refl)).
  reflexivity.
Defined.


Lemma mkdir_again_changes_nothing_witness :
  Fs.mkdir (Js.lit "/a/b") Fs.MkdirAbsent None fresh
  = (resolves Fs.VUndefined, after (Fs.mkdir (Js.lit "/a/b") Fs.MkdirAbsent None) fresh)
  /\ Fs.mkdir (Js.lit "/a/b") Fs.MkdirAbsent None
       (after (Fs.mkdir (Js.lit "/a/b") Fs.MkdirAbsent None) fresh)
     = (resolves Fs.VUndefined, after (Fs.mkdir (Js.lit "/a/b") Fs.MkdirAbsent None) fresh).
Proof.
  split; [reflexivity|].
  apply (mkdir_again_changes_nothing fresh _ (Js.lit "/a/b") Fs.MkdirAbsent Fs.MkdirAbsent).
  reflexivity.
Defined.

Lemma buffer_base64_round_trip_witness :
  Forall is_byte [0x68; 0x69; 0xFF]
  /\ Z.of_nat (length [0x68; 0x69; 0xFF]) <= max_arguments fresh
  /\ 2 < Z.of_nat (length [0x68; 0x69; 0xFF])
  /\ Buffer.toString (max_arguments fresh) (Buffer.Make [0x68; 0x69; 0xFF])
       (Some (Js.lit "base64"))
     = Ok (Js.lit "aGn/")
  /\ Buffer.toString 2 (Buffer.Make [0x68; 0x69; 0xFF]) (Some (Js.lit "base64"))
     = Throw Buffer.too_many_arguments
  /\ Buffer.from (Buffer.FromString (Js.lit "aGn/")) (Some (Js.lit "base64"))
     = Ok (Buffer.Make [0x68; 0x69; 0xFF]).
Proof.
  assert (Hb : Forall is_byte [0x68; 0x69; 0xFF])
    by (repeat constructor; unfold is_byte; lia).
  assert (Hfits : Z.of_nat (length [0x68; 0x69; 0xFF]) <= max_arguments fresh)
    by (cbn; lia).
  assert (Hlong : 2 < Z.of_nat (length [0x68; 0x69; 0xFF])) by (cbn; lia).
  split; [exact Hb|]. split; [exact Hfits|]. split; [exact Hlong|].
  destruct (buffer_base64_round_trip (max_arguments fresh)
              (Buffer.Make [0x68; 0x69; 0xFF]) Hb) as (Hok & _ & Hfrom).
  destruct (buffer_base64_round_trip 2 (Buffer.Make [0x68; 0x69; 0xFF]) Hb)
    as (_ & Hthrow & _).
  split; [exact (Hok Hfits)|]. split; [exact (Hthrow Hlong) | exact Hfrom].
Defined.

Lemma base64_through_the_file_system_witness :
  can_write fresh (Js.lit "/a/b.bin")
  /\ Forall is_byte [0x68; 0x69; 0xFF]
  /\ Z.of_nat (length [0x68; 0x69; 0xFF]) <= max_arguments fresh
  /\ entries (after (Fs.writeFile (Js.lit "/a/b.bin") (Fs.DataString (Js.lit "aGn/"))
                       (Fs.WriteString Fs.base64) None) fresh)
     !! segments (Js.lit "/a/b.bin") = Some (File [0x68; 0x69; 0xFF])
  /\ fst (Fs.readFile (Js.lit "/a/b.bin") (Fs.ReadString Fs.base64) None
            (after (Fs.writeFile (Js.lit "/a/b.bin") (Fs.DataString (Js.lit "aGn/"))
                      (Fs.WriteString Fs.base64) None) fresh))
     = resolves (Fs.VString (Js.lit "aGn/")).
Proof.
  assert (Hcw : can_write fresh (Js.lit "/a/b.bin")) by can_write_on_fresh.
  assert (Hb : Forall is_byte [0x68; 0x69; 0xFF])
    by (repeat constructor; unfold is_byte; lia).
  assert (Hfits : Z.of_nat (length [0x68; 0x69; 0xFF]) <= max_arguments fresh)
    by (cbn; lia).
  split; [exact Hcw|]. split; [exact Hb|]. split; [exact Hfits|].
  destruct (base64_through_the_file_system fresh (Js.lit "/a/b.bin")
              [0x68; 0x69; 0xFF] Hcw Hb) as (Hstored & Hread & _).
  split; [exact Hstored|]. exact (f_equal fst (Hread Hfits)).
Defined.

Lemma writeFile_bad_base64_leaves_the_file_witness :
  can_write fresh (Js.lit "/a/b.bin")
  /\ Base64.atob (Js.lit "#")
     = Throw (JsError InvalidCharacterError
                (Js.lit "The string to be decoded is not correctly encoded."))
  /\ entries (after (Fs.writeFile (Js.lit "/a/b.bin") (Fs.DataString (Js.lit "#"))
                       (Fs.WriteString Fs.base64) None) fresh)
     !! segments (Js.lit "/a/b.bin") = Some (File []).
Proof.
  assert (Hcw : can_write fresh (Js.lit "/a/b.bin")) by can_write_on_fresh.
  split; [exact Hcw|]. split; [reflexivity|].
  exact (proj2 (writeFile_bad_base64_leaves_the_file fresh (Js.lit "/a/b.bin")
                  (Js.lit "#") _ Hcw eq_refl)).
Defined.

Lemma readFile_missing_file_fails_witness :
  can_write fresh (Js.lit "/a/b.txt")
  /\ entries fresh !! segments (Js.lit "/a/b.txt") = None
  /\ fst (Fs.readFile (Js.lit "/a/b.txt") (Fs.ReadString Fs.utf8) None fresh)
     = rejects (Fs.wrap "Error reading file: " Opfs.not_found).
Proof.
  assert (Hcw : can_write fresh (Js.lit "/a/b.txt")) by can_write_on_fresh.
  split; [exact Hcw|]. split; [reflexivity|].
  exact (proj1 (readFile_missing_file_fails fresh (Js.lit "/a/b.txt") Fs.utf8 0%nat
                  Hcw eq_refl)).
Defined.

Lemma round_trip_replaces_lone_surrogates_witness :
  Forall (fun c => Js.is_code_unit c = true) [0x61; 0xD800; 0x62]
  /\ round_trip (max_arguments fresh) [0x61; 0xD800; 0x62] = Ok [0x61; 0xFFFD; 0x62].
Proof.
  assert (Hs : Forall (fun c => Js.is_code_unit c = true) [0x61; 0xD800; 0x62])
    by (repeat constructor).
  split; [exact Hs|].
  exact (round_trip_replaces_lone_surrogates (max_arguments fresh)
           [0x61; 0xD800; 0x62] Hs).
Defined.


Lemma buffer_holds_bytes_witness :
  Forall (fun c => Js.is_code_unit c = true) sample_text
  /\ Forall is_byte (Text.TextEncoder_encode sample_text).
Proof.
  assert (Hs : Forall (fun c => Js.is_code_unit c = true) sample_text)
    by (repeat constructor).
  split; [exact Hs|].
  exact (buffer_holds_bytes (Buffer.FromString sample_text) None
           (Buffer.Make (Text.TextEncoder_encode sample_text)) Hs eq_refl).
Defined.

Lemma concat_of_texts_witness :
  Forall (fun s => Js.well_formed s = true) [Js.lit "ab"; sample_text]
  /\ exists buffer,
       BufferConcat.concat
         (map (fun s => BufferClass.from (BufferClass.FromString s) None)
            [Js.lit "ab"; sample_text]) = Ok buffer
       /\ BufferClass.toString (fun _ b => b) buffer None
          = Ok (Text.strip_bom (concat [Js.lit "ab"; sample_text])).
Proof.
  assert (Hs : Forall (fun s => Js.well_formed s = true) [Js.lit "ab"; sample_text])
    by (repeat constructor).
  split; [exact Hs|].
  exact (concat_of_texts (fun _ b => b) [Js.lit "ab"; sample_text] Hs).
Defined.

Lemma class_round_trip_witness :
  Js.well_formed sample_text = true
  /\ Label.get_an_encoding (Js.lit " UTF8 ") = Some Label.UTF_8
  /\ BufferClass.toString (fun _ b => b)
       (BufferClass.from (BufferClass.FromString sample_text) None)
       (Some (Js.lit " UTF8 "))
     = Ok sample_text.
Proof.
  split; [reflexivity|]. split; [reflexivity|].
  exact (class_round_trip (fun _ b => b) sample_text None (Some (Js.lit " UTF8 "))
           eq_refl (or_intror eq_refl)).
Defined.

Lemma operations_without_a_root_witness :
  initialization_fails no_backend not_supported
  /\ Fs.mkdir (Js.lit "/a") Fs.MkdirAbsent None no_backend
     = (rejects (Fs.wrap "Error creating directory: " not_supported), no_backend).
Proof.
  assert (Hf : initialization_fails no_backend not_supported)
    by (split; [reflexivity | left; split; reflexivity]).
  split; [exact Hf|].
  apply (operations_without_a_root no_backend not_supported (Js.lit "/a") Fs.utf8
           (Fs.DataBytes []) Hf).
Defined.

Lemma resolved_root_is_kept_witness :
  rootDirectory with_file <> None
  /\ unaffected_by no_backend with_file
       (Fs.readFile (Js.lit "/a/b.txt") Fs.ReadAbsent None).
Proof.
  assert (Hr : rootDirectory with_file <> None) by discriminate.
  split; [exact Hr|].
  apply (resolved_root_is_kept no_backend with_file (Js.lit "/a/b.txt") Fs.ReadAbsent
           Fs.WriteAbsent Fs.MkdirAbsent Fs.ReaddirAbsent (Fs.DataBytes []) None Hr).
Defined.

Lemma calls_in_turn_ask_once_witness :
  (0 < 3)%nat
  /\ InitRace.run [0; 0; 1; 1; 2; 2]%nat (InitRace.initial 3)
     = InitRace.State true (Some 0%nat) 1 [0%nat]
         [InitRace.Done; InitRace.Done; InitRace.Done].
Proof.
  split; [lia|]. exact (calls_in_turn_ask_once 3 ltac:(lia)).
Defined.
